(** * DTLS flight transmission and retransmission (lib/gnutls_dtls.c)

    A shallow embedding of [transmit_message], [drop_usage_count] and
    [_gnutls_dtls_transmit], followed by the properties of the flight
    engine that the design document states about them.

    The record layer, the transport and the allocator are collaborators
    of this file: their answers are supplied by an oracle that sees the
    whole history of calls made so far, and every call is appended to
    that history.  Diagnostics ([_gnutls_dtls_log], [gnutls_assert])
    have no influence on control flow and are left out. *)

From Stdlib Require Import ZArith Lia List Strings.Byte.
From stdpp Require Import base option list gmap.
Import ListNotations.

Local Open Scope Z_scope.

(** ** Machine integers *)

(** [unsigned int] and [uint] are 32 bits wide; arithmetic on them wraps. *)
Definition wrap32 (z : Z) : Z := z mod 2 ^ 32.

Definition byte_of_Z (z : Z) : byte :=
  match Byte.of_N (Z.to_N (z mod 256)) with
  | Some b => b
  | None => "000"%byte
  end.

Definition Z_of_byte (b : byte) : Z := Z.of_N (Byte.to_N b).

(** Modelled from the spec: [_gnutls_write_uint16] (gnutls_num.c is not
    among the sources) stores the low 16 bits, big-endian. *)
Definition _gnutls_write_uint16 (n : Z) : list byte :=
  [byte_of_Z (Z.shiftr n 8); byte_of_Z n].

(** Modelled from the spec: [_gnutls_write_uint24] (gnutls_num.c is not
    among the sources) stores the low 24 bits, big-endian. *)
Definition _gnutls_write_uint24 (n : Z) : list byte :=
  [byte_of_Z (Z.shiftr n 16); byte_of_Z (Z.shiftr n 8); byte_of_Z n].

(** Modelled from the spec: the fragment header is 12 bytes long (the
    macro lives in gnutls_int.h, which is not among the sources). *)
Definition DTLS_HANDSHAKE_HEADER_SIZE : Z := 12.

(** ** Constants of the public and internal headers

    gnutls.h and gnutls_int.h are not among the sources.  The numeric
    values of the error codes, handshake types and record types are
    therefore parameters of the development. *)
Class gnutls_h := {
  GNUTLS_E_MEMORY_ERROR : Z;
  GNUTLS_E_INVALID_REQUEST : Z;
  GNUTLS_E_INTERNAL_ERROR : Z;
  GNUTLS_E_TIMEDOUT : Z;
  GNUTLS_HANDSHAKE_FINISHED : Z;
  GNUTLS_HANDSHAKE_CHANGE_CIPHER_SPEC : Z;
  GNUTLS_CHANGE_CIPHER_SPEC : Z;
  GNUTLS_HANDSHAKE : Z
}.

(** The connection end, [security_parameters.entity]. *)
Inductive gnutls_entity : Set := GNUTLS_SERVER | GNUTLS_CLIENT.

(** [internals.resumed]. *)
Inductive resumable_session_t : Set := RESUME_TRUE | RESUME_FALSE.

Definition entity_eqb (a b : gnutls_entity) : bool :=
  match a, b with
  | GNUTLS_SERVER, GNUTLS_SERVER | GNUTLS_CLIENT, GNUTLS_CLIENT => true
  | _, _ => false
  end.

Definition resumed_eqb (a b : resumable_session_t) : bool :=
  match a, b with
  | RESUME_TRUE, RESUME_TRUE | RESUME_FALSE, RESUME_FALSE => true
  | _, _ => false
  end.

(** ** Data model *)

(** A buffered outgoing message.  [uhead] and [udata] are the two byte
    regions that [_mbuffer_get_uhead_ptr]/[_mbuffer_get_uhead_size] and
    [_mbuffer_get_udata_ptr]/[_mbuffer_get_udata_size] give access to. *)
Record mbuffer_st := {
  htype : Z;
  sequence : Z;
  epoch : Z;
  uhead : list byte;
  udata : list byte
}.

(** Of an epoch's parameters only the usage counter is touched here.
    It is a C [int]; it is modelled unbounded, as signed overflow has no
    defined result and the counter only ever moves by one. *)
Record record_parameters_st := { usage_cnt : Z }.

(** The fields of the session that the engine reads or writes.
    [dtls_total_timeout] is [internals.dtls.total_timeout]; the name
    [total_timeout] is kept for the local variable of
    [_gnutls_dtls_transmit].  The MTU and the two timeouts are
    [unsigned int]. *)
Record gnutls_session := {
  entity : gnutls_entity;
  resumed : resumable_session_t;
  hsk_mtu : Z;
  retrans_timeout : Z;
  dtls_total_timeout : Z;
  handshake_send_buffer : list mbuffer_st;
  epochs : gmap Z record_parameters_st
}.

Definition set_send_buffer (s : gnutls_session) (b : list mbuffer_st) :=
  {| entity := entity s; resumed := resumed s; hsk_mtu := hsk_mtu s;
     retrans_timeout := retrans_timeout s;
     dtls_total_timeout := dtls_total_timeout s;
     handshake_send_buffer := b; epochs := epochs s |}.

Definition set_epochs (s : gnutls_session) (m : gmap Z record_parameters_st) :=
  {| entity := entity s; resumed := resumed s; hsk_mtu := hsk_mtu s;
     retrans_timeout := retrans_timeout s;
     dtls_total_timeout := dtls_total_timeout s;
     handshake_send_buffer := handshake_send_buffer s; epochs := m |}.

(** [gnutls_dtls_set_timeouts]. *)
Definition gnutls_dtls_set_timeouts (s : gnutls_session) (retrans total : Z) :=
  {| entity := entity s; resumed := resumed s; hsk_mtu := hsk_mtu s;
     retrans_timeout := retrans;
     dtls_total_timeout := total;
     handshake_send_buffer := handshake_send_buffer s; epochs := epochs s |}.

(** ** Calls to collaborators *)

Inductive event :=
| EvMalloc (size : Z)
| EvFree
| EvSend (type htype epoch : Z) (data : list byte)
| EvFlush
| EvCheckRecv (len ms : Z).

(** The answers of the collaborators, each a function of the calls made
    so far and of the arguments of the present call. *)
Record collaborators := {
  malloc_ok : list event -> Z -> bool;
  send_result : list event -> Z -> Z -> Z -> list byte -> Z;
  flush_result : list event -> Z;
  recv_result : list event -> Z -> Z -> Z * byte
}.

(** Computations that call collaborators: the history is threaded
    through, and [None] stands for a loop that has not finished within
    the fuel it was given. *)
Definition io (A : Type) : Type := list event -> option (A * list event).

Definition io_ret {A} (a : A) : io A := fun tr => Some (a, tr).

Definition io_bind {A B} (m : io A) (k : A -> io B) : io B :=
  fun tr => match m tr with
            | Some (a, tr') => k a tr'
            | None => None
            end.

Definition out_of_fuel {A} : io A := fun _ => None.

Declare Scope io_scope.
Delimit Scope io_scope with io.
Notation "x <- m ;; k" := (io_bind m (fun x => k))
  (at level 100, m at next level, right associativity) : io_scope.
Notation "m ;;; k" := (io_bind m (fun _ => k))
  (at level 100, right associativity) : io_scope.

Definition is_send (e : event) : bool :=
  match e with EvSend _ _ _ _ => true | _ => false end.

Definition is_flush (e : event) : bool :=
  match e with EvFlush => true | _ => false end.

(** The transport writes of a history, and the number of flushes (one
    per pass over the flight). *)
Definition sends (tr : list event) : list event := List.filter is_send tr.
Definition flushes (tr : list event) : nat := length (List.filter is_flush tr).

Section Engine.

Context {K : gnutls_h} (env : collaborators).

Definition gnutls_malloc (size : Z) : io bool :=
  fun tr => Some (malloc_ok env tr size, tr ++ [EvMalloc size]).

Definition gnutls_free : io unit :=
  fun tr => Some (tt, tr ++ [EvFree]).

Definition _gnutls_send_int (type htype epoch : Z) (data : list byte) : io Z :=
  fun tr => Some (send_result env tr type htype epoch data,
                  tr ++ [EvSend type htype epoch data]).

Definition _gnutls_io_write_flush : io Z :=
  fun tr => Some (flush_result env tr, tr ++ [EvFlush]).

Definition _gnutls_io_check_recv (len ms : Z) : io (Z * byte) :=
  fun tr => Some (recv_result env tr len ms, tr ++ [EvCheckRecv len ms]).

(** *** transmit_message *)

(** The twelve header bytes of a fragment: bytes 0..5 are written once
    before the loop, bytes 6..11 on every iteration. *)
Definition fragment_header (bufel : mbuffer_st) (data_size offset frag_len : Z)
  : list byte :=
  [byte_of_Z (htype bufel)] ++ _gnutls_write_uint24 data_size
    ++ _gnutls_write_uint16 (sequence bufel)
    ++ _gnutls_write_uint24 offset ++ _gnutls_write_uint24 frag_len.

(** [memcpy (&mtu_data[12], data+offset, frag_len)]: the [frag_len] bytes
    of the payload from [offset] on.  (Were the range to reach past the
    end of the payload, the C code would read outside the buffer; the
    model then yields the bytes that are there.) *)
Definition fragment_payload (data : list byte) (offset frag_len : Z) : list byte :=
  firstn (Z.to_nat frag_len) (skipn (Z.to_nat offset) data).

(** The [for] loop of [transmit_message], entered at its test.  [ret] is
    the value the variable holds on entry. *)
Fixpoint fragment_loop (fuel : nat) (bufel : mbuffer_st)
    (mtu data_size offset ret : Z) : io Z :=
  match fuel with
  | O => out_of_fuel
  | S fuel' =>
    if offset <=? data_size then
      let frag_len := if wrap32 (offset + mtu) >? data_size
                      then wrap32 (data_size - offset) else mtu in
      (ret <- _gnutls_send_int GNUTLS_HANDSHAKE (htype bufel) (epoch bufel)
                (fragment_header bufel data_size offset frag_len
                   ++ fragment_payload (udata bufel) offset frag_len) ;;
       if ret <? 0 then io_ret ret
       else fragment_loop fuel' bufel mtu data_size (wrap32 (offset + mtu)) ret)%io
    else io_ret ret
  end.

Definition transmit_message (fuel : nat) (s : gnutls_session) (bufel : mbuffer_st)
  : io Z :=
  let mtu := hsk_mtu s in
  if htype bufel =? GNUTLS_HANDSHAKE_CHANGE_CIPHER_SPEC then
    _gnutls_send_int GNUTLS_CHANGE_CIPHER_SPEC (-1) (epoch bufel) (uhead bufel)
  else
    (ok <- gnutls_malloc (wrap32 (mtu + DTLS_HANDSHAKE_HEADER_SIZE)) ;;
     if negb ok then io_ret GNUTLS_E_MEMORY_ERROR
     else
       let data_size := wrap32 (Z.of_nat (length (udata bufel))) in
       ret <- fragment_loop fuel bufel mtu data_size 0 0 ;;
       gnutls_free ;;;
       io_ret ret)%io.

(** *** drop_usage_count *)

(** Modelled from the spec: [_gnutls_epoch_get] (gnutls_constate.c is
    not among the sources) maps an epoch identifier to its record and
    fails with a negative code when the epoch is no longer there. *)
Definition _gnutls_epoch_get (s : gnutls_session) (e : Z)
  : Z + record_parameters_st :=
  match epochs s !! e with
  | Some params => inr params
  | None => inl GNUTLS_E_INVALID_REQUEST
  end.

(** The counter is an [int] in the code and an integer here: the two
    agree as long as no decrement starts from the least [int]. *)
Fixpoint drop_usage_count_from (cur : list mbuffer_st) (s : gnutls_session)
  : Z * gnutls_session :=
  match cur with
  | [] => (0, s)
  | m :: next =>
    match _gnutls_epoch_get s (epoch m) with
    | inl ret => (ret, s)
    | inr params =>
      let cnt := usage_cnt params - 1 in
      let s' := set_epochs s (<[epoch m := {| usage_cnt := cnt |}]> (epochs s)) in
      if cnt <? 0 then (GNUTLS_E_INTERNAL_ERROR, s')
      else drop_usage_count_from next s'
    end
  end.

Definition drop_usage_count (s : gnutls_session) : Z * gnutls_session :=
  drop_usage_count_from (handshake_send_buffer s) s.

(** Modelled from the spec: [_mbuffer_clear] (gnutls_mbuffers.c is not
    among the sources) empties the flight buffer. *)
Definition _mbuffer_clear (s : gnutls_session) : gnutls_session :=
  set_send_buffer s [].

(** *** _gnutls_dtls_transmit *)

(** The inner [for] loop: every buffered message is handed to
    [transmit_message], whose result is not looked at. *)
Fixpoint send_flight (fuel : nat) (s : gnutls_session) (cur : list mbuffer_st)
    (last_type : Z) : io Z :=
  match cur with
  | [] => io_ret last_type
  | m :: next =>
    (transmit_message fuel s m ;;;
     send_flight fuel s next (htype m))%io
  end.

(** The test that selects the wait after the last flight of a handshake. *)
Definition last_flight_of_handshake (s : gnutls_session) (last_type : Z) : bool :=
  (last_type =? GNUTLS_HANDSHAKE_FINISHED)
  && ((entity_eqb (entity s) GNUTLS_SERVER
         && resumed_eqb (resumed s) RESUME_FALSE)
      || (entity_eqb (entity s) GNUTLS_CLIENT
            && resumed_eqb (resumed s) RESUME_TRUE)).

(** The [if]/[else] after the flush: the bounded wait, the adjustment of
    [ret], and the addition to [total_timeout]. *)
Definition wait_for_peer (s : gnutls_session) (last_type total_timeout : Z)
  : io (Z * Z) :=
  if last_flight_of_handshake s last_type then
    (rc <- _gnutls_io_check_recv 1 (retrans_timeout s) ;;
     let '(ret, c) := rc in
     let ret := if ret =? GNUTLS_E_TIMEDOUT then 0
                else if (ret >=? 0) && (Z_of_byte c =? GNUTLS_HANDSHAKE)
                     then GNUTLS_E_TIMEDOUT
                     else ret in
     io_ret (ret, wrap32 (total_timeout + retrans_timeout s)))%io
  else
    (rc <- _gnutls_io_check_recv 0 (retrans_timeout s) ;;
     let '(ret, _) := rc in
     io_ret (ret, wrap32 (total_timeout + retrans_timeout s)))%io.

(** What a call leaves behind: the returned code, the final value of the
    local accumulator [total_timeout], and the session. *)
Record outcome := {
  result : Z;
  waited : Z;
  after : gnutls_session
}.

(** The code from the label [cleanup] to the end. *)
Definition cleanup (s : gnutls_session) (ret total_timeout : Z) : outcome :=
  let '(_, s1) := drop_usage_count s in
  {| result := ret; waited := total_timeout; after := _mbuffer_clear s1 |}.

(** How one pass through the body of the [do ... while] loop ends:
    the function returns, or the loop condition sends it round again
    with the present values of [total_timeout] and [last_type]. *)
Inductive verdict :=
| Return (o : outcome)
| Again (total_timeout last_type : Z).

(** The body of the [do ... while] loop.  Where the loop is left, the
    code that follows it up to the [return] is included. *)
Definition flight_round (fuel : nat) (s : gnutls_session)
    (total_timeout last_type : Z) : io verdict :=
  (last_type <- send_flight fuel s (handshake_send_buffer s) last_type ;;
   ret <- _gnutls_io_write_flush ;;
   if ret <? 0 then
     io_ret (Return {| result := ret; waited := total_timeout; after := s |})
   else
     w <- wait_for_peer s last_type total_timeout ;;
     let '(ret, total_timeout) := w in
     if total_timeout >=? dtls_total_timeout s then
       io_ret (Return (cleanup s GNUTLS_E_TIMEDOUT total_timeout))
     else if ret =? GNUTLS_E_TIMEDOUT then
       io_ret (Again total_timeout last_type)
     else if ret <? 0 then
       io_ret (Return (cleanup s ret total_timeout))
     else
       io_ret (Return (cleanup s 0 total_timeout)))%io.

Fixpoint flight_loop (fuel : nat) (s : gnutls_session)
    (total_timeout last_type : Z) : io outcome :=
  match fuel with
  | O => out_of_fuel
  | S fuel' =>
    (v <- flight_round fuel' s total_timeout last_type ;;
     match v with
     | Return o => io_ret o
     | Again total_timeout last_type =>
         flight_loop fuel' s total_timeout last_type
     end)%io
  end.

Definition _gnutls_dtls_transmit (fuel : nat) (s : gnutls_session) : io outcome :=
  flight_loop fuel s 0 0.

End Engine.

(** ** Specification-side vocabulary *)

(** The length of fragment [k] of a message of [L] bytes cut at [M]:
    [M], except for the final fragment, which takes the remainder. *)
Definition frag_len_at (L M : Z) (k : nat) : Z :=
  if Z.of_nat k <? L / M then M else L mod M.

Section Vocabulary.

Context {K : gnutls_h}.

(** The transport write that carries fragment [k] of [bufel]. *)
Definition fragment_event (bufel : mbuffer_st) (M : Z) (k : nat) : event :=
  let L := Z.of_nat (length (udata bufel)) in
  EvSend GNUTLS_HANDSHAKE (htype bufel) (epoch bufel)
    (fragment_header bufel L (Z.of_nat k * M) (frag_len_at L M k)
       ++ fragment_payload (udata bufel) (Z.of_nat k * M) (frag_len_at L M k)).

(** A message whose transmission comes to an end whatever the
    collaborators answer: it is not fragmented at all, or the MTU is
    positive and the payload is shorter than 2^31 bytes. *)
Definition sendable (s : gnutls_session) (m : mbuffer_st) : Prop :=
  htype m = GNUTLS_HANDSHAKE_CHANGE_CIPHER_SPEC
  \/ (0 < hsk_mtu s < 2 ^ 32 /\ Z.of_nat (length (udata m)) < 2 ^ 31).

End Vocabulary.

(** The calls [transmit_message] can make. *)
Definition is_message_io (e : event) : bool :=
  match e with
  | EvMalloc _ | EvFree | EvSend _ _ _ _ => true
  | EvFlush | EvCheckRecv _ _ => false
  end.

(** The type of the last message of the buffer, or [d] when it is empty:
    what [last_type] holds after the inner loop when it held [d] before. *)
Definition final_type (buf : list mbuffer_st) (d : Z) : Z :=
  from_option htype d (last buf).

(** Fuel that lets the fragmentation loop of every buffered message run
    to its end. *)
Definition flight_fuel (buf : list mbuffer_st) : nat :=
  fold_right (fun m acc => Nat.max (length (udata m) + 2) acc) 0%nat buf.

(** [ceil (T / R)] for positive [R]. *)
Definition ceil_div (T R : Z) : Z := (T + R - 1) / R.

(** How many messages of the buffer reference epoch [e]. *)
Definition multiplicity (e : Z) (buf : list mbuffer_st) : Z :=
  Z.of_nat (length (List.filter (fun m => epoch m =? e) buf)).

(** ** Concrete inputs *)

(** The values the constants have in the headers of the library. *)
Definition gnutls_values : gnutls_h :=
  {| GNUTLS_E_MEMORY_ERROR := -25;
     GNUTLS_E_INVALID_REQUEST := -50;
     GNUTLS_E_INTERNAL_ERROR := -59;
     GNUTLS_E_TIMEDOUT := -319;
     GNUTLS_HANDSHAKE_FINISHED := 20;
     GNUTLS_HANDSHAKE_CHANGE_CIPHER_SPEC := 254;
     GNUTLS_CHANGE_CIPHER_SPEC := 20;
     GNUTLS_HANDSHAKE := 22 |}.

(** A peer that answers every flight at once. *)
Definition responsive_peer : collaborators :=
  {| malloc_ok := fun _ _ => true;
     send_result := fun _ _ _ _ d => Z.of_nat (length d);
     flush_result := fun _ => 0;
     recv_result := fun _ _ _ => (0, "000"%byte) |}.

(** A peer that never answers: every wait ends with the timeout code. *)
Definition silent_peer : collaborators :=
  {| malloc_ok := fun _ _ => true;
     send_result := fun _ _ _ _ d => Z.of_nat (length d);
     flush_result := fun _ => 0;
     recv_result := fun _ _ _ => (-319, "000"%byte) |}.

(** A transport whose flush fails with the push error, -53. *)
Definition broken_flush : collaborators :=
  {| malloc_ok := fun _ _ => true;
     send_result := fun _ _ _ _ d => Z.of_nat (length d);
     flush_result := fun _ => -53;
     recv_result := fun _ _ _ => (0, "000"%byte) |}.

(** A record layer whose every write fails with the push error, and a
    peer that lets the first wait time out and answers the second. *)
Definition broken_write : collaborators :=
  {| malloc_ok := fun _ _ => true;
     send_result := fun _ _ _ _ _ => -53;
     flush_result := fun _ => 0;
     recv_result := fun tr _ _ =>
       if (flushes tr <=? 1)%nat then (-319, "000"%byte) else (0, "000"%byte) |}.

Definition client_hello : mbuffer_st :=
  {| htype := 1; sequence := 0; epoch := 0; uhead := [];
     udata := ["001"; "002"; "003"; "004"; "005"]%byte |}.

Definition key_exchange : mbuffer_st :=
  {| htype := 16; sequence := 1; epoch := 0; uhead := [];
     udata := ["010"; "011"; "012"; "013"]%byte |}.

Definition change_cipher_spec : mbuffer_st :=
  {| htype := 254; sequence := 2; epoch := 0; uhead := ["001"%byte]; udata := [] |}.

Definition finished : mbuffer_st :=
  {| htype := 20; sequence := 3; epoch := 1; uhead := []; udata := [] |}.

(** A fresh handshake with an MTU of two bytes and one epoch, 0, whose
    usage counter is [cnt0]. *)
Definition a_session (who : gnutls_entity) (retrans total : Z)
    (buf : list mbuffer_st) (cnt0 : Z) : gnutls_session :=
  {| entity := who; resumed := RESUME_FALSE; hsk_mtu := 2;
     retrans_timeout := retrans; dtls_total_timeout := total;
     handshake_send_buffer := buf;
     epochs := {[ 0 := {| usage_cnt := cnt0 |} ]} |}.

(** A client about to send its first flight; the epoch is in use once. *)
Definition hello_session : gnutls_session :=
  a_session GNUTLS_CLIENT 1000 60000 [client_hello] 1.

(** The same with an interval of 3 and a total timeout of 10. *)
Definition short_deadline_session : gnutls_session :=
  a_session GNUTLS_CLIENT 3 10 [client_hello] 1.

(** The same with the interval equal to the total timeout. *)
Definition equal_timeouts_session : gnutls_session :=
  a_session GNUTLS_CLIENT 1000 1000 [client_hello] 1.

(** The usage count of the epoch is 0 although a message references it. *)
Definition stale_count_session : gnutls_session :=
  a_session GNUTLS_CLIENT 1000 60000 [client_hello] 0.

(** The buffered message references epoch 1, which is not in the table. *)
Definition missing_epoch_session : gnutls_session :=
  a_session GNUTLS_CLIENT 1000 60000 [finished] 0.

Definition key_exchange_session : gnutls_session :=
  a_session GNUTLS_CLIENT 1000 60000 [key_exchange] 1.

Definition change_cipher_spec_session : gnutls_session :=
  a_session GNUTLS_CLIENT 1000 60000 [change_cipher_spec] 1.

(** A server of a fresh handshake about to send its Finished. *)
Definition server_finished_session : gnutls_session :=
  a_session GNUTLS_SERVER 1000 60000 [finished] 1.

Definition idle_session : gnutls_session :=
  a_session GNUTLS_CLIENT 1000 60000 [] 1.

(** The history after a server has sent [finished] once. *)
Definition finished_sent : list event :=
  [EvMalloc 14;
   EvSend 22 20 1 (fragment_header finished 0 0 0);
   EvFree].

(** ** Further vocabulary *)

(** The bookkeeping the release relies on: every epoch that buffered
    messages reference is in the table, with a usage count at least the
    number of those messages. *)
Definition counts_cover (s : gnutls_session) (buf : list mbuffer_st) : Prop :=
  forall e, 0 < multiplicity e buf ->
    exists c, epochs s !! e = Some {| usage_cnt := c |} /\ multiplicity e buf <= c.

(** The counters that buffered messages reference are [int]s above the
    least one, so that the decrement of the release is defined. *)
Definition counts_in_range (s : gnutls_session) (buf : list mbuffer_st) : Prop :=
  forall e c, 0 < multiplicity e buf ->
    epochs s !! e = Some {| usage_cnt := c |} -> - 2 ^ 31 < c < 2 ^ 31.

(** Two sessions that differ at most in their epoch table. *)
Definition same_but_epochs (s s' : gnutls_session) : Prop :=
  entity s' = entity s /\ resumed s' = resumed s /\ hsk_mtu s' = hsk_mtu s
  /\ retrans_timeout s' = retrans_timeout s
  /\ dtls_total_timeout s' = dtls_total_timeout s
  /\ handshake_send_buffer s' = handshake_send_buffer s.

Definition is_wait (e : event) : bool :=
  match e with EvCheckRecv _ _ => true | _ => false end.

(** The number of bounded waits in a history. *)
Definition waits (tr : list event) : nat := length (List.filter is_wait tr).

Section FlightVocabulary.

Context {K : gnutls_h}.

(** The bytes of the record that carries fragment [k] of [bufel]. *)
Definition fragment_record (bufel : mbuffer_st) (M : Z) (k : nat) : list byte :=
  let L := Z.of_nat (length (udata bufel)) in
  fragment_header bufel L (Z.of_nat k * M) (frag_len_at L M k)
    ++ fragment_payload (udata bufel) (Z.of_nat k * M) (frag_len_at L M k).

(** The calls one buffered message gives rise to when nothing fails. *)
Definition message_events (s : gnutls_session) (m : mbuffer_st) : list event :=
  if htype m =? GNUTLS_HANDSHAKE_CHANGE_CIPHER_SPEC then
    [EvSend GNUTLS_CHANGE_CIPHER_SPEC (-1) (epoch m) (uhead m)]
  else
    [EvMalloc (wrap32 (hsk_mtu s + DTLS_HANDSHAKE_HEADER_SIZE))]
      ++ map (fragment_event m (hsk_mtu s))
             (seq 0 (S (Z.to_nat (Z.of_nat (length (udata m)) / hsk_mtu s))))
      ++ [EvFree].

(** The calls one pass over the flight gives rise to when nothing fails. *)
Definition flight_events (s : gnutls_session) (buf : list mbuffer_st) : list event :=
  concat (map (message_events s) buf).

(** What one call of [transmit_message] for [m] leaves in the history:
    for a Change-Cipher-Spec message the one write; for any other the
    allocation alone, when it failed, or the allocation, the writes of
    the fragments [0 .. n-1] for some [n] from 1 to the number of
    fragments, and the release of the buffer. *)
Definition message_attempt (s : gnutls_session) (m : mbuffer_st)
    (evs : list event) : Prop :=
  if htype m =? GNUTLS_HANDSHAKE_CHANGE_CIPHER_SPEC then
    evs = [EvSend GNUTLS_CHANGE_CIPHER_SPEC (-1) (epoch m) (uhead m)]
  else
    let size := wrap32 (hsk_mtu s + DTLS_HANDSHAKE_HEADER_SIZE) in
    evs = [EvMalloc size]
    \/ exists n : nat,
         (1 <= n <= S (Z.to_nat (Z.of_nat (length (udata m)) / hsk_mtu s)))%nat
         /\ evs = [EvMalloc size]
                    ++ map (fragment_event m (hsk_mtu s)) (seq 0 n) ++ [EvFree].

(** One transmission attempt of the whole flight: an attempt of every
    buffered message, in buffer order. *)
Definition flight_attempt (s : gnutls_session) (buf : list mbuffer_st)
    (evs : list event) : Prop :=
  exists parts, Forall2 (message_attempt s) buf parts /\ evs = concat parts.

(** No allocation and no write fails. *)
Definition nothing_fails (env : collaborators) : Prop :=
  (forall tr sz, malloc_ok env tr sz = true)
  /\ (forall tr ty ht ep d, 0 <= send_result env tr ty ht ep d).

(** The value of [ret] after the waiting step, lines 170-190, from the
    answer of the receiver; [special] is the test of line 170. *)
Definition wait_code (special : bool) (answer : Z * byte) : Z :=
  if special then
    if fst answer =? GNUTLS_E_TIMEDOUT then 0
    else if (fst answer >=? 0) && (Z_of_byte (snd answer) =? GNUTLS_HANDSHAKE)
         then GNUTLS_E_TIMEDOUT else fst answer
  else fst answer.

(** One pass of an unanswered flight: a transmission attempt of the
    flight, the flush, and the wait with no data required. *)
Definition unanswered_pass (env : collaborators) (s : gnutls_session)
    (p : list event) : Prop :=
  exists evs,
    flight_attempt s (handshake_send_buffer s) evs
    /\ (nothing_fails env -> evs = flight_events s (handshake_send_buffer s))
    /\ p = evs ++ [EvFlush; EvCheckRecv 0 (retrans_timeout s)].

End FlightVocabulary.

(** A record layer that accepts the first [n] writes and fails every
    later one with the push error. *)
Definition fails_after (n : nat) : collaborators :=
  {| malloc_ok := fun _ _ => true;
     send_result := fun tr _ _ _ d =>
       if (length (sends tr) <? n)%nat then Z.of_nat (length d) else -53;
     flush_result := fun _ => 0;
     recv_result := fun _ _ _ => (0, "000"%byte) |}.

(** A receiver with nothing to deliver that does not block: every wait
    fails at once with the interrupted-call error, -52. *)
Definition failing_receiver : collaborators :=
  {| malloc_ok := fun _ _ => true;
     send_result := fun _ _ _ _ d => Z.of_nat (length d);
     flush_result := fun _ => 0;
     recv_result := fun _ _ _ => (-52, "000"%byte) |}.

(** A whole flight of a client: two ordinary messages, the
    Change-Cipher-Spec and the Finished, on epoch 0. *)
Definition client_flight : list mbuffer_st :=
  [client_hello; key_exchange; change_cipher_spec;
   {| htype := 20; sequence := 3; epoch := 0; uhead := []; udata := ["042"%byte] |}].

Definition client_flight_session : gnutls_session :=
  a_session GNUTLS_CLIENT 1000 60000 client_flight 4.

(** A retransmission interval of 0 with a positive total timeout. *)
Definition zero_interval_session : gnutls_session :=
  a_session GNUTLS_CLIENT 0 1 [client_hello] 1.

(** A server of a fresh handshake about to send its Finished, with the
    retransmission interval equal to the total timeout. *)
Definition server_finished_deadline_session : gnutls_session :=
  a_session GNUTLS_SERVER 1000 1000 [finished] 1.

(** A peer that answers every wait with one byte of a handshake
    record: it has not seen the flight and sends its own again. *)
Definition resending_peer : collaborators :=
  {| malloc_ok := fun _ _ => true;
     send_result := fun _ _ _ _ d => Z.of_nat (length d);
     flush_result := fun _ => 0;
     recv_result := fun _ _ _ => (1, "022"%byte) |}.

(** * TPM keys (lib/tpm.c)

    [tpm_deinit_fn], [tpm_sign_fn], [gnutls_privkey_import_tpm_raw] and
    [gnutls_tpm_privkey_generate].  The TSS stack and
    the parts of the library they call are collaborators: each call is
    recorded with its arguments, and what it returns and writes through
    its output parameters is the answer of an oracle that sees the calls
    made so far.  Handles and pointers are numbers; 0 is [NULL].
    Diagnostics are left out. *)

Module Tpm.

(** The constants of the TSS headers and of the library's headers that
    the two functions use; none of these headers is among the sources. *)
Class tss_h := {
  GNUTLS_E_PK_SIGN_FAILED : Z;
  GNUTLS_E_INSUFFICIENT_CREDENTIALS : Z;
  GNUTLS_E_TPM_ERROR : Z;
  GNUTLS_E_TPM_SRK_PASSWORD_ERROR : Z;
  GNUTLS_E_TPM_KEY_PASSWORD_ERROR : Z;
  GNUTLS_X509_FMT_PEM : Z;
  GNUTLS_TPM_SIG_PKCS1V15_SHA1 : Z;
  TPM_E_AUTHFAIL : Z;
  TSS_OBJECT_TYPE_HASH : Z;
  TSS_HASH_OTHER : Z;
  TSS_OBJECT_TYPE_RSAKEY : Z;
  TSS_OBJECT_TYPE_POLICY : Z;
  TSS_KEY_TYPE_LEGACY : Z;
  TSS_KEY_VOLATILE : Z;
  TSS_KEY_SIZE_512 : Z;
  TSS_KEY_SIZE_1024 : Z;
  TSS_KEY_SIZE_2048 : Z;
  TSS_KEY_SIZE_4096 : Z;
  TSS_KEY_SIZE_8192 : Z;
  TSS_KEY_SIZE_16384 : Z;
  TSS_SS_RSASSAPKCS1V15_SHA1 : Z;
  TSS_SS_RSASSAPKCS1V15_DER : Z;
  TSS_TSPATTRIB_KEY_INFO : Z;
  TSS_TSPATTRIB_KEYINFO_SIGSCHEME : Z;
  TSS_PS_TYPE_SYSTEM : Z;
  TSS_POLICY_USAGE : Z;
  TSS_SECRET_MODE_SHA1 : Z;
  TSS_SECRET_MODE_PLAIN : Z;
  TSS_TSPATTRIB_KEY_BLOB : Z;
  TSS_TSPATTRIB_KEYBLOB_BLOB : Z;
  TSS_TSPATTRIB_RSAKEY_INFO : Z;
  TSS_TSPATTRIB_KEYINFO_RSA_MODULUS : Z;
  TSS_TSPATTRIB_KEYINFO_RSA_EXPONENT : Z;
  sizeof_tpm_ctx_st : Z
}.

(** [struct tpm_ctx_st]. *)
Record tpm_ctx_st := {
  tpm_context : Z;
  tpm_key : Z;
  tpm_key_policy : Z;
  srk : Z;
  srk_policy : Z
}.

(** [gnutls_datum_t]: the address of the bytes and their number. *)
Record gnutls_datum_t := { data : Z; size : Z }.

(** The calls the two functions make, with the arguments they pass.
    The key loaded by UUID is always the storage root key, and the
    header given to the base64 encoder and decoder is always
    "TSS KEY BLOB".  [gnutls_privkey_import_ext2] is always called for
    an RSA key with [tpm_sign_fn] and [tpm_deinit_fn] as the callbacks,
    [gnutls_privkey_sign_data] always with SHA-1 and no flags. *)
Inductive call :=
| Tspi_Context_Create
| Tspi_Context_Connect (ctx : Z)
| Tspi_Context_CreateObject (ctx type flags : Z)
| Tspi_Context_CloseObject (ctx obj : Z)
| Tspi_Context_Close (ctx : Z)
| Tspi_Context_FreeMemory (ctx mem : Z)
| Tspi_Context_LoadKeyByUUID (ctx ps_type : Z)
| Tspi_Context_LoadKeyByBlob (ctx wrapping blob_size blob : Z)
| Tspi_Policy_AssignToObject (policy obj : Z)
| gnutls_pem_base64_decode_alloc (input input_size : Z)
| _gnutls_x509_decode_octet_string (input input_size output output_size : Z)
| gnutls_privkey_import_ext2 (pkey userdata : Z)
| gnutls_privkey_sign_data (pkey input input_size : Z)
| Tspi_Hash_SetHashValue (hash : Z) (value : list byte)
| Tspi_Hash_Sign (hash key : Z)
| Tspi_SetAttribUint32 (obj flag subflag value : Z)
| Tspi_GetPolicyObject (obj type : Z)
| Tspi_Policy_SetSecret (policy mode : Z) (secret : list byte)
| Tspi_Key_CreateKey (key wrapping pcr : Z)
| Tspi_GetAttribData (obj flag subflag : Z)
| _gnutls_x509_encode_octet_string (input input_size : Z)
| _gnutls_fbase64_encode (input input_size : Z)
| gnutls_pubkey_init
| gnutls_pubkey_import_rsa_raw (pub m_data m_size e_data e_size : Z)
| gnutls_malloc (n : Z)
| gnutls_pubkey_export (pub format buf buf_size : Z)
| gnutls_pubkey_deinit (pub : Z)
| gnutls_free (p : Z).

(** What a call returns and what it writes through its output
    parameters: a handle or an address in [out], a size in [out_size]. *)
Record answer := { ret : Z; out : Z; out_size : Z }.

Definition oracle : Type := list call -> call -> answer.

Definition tpm (A : Type) : Type := list call -> A * list call.

Definition tpm_ret {A} (a : A) : tpm A := fun tr => (a, tr).

Definition tpm_bind {A B} (m : tpm A) (k : A -> tpm B) : tpm B :=
  fun tr => let '(a, tr') := m tr in k a tr'.

Declare Scope tpm_scope.
Delimit Scope tpm_scope with tpm.
Notation "x <- m ;; k" := (tpm_bind m (fun x => k))
  (at level 100, m at next level, right associativity) : tpm_scope.
Notation "m ;;; k" := (tpm_bind m (fun _ => k))
  (at level 100, right associativity) : tpm_scope.

Definition is_close (c : call) : bool :=
  match c with Tspi_Context_Close _ => true | _ => false end.

Definition is_close_object (c : call) : bool :=
  match c with Tspi_Context_CloseObject _ _ => true | _ => false end.

Definition is_deinit (c : call) : bool :=
  match c with gnutls_pubkey_deinit _ => true | _ => false end.

Definition is_pubkey_init (c : call) : bool :=
  match c with gnutls_pubkey_init => true | _ => false end.

Definition is_create (c : call) : bool :=
  match c with Tspi_Context_Create => true | _ => false end.

Definition is_create_object (c : call) : bool :=
  match c with Tspi_Context_CreateObject _ _ _ => true | _ => false end.

Definition is_key_creation (c : call) : bool :=
  match c with Tspi_Key_CreateKey _ _ _ => true | _ => false end.

Definition count (p : call -> bool) (tr : list call) : nat :=
  length (List.filter p tr).

(** The addresses handed to [gnutls_free], in the order of the calls. *)
Fixpoint frees (tr : list call) : list Z :=
  match tr with
  | [] => []
  | gnutls_free p :: rest => p :: frees rest
  | _ :: rest => frees rest
  end.

(** The public-key objects handed to [gnutls_pubkey_deinit], in order. *)
Fixpoint deinits (tr : list call) : list Z :=
  match tr with
  | [] => []
  | gnutls_pubkey_deinit p :: rest => p :: deinits rest
  | _ :: rest => deinits rest
  end.

(** What the oracle answered, in [out], to those calls of [new] that
    satisfy [p], when [new] is made after the history [tr]. *)
Fixpoint answers_to (tss : oracle) (p : call -> bool) (tr new : list call) : list Z :=
  match new with
  | [] => []
  | c :: rest =>
      (if p c then [out (tss tr c)] else []) ++ answers_to tss p (tr ++ [c]) rest
  end.

(** The calls of [new], made after the history [tr], each with the
    answer it got. *)
Fixpoint replies (tss : oracle) (tr new : list call) : list (call * answer) :=
  match new with
  | [] => []
  | c :: rest => (c, tss tr c) :: replies tss (tr ++ [c]) rest
  end.

Definition is_malloc (c : call) : bool :=
  match c with gnutls_malloc _ => true | _ => false end.

(** [static const unsigned char nullpass[20]]. *)
Definition nullpass : list byte := repeat "000"%byte 20.

Section Functions.

Context {K : gnutls_h} {T : tss_h} (tss : oracle).

Definition ask (c : call) : tpm answer :=
  fun tr => (tss tr c, tr ++ [c]).

(** *** tpm_deinit_fn

    [s_ptr] is the address of the structure, [s] its content. *)

Definition tpm_deinit_fn (s_ptr : Z) (s : tpm_ctx_st) : tpm unit :=
  (ask (Tspi_Context_CloseObject (tpm_context s) (tpm_key_policy s)) ;;;
   ask (Tspi_Context_CloseObject (tpm_context s) (tpm_key s)) ;;;
   ask (Tspi_Context_CloseObject (tpm_context s) (srk_policy s)) ;;;
   ask (Tspi_Context_CloseObject (tpm_context s) (srk s)) ;;;
   ask (Tspi_Context_Close (tpm_context s)) ;;;
   ask (gnutls_free s_ptr) ;;;
   tpm_ret tt)%tpm.

(** *** tpm_sign_fn

    The signature is written by [Tspi_Hash_Sign] through [sig]; the
    function itself does not touch it, and hands back only the code. *)

Definition tpm_sign_fn (s : tpm_ctx_st) (value : list byte) : tpm Z :=
  (a <- ask (Tspi_Context_CreateObject (tpm_context s)
               TSS_OBJECT_TYPE_HASH TSS_HASH_OTHER) ;;
   let hash := out a in
   if negb (ret a =? 0) then tpm_ret GNUTLS_E_PK_SIGN_FAILED
   else
     a <- ask (Tspi_Hash_SetHashValue hash value) ;;
     if negb (ret a =? 0) then
       ask (Tspi_Context_CloseObject (tpm_context s) hash) ;;;
       tpm_ret GNUTLS_E_PK_SIGN_FAILED
     else
       a <- ask (Tspi_Hash_Sign hash (tpm_key s)) ;;
       ask (Tspi_Context_CloseObject (tpm_context s) hash) ;;;
       if negb (ret a =? 0) then
         if ret a =? TPM_E_AUTHFAIL
         then tpm_ret GNUTLS_E_INSUFFICIENT_CREDENTIALS
         else tpm_ret GNUTLS_E_PK_SIGN_FAILED
       else tpm_ret 0)%tpm.

(** *** gnutls_privkey_import_tpm_raw

    The function returns a code, [Some r], or its behaviour is
    undefined, [None]: it takes [strlen (key_password)] without a test
    for [NULL].  An absent password is [None].

    The structure [s] comes from [gnutls_malloc] and is not
    initialised.  The function reads [s->tpm_key_policy] without having
    written it; what it finds there is part of the answer to the
    allocation, its [out_size].  The fields of [s] are followed as the
    values the function itself had written to them; the stores of 0 to
    the fields on the way out, just before [s] is freed, are left
    out. *)

(** From the label [out_blob]; [blob] is [asn1.data]. *)
Definition out_blob (blob : Z) (r : Z) : tpm (option Z) :=
  (ask (gnutls_free blob) ;;; tpm_ret (Some r))%tpm.

(** From the label [out_ctx]. *)
Definition out_ctx (s_ptr blob : Z) (r : Z) : tpm (option Z) :=
  (ask (gnutls_free s_ptr) ;;; out_blob blob r)%tpm.

(** From the label [out_tspi_ctx]. *)
Definition out_tspi_ctx (ctx s_ptr blob : Z) (r : Z) : tpm (option Z) :=
  (ask (Tspi_Context_Close ctx) ;;; out_ctx s_ptr blob r)%tpm.

(** From the label [out_srk]. *)
Definition out_srk (ctx srk_ctx s_ptr blob : Z) (r : Z) : tpm (option Z) :=
  (ask (Tspi_Context_CloseObject ctx srk_ctx) ;;; out_tspi_ctx ctx s_ptr blob r)%tpm.

(** From the label [out_srkpol]. *)
Definition out_srkpol (ctx srk_pol srk_ctx s_ptr blob : Z) (r : Z) : tpm (option Z) :=
  (ask (Tspi_Context_CloseObject ctx srk_pol) ;;;
   out_srk ctx srk_ctx s_ptr blob r)%tpm.

(** From the label [out_key]. *)
Definition out_key (ctx key srk_pol srk_ctx s_ptr blob : Z) (r : Z) : tpm (option Z) :=
  (ask (Tspi_Context_CloseObject ctx key) ;;;
   out_srkpol ctx srk_pol srk_ctx s_ptr blob r)%tpm.

(** From the label [out_key_policy]. *)
Definition out_key_policy (ctx key_pol key srk_pol srk_ctx s_ptr blob : Z) (r : Z)
  : tpm (option Z) :=
  (ask (Tspi_Context_CloseObject ctx key_pol) ;;;
   out_key ctx key srk_pol srk_ctx s_ptr blob r)%tpm.

(** The setting of the key PIN and the successful end, lines 297-321. *)
Definition set_key_pin (key_password : option (list byte))
    (ctx key_pol key srk_pol srk_ctx s_ptr blob : Z) : tpm (option Z) :=
  match key_password with
  | None => tpm_ret None
  | Some pw =>
      (a <- ask (Tspi_Policy_SetSecret key_pol TSS_SECRET_MODE_PLAIN pw) ;;
       if negb (ret a =? 0) then
         out_key_policy ctx key_pol key srk_pol srk_ctx s_ptr blob
           GNUTLS_E_TPM_KEY_PASSWORD_ERROR
       else
         ask (gnutls_free blob) ;;; tpm_ret (Some 0))%tpm
  end.

(** From the trial signature on, lines 267-321. *)
Definition try_the_key (pkey : Z) (fdata : gnutls_datum_t)
    (key_password : option (list byte))
    (ctx uninitialised_policy key srk_pol srk_ctx s_ptr blob : Z) : tpm (option Z) :=
  (a <- ask (gnutls_privkey_sign_data pkey (data fdata) (size fdata)) ;;
   if ret a =? GNUTLS_E_INSUFFICIENT_CREDENTIALS then
     if uninitialised_policy =? 0 then
       a <- ask (Tspi_Context_CreateObject ctx TSS_OBJECT_TYPE_POLICY
                   TSS_POLICY_USAGE) ;;
       let key_pol := out a in
       if negb (ret a =? 0) then
         out_key ctx key srk_pol srk_ctx s_ptr blob GNUTLS_E_TPM_ERROR
       else
         a <- ask (Tspi_Policy_AssignToObject key_pol key) ;;
         if negb (ret a =? 0) then
           out_key_policy ctx key_pol key srk_pol srk_ctx s_ptr blob GNUTLS_E_TPM_ERROR
         else set_key_pin key_password ctx key_pol key srk_pol srk_ctx s_ptr blob
     else
       set_key_pin key_password ctx uninitialised_policy key srk_pol srk_ctx s_ptr blob
   else if ret a <? 0 then out_blob blob (ret a)
   else ask (gnutls_free blob) ;;; tpm_ret (Some 0))%tpm.

Definition gnutls_privkey_import_tpm_raw (pkey : Z) (fdata : gnutls_datum_t)
    (format : Z) (srk_password key_password : option (list byte)) : tpm (option Z) :=
  (a <- ask (gnutls_pem_base64_decode_alloc (data fdata) (size fdata)) ;;
   let asn1 := {| data := out a; size := out_size a |} in
   if negb (ret a =? 0) then tpm_ret (Some (ret a))
   else
     a <- ask (_gnutls_x509_decode_octet_string (data asn1) (size asn1)
                 (data asn1) (size asn1)) ;;
     if ret a <? 0 then out_blob (data asn1) (ret a)
     else
       let asn1 := {| data := data asn1; size := wrap32 (out_size a) |} in
       a <- ask (gnutls_malloc sizeof_tpm_ctx_st) ;;
       let s_ptr := out a in
       let uninitialised_policy := out_size a in
       if s_ptr =? 0 then out_blob (data asn1) GNUTLS_E_MEMORY_ERROR
       else
         a <- ask Tspi_Context_Create ;;
         let ctx := out a in
         if negb (ret a =? 0) then out_ctx s_ptr (data asn1) GNUTLS_E_TPM_ERROR
         else
           a <- ask (Tspi_Context_Connect ctx) ;;
           if negb (ret a =? 0) then
             out_tspi_ctx ctx s_ptr (data asn1) GNUTLS_E_TPM_ERROR
           else
             a <- ask (Tspi_Context_LoadKeyByUUID ctx TSS_PS_TYPE_SYSTEM) ;;
             let srk_ctx := out a in
             if negb (ret a =? 0) then
               out_tspi_ctx ctx s_ptr (data asn1) GNUTLS_E_TPM_ERROR
             else
               a <- ask (Tspi_GetPolicyObject srk_ctx TSS_POLICY_USAGE) ;;
               let srk_pol := out a in
               if negb (ret a =? 0) then
                 out_srk ctx srk_ctx s_ptr (data asn1) GNUTLS_E_TPM_ERROR
               else
                 a <- ask (match srk_password with
                           | Some pw => Tspi_Policy_SetSecret srk_pol
                                          TSS_SECRET_MODE_PLAIN pw
                           | None => Tspi_Policy_SetSecret srk_pol
                                       TSS_SECRET_MODE_SHA1 nullpass
                           end) ;;
                 if negb (ret a =? 0) then
                   out_srkpol ctx srk_pol srk_ctx s_ptr (data asn1) GNUTLS_E_TPM_ERROR
                 else
                   a <- ask (Tspi_Context_LoadKeyByBlob ctx srk_ctx
                               (size asn1) (data asn1)) ;;
                   let key := out a in
                   if negb (ret a =? 0) then
                     out_srkpol ctx srk_pol srk_ctx s_ptr (data asn1)
                       (if negb (ret a =? TPM_E_AUTHFAIL) then GNUTLS_E_TPM_ERROR
                        else GNUTLS_E_TPM_SRK_PASSWORD_ERROR)
                   else
                     a <- ask (gnutls_privkey_import_ext2 pkey s_ptr) ;;
                     if ret a <? 0 then
                       out_srkpol ctx srk_pol srk_ctx s_ptr (data asn1) (ret a)
                     else
                       try_the_key pkey fdata key_password ctx uninitialised_policy
                         key srk_pol srk_ctx s_ptr (data asn1))%tpm.

(** *** gnutls_tpm_privkey_generate *)

(** What the function hands back: the returned code and the two output
    parameters. *)
Record generated := {
  code : Z;
  privkey : gnutls_datum_t;
  pubkey : gnutls_datum_t
}.

(** The [switch] on [bits]. *)
Definition key_size_flag (bits : Z) : option Z :=
  match bits with
  | 512 => Some TSS_KEY_SIZE_512
  | 1024 => Some TSS_KEY_SIZE_1024
  | 2048 => Some TSS_KEY_SIZE_2048
  | 4096 => Some TSS_KEY_SIZE_4096
  | 8192 => Some TSS_KEY_SIZE_8192
  | 16384 => Some TSS_KEY_SIZE_16384
  | _ => None
  end.

(** From the label [err_cc]. *)
Definition err_cc (ctx : Z) (r : Z) (priv pub_out : gnutls_datum_t) : tpm generated :=
  (ask (Tspi_Context_Close ctx) ;;;
   tpm_ret {| code := r; privkey := priv; pubkey := pub_out |})%tpm.

(** From the label [err_sa]. *)
Definition err_sa (ctx key_ctx : Z) (r : Z) (priv pub_out : gnutls_datum_t)
  : tpm generated :=
  (ask (Tspi_Context_CloseObject ctx key_ctx) ;;;
   err_cc ctx r priv pub_out)%tpm.

(** From the label [cleanup]; [tmpkey_data] is [tmpkey.data]. *)
Definition cleanup (ctx key_ctx tmpkey_data : Z) (r : Z)
    (priv pub_out : gnutls_datum_t) : tpm generated :=
  (ask (gnutls_free tmpkey_data) ;;;
   err_sa ctx key_ctx r priv pub_out)%tpm.

(** From the label [privkey_cleanup]. *)
Definition privkey_cleanup (ctx key_ctx tmpkey_data : Z) (r : Z)
    (priv pub_out : gnutls_datum_t) : tpm generated :=
  (ask (gnutls_free (data priv)) ;;;
   cleanup ctx key_ctx tmpkey_data r {| data := 0; size := size priv |} pub_out)%tpm.

(** From the label [pubkey_cleanup]. *)
Definition pubkey_cleanup (ctx key_ctx tmpkey_data pub : Z) (r : Z)
    (priv pub_out : gnutls_datum_t) : tpm generated :=
  (ask (gnutls_pubkey_deinit pub) ;;;
   privkey_cleanup ctx key_ctx tmpkey_data r priv pub_out)%tpm.

(** The block that exports the public key, lines 552-616. *)
Definition export_public_key (ctx key_ctx tmpkey_data : Z) (format : Z)
    (priv pub_out : gnutls_datum_t) : tpm generated :=
  (a <- ask gnutls_pubkey_init ;;
   let pub := out a in
   if ret a <? 0 then privkey_cleanup ctx key_ctx tmpkey_data (ret a) priv pub_out
   else
     a <- ask (Tspi_GetAttribData key_ctx TSS_TSPATTRIB_RSAKEY_INFO
                 TSS_TSPATTRIB_KEYINFO_RSA_MODULUS) ;;
     if negb (ret a =? 0) then
       pubkey_cleanup ctx key_ctx tmpkey_data pub GNUTLS_E_TPM_ERROR priv pub_out
     else
       let m := {| data := out a; size := out_size a |} in
       a <- ask (Tspi_GetAttribData key_ctx TSS_TSPATTRIB_RSAKEY_INFO
                   TSS_TSPATTRIB_KEYINFO_RSA_EXPONENT) ;;
       if negb (ret a =? 0) then
         ask (Tspi_Context_FreeMemory key_ctx (data m)) ;;;
         pubkey_cleanup ctx key_ctx tmpkey_data pub GNUTLS_E_TPM_ERROR priv pub_out
       else
         let e := {| data := out a; size := out_size a |} in
         a <- ask (gnutls_pubkey_import_rsa_raw pub (data m) (size m) (data e) (size e)) ;;
         if ret a <? 0 then
           pubkey_cleanup ctx key_ctx tmpkey_data pub (ret a) priv pub_out
         else
           let psize := wrap32 (size e + size m + 512) in
           a <- ask (gnutls_malloc psize) ;;
           let pub_out := {| data := out a; size := size pub_out |} in
           if data pub_out =? 0 then
             pubkey_cleanup ctx key_ctx tmpkey_data pub GNUTLS_E_MEMORY_ERROR priv pub_out
           else
             a <- ask (gnutls_pubkey_export pub format (data pub_out) psize) ;;
             if ret a <? 0 then
               pubkey_cleanup ctx key_ctx tmpkey_data pub (ret a) priv pub_out
             else
               let pub_out := {| data := data pub_out; size := wrap32 (out_size a) |} in
               ask (gnutls_pubkey_deinit pub) ;;;
               cleanup ctx key_ctx tmpkey_data 0 priv pub_out)%tpm.

(** The part from the creation of the key to the private key blob,
    lines 509-550. *)
Definition create_and_wrap_key (ctx key_ctx srk_ctx : Z) (format : Z)
    (priv pub_out : gnutls_datum_t) : tpm generated :=
  (a <- ask (Tspi_Key_CreateKey key_ctx srk_ctx 0) ;;
   if negb (ret a =? 0) then
     err_sa ctx key_ctx
       (if ret a =? TPM_E_AUTHFAIL then GNUTLS_E_TPM_SRK_PASSWORD_ERROR
        else GNUTLS_E_TPM_ERROR) priv pub_out
   else
     a <- ask (Tspi_GetAttribData key_ctx TSS_TSPATTRIB_KEY_BLOB
                 TSS_TSPATTRIB_KEYBLOB_BLOB) ;;
     if negb (ret a =? 0) then err_sa ctx key_ctx GNUTLS_E_TPM_ERROR priv pub_out
     else
       a <- ask (_gnutls_x509_encode_octet_string (out a) (out_size a)) ;;
       let tmpkey := {| data := out a; size := out_size a |} in
       if ret a <? 0 then cleanup ctx key_ctx (data tmpkey) (ret a) priv pub_out
       else if format =? GNUTLS_X509_FMT_PEM then
         a <- ask (_gnutls_fbase64_encode (data tmpkey) (size tmpkey)) ;;
         let priv := {| data := out a; size := out_size a |} in
         if ret a <? 0 then cleanup ctx key_ctx (data tmpkey) (ret a) priv pub_out
         else export_public_key ctx key_ctx (data tmpkey) format priv pub_out
       else
         export_public_key ctx key_ctx 0 format
           {| data := data tmpkey; size := size tmpkey |} pub_out)%tpm.

Definition gnutls_tpm_privkey_generate (pk bits : Z)
    (srk_password key_password : option (list byte)) (format : Z)
    (priv pub_out : gnutls_datum_t) (flags : Z) : tpm generated :=
  match key_size_flag bits with
  | None =>
      tpm_ret {| code := GNUTLS_E_INVALID_REQUEST; privkey := priv; pubkey := pub_out |}
  | Some size_flag =>
    let tpm_flags := Z.lor (Z.lor TSS_KEY_TYPE_LEGACY TSS_KEY_VOLATILE) size_flag in
    (a <- ask Tspi_Context_Create ;;
     let ctx := out a in
     if negb (ret a =? 0) then
       tpm_ret {| code := GNUTLS_E_TPM_ERROR; privkey := priv; pubkey := pub_out |}
     else
       a <- ask (Tspi_Context_Connect ctx) ;;
       if negb (ret a =? 0) then err_cc ctx GNUTLS_E_TPM_ERROR priv pub_out
       else
         a <- ask (Tspi_Context_CreateObject ctx TSS_OBJECT_TYPE_RSAKEY tpm_flags) ;;
         let key_ctx := out a in
         if negb (ret a =? 0) then err_cc ctx GNUTLS_E_TPM_ERROR priv pub_out
         else
           let sig := if negb (Z.land flags GNUTLS_TPM_SIG_PKCS1V15_SHA1 =? 0)
                      then TSS_SS_RSASSAPKCS1V15_SHA1
                      else TSS_SS_RSASSAPKCS1V15_DER in
           a <- ask (Tspi_SetAttribUint32 key_ctx TSS_TSPATTRIB_KEY_INFO
                       TSS_TSPATTRIB_KEYINFO_SIGSCHEME sig) ;;
           if negb (ret a =? 0) then err_sa ctx key_ctx GNUTLS_E_TPM_ERROR priv pub_out
           else
             a <- ask (Tspi_Context_LoadKeyByUUID ctx TSS_PS_TYPE_SYSTEM) ;;
             let srk_ctx := out a in
             if negb (ret a =? 0) then err_sa ctx key_ctx GNUTLS_E_TPM_ERROR priv pub_out
             else
               a <- ask (Tspi_GetPolicyObject srk_ctx TSS_POLICY_USAGE) ;;
               let srk_policy := out a in
               if negb (ret a =? 0) then
                 err_sa ctx key_ctx GNUTLS_E_TPM_ERROR priv pub_out
               else
                 a <- ask (match srk_password with
                           | None => Tspi_Policy_SetSecret srk_policy
                                       TSS_SECRET_MODE_SHA1 nullpass
                           | Some pw => Tspi_Policy_SetSecret srk_policy
                                          TSS_SECRET_MODE_PLAIN pw
                           end) ;;
                 if negb (ret a =? 0) then
                   err_sa ctx key_ctx GNUTLS_E_TPM_SRK_PASSWORD_ERROR priv pub_out
                 else
                   match key_password with
                   | Some pw =>
                     a <- ask (Tspi_GetPolicyObject key_ctx TSS_POLICY_USAGE) ;;
                     let key_policy := out a in
                     if negb (ret a =? 0) then
                       err_sa ctx key_ctx GNUTLS_E_TPM_ERROR priv pub_out
                     else
                       a <- ask (Tspi_Policy_SetSecret key_policy
                                   TSS_SECRET_MODE_PLAIN pw) ;;
                       if negb (ret a =? 0) then
                         err_sa ctx key_ctx GNUTLS_E_TPM_ERROR priv pub_out
                       else create_and_wrap_key ctx key_ctx srk_ctx format priv pub_out
                   | None => create_and_wrap_key ctx key_ctx srk_ctx format priv pub_out
                   end)%tpm
  end.

End Functions.

(** Values for the constants, for the runs on concrete inputs. *)
Definition sample_values : tss_h :=
  {| GNUTLS_E_PK_SIGN_FAILED := -46;
     GNUTLS_E_INSUFFICIENT_CREDENTIALS := -32;
     GNUTLS_E_TPM_ERROR := -329;
     GNUTLS_E_TPM_SRK_PASSWORD_ERROR := -331;
     GNUTLS_E_TPM_KEY_PASSWORD_ERROR := -330;
     GNUTLS_X509_FMT_PEM := 1;
     GNUTLS_TPM_SIG_PKCS1V15_SHA1 := 2;
     TPM_E_AUTHFAIL := 1;
     TSS_OBJECT_TYPE_HASH := 5;
     TSS_HASH_OTHER := 4294967295;
     TSS_OBJECT_TYPE_RSAKEY := 2;
     TSS_OBJECT_TYPE_POLICY := 1;
     TSS_KEY_TYPE_LEGACY := 96;
     TSS_KEY_VOLATILE := 4;
     TSS_KEY_SIZE_512 := 256;
     TSS_KEY_SIZE_1024 := 512;
     TSS_KEY_SIZE_2048 := 768;
     TSS_KEY_SIZE_4096 := 1024;
     TSS_KEY_SIZE_8192 := 1280;
     TSS_KEY_SIZE_16384 := 1536;
     TSS_SS_RSASSAPKCS1V15_SHA1 := 17;
     TSS_SS_RSASSAPKCS1V15_DER := 18;
     TSS_TSPATTRIB_KEY_INFO := 128;
     TSS_TSPATTRIB_KEYINFO_SIGSCHEME := 1024;
     TSS_PS_TYPE_SYSTEM := 2;
     TSS_POLICY_USAGE := 1;
     TSS_SECRET_MODE_SHA1 := 4096;
     TSS_SECRET_MODE_PLAIN := 6144;
     TSS_TSPATTRIB_KEY_BLOB := 64;
     TSS_TSPATTRIB_KEYBLOB_BLOB := 8;
     TSS_TSPATTRIB_RSAKEY_INFO := 320;
     TSS_TSPATTRIB_KEYINFO_RSA_MODULUS := 12288;
     TSS_TSPATTRIB_KEYINFO_RSA_EXPONENT := 8192;
     sizeof_tpm_ctx_st := 20 |}.

(** A TPM and a library where every call succeeds; each call hands out
    a fresh handle or address, and 4 as the size. *)
Definition willing : oracle :=
  fun tr _ => {| ret := 0; out := Z.of_nat (length tr) + 1; out_size := 4 |}.

(** The same, except that signing fails with [TPM_E_AUTHFAIL]. *)
Definition unauthorised : oracle :=
  fun tr c =>
    match c with
    | Tspi_Hash_Sign _ _ => {| ret := 1; out := 0; out_size := 0 |}
    | _ => {| ret := 0; out := Z.of_nat (length tr) + 1; out_size := 4 |}
    end.

(** The same as [willing], except that the export of the public key
    fails with the short-buffer error, -51. *)
Definition failing_export : oracle :=
  fun tr c =>
    match c with
    | gnutls_pubkey_export _ _ _ _ => {| ret := -51; out := 0; out_size := 0 |}
    | _ => {| ret := 0; out := Z.of_nat (length tr) + 1; out_size := 4 |}
    end.

(** The same as [willing], except that the trial signature reports
    missing credentials, -32, and that the PIN of the key is refused. *)
Definition locked_key : oracle :=
  fun tr c =>
    match c with
    | gnutls_privkey_sign_data _ _ _ => {| ret := -32; out := 0; out_size := 0 |}
    | Tspi_Policy_SetSecret _ 6144 _ => {| ret := 1; out := 0; out_size := 0 |}
    | _ => {| ret := 0; out := Z.of_nat (length tr) + 1; out_size := 0 |}
    end.

(** The same as [willing], except that the library refuses to take the
    key over, with the invalid-request error, -50. *)
Definition refused_import : oracle :=
  fun tr c =>
    match c with
    | gnutls_privkey_import_ext2 _ _ => {| ret := -50; out := 0; out_size := 0 |}
    | _ => {| ret := 0; out := Z.of_nat (length tr) + 1; out_size := 4 |}
    end.

(** The same as [willing], except that the trial signature fails with
    the signing error, -46. *)
Definition failing_trial : oracle :=
  fun tr c =>
    match c with
    | gnutls_privkey_sign_data _ _ _ => {| ret := -46; out := 0; out_size := 0 |}
    | _ => {| ret := 0; out := Z.of_nat (length tr) + 1; out_size := 4 |}
    end.

Definition a_blob : gnutls_datum_t := {| data := 100; size := 64 |}.

Definition a_pin : list byte := ["1"; "2"; "3"; "4"]%byte.

(** Imports of [a_blob] into the key 7, in PEM format, with the
    well-known SRK secret. *)
Definition import_from (tss : oracle) (key_password : option (list byte))
  : option Z * list call :=
  gnutls_privkey_import_tpm_raw (K := gnutls_values) (T := sample_values)
    tss 7 a_blob 1 None key_password [].

Definition a_key : tpm_ctx_st :=
  {| tpm_context := 10; tpm_key := 11; tpm_key_policy := 0; srk := 12; srk_policy := 13 |}.

Definition no_datum : gnutls_datum_t := {| data := 0; size := 0 |}.

End Tpm.

(** * Properties *)

Ltac flushes_and_waits :=
  repeat (apply List.Forall_cons; [first [left; reflexivity | right; reflexivity]|]);
  first [apply List.Forall_nil | assumption].

(** ** Arithmetic of the 32-bit variables *)

Lemma wrap32_small z : 0 <= z < 2 ^ 32 -> wrap32 z = z.
Proof. intros H. unfold wrap32. now apply Z.mod_small. Qed.

(** A message shorter than 2^31 bytes never makes [offset + mtu] wrap. *)
Lemma no_wrap_below_2G L M :
  0 <= L < 2 ^ 31 -> 0 < M < 2 ^ 32 -> (L / M + 1) * M < 2 ^ 32.
Proof.
  intros HL HM.
  destruct (Z.lt_ge_cases L M) as [Hlt | Hge].
  - rewrite Z.div_small by lia. lia.
  - pose proof (Z.mul_div_le L M ltac:(lia)). nia.
Qed.

Lemma div_mul_le L M : 0 < M -> 0 <= L -> L / M * M <= L.
Proof. intros. rewrite Z.mul_comm. apply Z.mul_div_le. lia. Qed.

Lemma succ_div_mul_gt L M : 0 < M -> 0 <= L -> L < (L / M + 1) * M.
Proof.
  intros. pose proof (Z.mul_succ_div_gt L M ltac:(lia)). lia.
Qed.

Lemma below_div_mul_le L M j : 0 < M -> 0 <= L -> j < L / M -> (j + 1) * M <= L.
Proof.
  intros HM HL Hj. pose proof (div_mul_le L M HM HL). nia.
Qed.

Lemma remainder_as_difference L M : 0 < M -> L - L / M * M = L mod M.
Proof. intros. rewrite Z.mod_eq by lia. lia. Qed.

(** ** The fragmentation loop *)

Section FragmentLoop.

Context {K : gnutls_h} (env : collaborators).

Lemma fragment_loop_unfold fuel bufel mtu data_size offset ret tr :
  fragment_loop env (S fuel) bufel mtu data_size offset ret tr =
  if offset <=? data_size then
    let frag_len := if wrap32 (offset + mtu) >? data_size
                    then wrap32 (data_size - offset) else mtu in
    let ev := EvSend GNUTLS_HANDSHAKE (htype bufel) (epoch bufel)
                (fragment_header bufel data_size offset frag_len
                   ++ fragment_payload (udata bufel) offset frag_len) in
    let r := send_result env tr GNUTLS_HANDSHAKE (htype bufel) (epoch bufel)
                (fragment_header bufel data_size offset frag_len
                   ++ fragment_payload (udata bufel) offset frag_len) in
    if r <? 0 then Some (r, tr ++ [ev])
    else fragment_loop env fuel bufel mtu data_size (wrap32 (offset + mtu)) r
           (tr ++ [ev])
  else Some (ret, tr).
Proof.
  simpl. destruct (offset <=? data_size); [|reflexivity].
  unfold io_bind, _gnutls_send_int, io_ret. cbv zeta.
  destruct (_ <? 0); reflexivity.
Qed.

(** The length the loop computes at offset [k * M] is the one the
    specification gives to fragment [k]. *)
Lemma loop_frag_len L M (k : nat) :
  0 < M -> 0 <= L < 2 ^ 32 -> (L / M + 1) * M < 2 ^ 32 ->
  Z.of_nat k <= L / M ->
  (if wrap32 (Z.of_nat k * M + M) >? L
   then wrap32 (L - Z.of_nat k * M) else M) = frag_len_at L M k.
Proof.
  intros HM HL Hw Hk. unfold frag_len_at.
  assert (Hs : wrap32 (Z.of_nat k * M + M) = (Z.of_nat k + 1) * M).
  { rewrite wrap32_small; nia. }
  rewrite Hs. destruct (Z.ltb_spec (Z.of_nat k) (L / M)) as [Hlt | Hge].
  - pose proof (below_div_mul_le L M _ HM (proj1 HL) Hlt).
    rewrite Z.gtb_ltb. destruct (Z.ltb_spec L ((Z.of_nat k + 1) * M)); [lia|reflexivity].
  - assert (Hq : Z.of_nat k = L / M) by lia. rewrite Hq.
    pose proof (succ_div_mul_gt L M HM (proj1 HL)).
    rewrite Z.gtb_ltb. destruct (Z.ltb_spec L ((L / M + 1) * M)); [|lia].
    rewrite remainder_as_difference by lia.
    apply wrap32_small. pose proof (Z.mod_pos_bound L M HM). lia.
Qed.

(** When no write fails, the loop started at fragment [j] sends every
    remaining fragment and stops. *)
Lemma fragment_loop_all_sent bufel M :
  let L := Z.of_nat (length (udata bufel)) in
  0 < M -> L < 2 ^ 32 -> (L / M + 1) * M < 2 ^ 32 ->
  (forall tr ty ht ep d, 0 <= send_result env tr ty ht ep d) ->
  forall (n j fuel : nat) r0 tr,
    Z.of_nat j + Z.of_nat n = L / M -> (n + 2 <= fuel)%nat ->
    exists r, 0 <= r /\
      fragment_loop env fuel bufel M L (Z.of_nat j * M) r0 tr
      = Some (r, tr ++ map (fragment_event bufel M) (seq j (S n))).
Proof.
  intros L HM HL Hw Hsend.
  assert (HL0 : 0 <= L) by (unfold L; lia).
  induction n as [|n IH]; intros j fuel r0 tr Hj Hfuel.
  - destruct fuel as [|[|fuel]]; [lia|lia|].
    rewrite fragment_loop_unfold.
    pose proof (div_mul_le L M HM HL0).
    destruct (Z.leb_spec (Z.of_nat j * M) L) as [_|Hbad]; [|nia].
    cbv zeta. rewrite loop_frag_len by lia.
    set (d := fragment_header _ _ _ _ ++ _).
    specialize (Hsend tr GNUTLS_HANDSHAKE (htype bufel) (epoch bufel) d).
    destruct (Z.ltb_spec (send_result env tr GNUTLS_HANDSHAKE (htype bufel) (epoch bufel) d) 0);
      [lia|].
    rewrite fragment_loop_unfold.
    pose proof (succ_div_mul_gt L M HM HL0).
    rewrite (wrap32_small (Z.of_nat j * M + M)) by nia.
    destruct (Z.leb_spec (Z.of_nat j * M + M) L) as [Hbad|_]; [nia|].
    eexists; split; [exact Hsend|]. reflexivity.
  - destruct fuel as [|fuel]; [lia|].
    rewrite fragment_loop_unfold.
    pose proof (below_div_mul_le L M (Z.of_nat j) HM HL0 ltac:(lia)).
    destruct (Z.leb_spec (Z.of_nat j * M) L) as [_|Hbad]; [|nia].
    cbv zeta. rewrite loop_frag_len by lia.
    set (d := fragment_header _ _ _ _ ++ _).
    pose proof (Hsend tr GNUTLS_HANDSHAKE (htype bufel) (epoch bufel) d) as Hd.
    destruct (Z.ltb_spec (send_result env tr GNUTLS_HANDSHAKE (htype bufel) (epoch bufel) d) 0);
      [lia|].
    rewrite (wrap32_small (Z.of_nat j * M + M)) by nia.
    replace (Z.of_nat j * M + M) with (Z.of_nat (S j) * M) by lia.
    destruct (IH (S j) fuel
                (send_result env tr GNUTLS_HANDSHAKE (htype bufel) (epoch bufel) d)
                (tr ++ [fragment_event bufel M j]) ltac:(lia) ltac:(lia))
      as (r & Hr & Hrun).
    exists r. split; [exact Hr|].
    unfold fragment_event at 1 in Hrun. fold L in Hrun. fold d in Hrun.
    rewrite Hrun. f_equal. f_equal.
    rewrite <- app_assoc. reflexivity.
Qed.

End FragmentLoop.

(** ** Fragment payloads *)

Lemma fragment_payload_length (data : list byte) off len :
  0 <= off -> 0 <= len -> off + len <= Z.of_nat (length data) ->
  length (fragment_payload data off len) = Z.to_nat len.
Proof.
  intros Ho Hl Hfit. unfold fragment_payload.
  rewrite length_take, length_drop. lia.
Qed.

Lemma frag_len_at_fits L M (k : nat) :
  0 < M -> 0 <= L -> Z.of_nat k <= L / M ->
  0 <= frag_len_at L M k /\ Z.of_nat k * M + frag_len_at L M k <= L.
Proof.
  intros HM HL Hk. unfold frag_len_at.
  destruct (Z.ltb_spec (Z.of_nat k) (L / M)) as [Hlt|Hge].
  - pose proof (below_div_mul_le L M _ HM HL Hlt). lia.
  - assert (Hq : Z.of_nat k = L / M) by lia. rewrite Hq.
    pose proof (Z.mod_pos_bound L M HM).
    pose proof (remainder_as_difference L M HM). lia.
Qed.

(** The payloads of fragments [0 .. n-1], glued together, are the first
    [n * M] bytes of the message. *)
Lemma payloads_prefix (data : list byte) M (n : nat) :
  let L := Z.of_nat (length data) in
  0 < M -> Z.of_nat n <= L / M ->
  concat (map (fun k => fragment_payload data (Z.of_nat k * M) (frag_len_at L M k))
              (seq 0 n))
  = firstn (Z.to_nat (Z.of_nat n * M)) data.
Proof.
  intros L HM. induction n as [|n IH]; intros Hn.
  - reflexivity.
  - rewrite seq_S, map_app, concat_app, IH by lia. cbn [map concat Nat.add].
    rewrite app_nil_r. unfold fragment_payload, frag_len_at.
    destruct (Z.ltb_spec (Z.of_nat n) (L / M)) as [_|Hbad]; [|lia].
    rewrite take_take_drop. f_equal. nia.
Qed.

Lemma payloads_all (data : list byte) M :
  let L := Z.of_nat (length data) in
  0 < M ->
  concat (map (fun k => fragment_payload data (Z.of_nat k * M) (frag_len_at L M k))
              (seq 0 (S (Z.to_nat (L / M)))))
  = data.
Proof.
  intros L HM.
  assert (HL : 0 <= L) by (unfold L; lia).
  assert (Hq : 0 <= L / M) by (apply Z.div_pos; lia).
  pose proof (remainder_as_difference L M HM) as Hrem.
  pose proof (Z.mod_pos_bound L M HM) as Hmod.
  subst L.
  rewrite seq_S, map_app, concat_app, payloads_prefix by lia.
  cbn [map concat Nat.add]. rewrite app_nil_r.
  unfold fragment_payload.
  rewrite (take_ge (drop _ _)).
  - apply take_drop.
  - rewrite length_drop. unfold frag_len_at.
    destruct (Z.ltb_spec (Z.of_nat (Z.to_nat (Z.of_nat (length data) / M)))
                (Z.of_nat (length data) / M)) as [Hbad|_]; lia.
Qed.

(** ** transmit_message *)

Section TransmitMessage.

Context {K : gnutls_h} (env : collaborators).

(** What [transmit_message] does to an ordinary message when the
    allocation and every write succeed. *)
Lemma transmit_message_fragments (s : gnutls_session) (bufel : mbuffer_st) tr fuel :
  let M := hsk_mtu s in
  let L := Z.of_nat (length (udata bufel)) in
  htype bufel <> GNUTLS_HANDSHAKE_CHANGE_CIPHER_SPEC ->
  0 < M < 2 ^ 32 -> L < 2 ^ 31 ->
  malloc_ok env tr (wrap32 (M + DTLS_HANDSHAKE_HEADER_SIZE)) = true ->
  (forall tr ty ht ep d, 0 <= send_result env tr ty ht ep d) ->
  (Z.to_nat (L / M) + 2 <= fuel)%nat ->
  exists r, 0 <= r /\
    transmit_message env fuel s bufel tr
    = Some (r, tr ++ [EvMalloc (wrap32 (M + DTLS_HANDSHAKE_HEADER_SIZE))]
                  ++ map (fragment_event bufel M) (seq 0 (S (Z.to_nat (L / M))))
                  ++ [EvFree]).
Proof.
  intros M L Hty HM HL Hmalloc Hsend Hfuel.
  assert (HL0 : 0 <= L) by (unfold L; lia).
  assert (Hq : 0 <= L / M) by (apply Z.div_pos; lia).
  pose proof (no_wrap_below_2G L M ltac:(lia) HM) as Hw.
  destruct (fragment_loop_all_sent env bufel M ltac:(lia) ltac:(fold L; lia) Hw Hsend
              (Z.to_nat (L / M)) 0%nat fuel 0
              (tr ++ [EvMalloc (wrap32 (M + DTLS_HANDSHAKE_HEADER_SIZE))])
              ltac:(fold L; lia) Hfuel) as (r & Hr & Hrun).
  exists r. split; [exact Hr|].
  unfold transmit_message. fold M.
  destruct (Z.eqb_spec (htype bufel) GNUTLS_HANDSHAKE_CHANGE_CIPHER_SPEC); [contradiction|].
  unfold io_bind at 1. unfold gnutls_malloc. rewrite Hmalloc. cbn [negb].
  unfold io_bind at 1. fold L. rewrite (wrap32_small L) by lia.
  change (Z.of_nat 0 * M) with 0 in Hrun. fold L in Hrun. rewrite Hrun.
  unfold io_bind, gnutls_free, io_ret. rewrite <- !app_assoc. reflexivity.
Qed.

(** C9. A buffered Change-Cipher-Spec message is handed to the record
    layer in one write: the record type is Change-Cipher-Spec, the epoch
    is the message's own, the bytes are the message's raw content with
    no fragment header in front, and nothing is allocated or
    fragmented. *)
Theorem change_cipher_spec_passthrough (s : gnutls_session) (bufel : mbuffer_st) tr fuel :
  htype bufel = GNUTLS_HANDSHAKE_CHANGE_CIPHER_SPEC ->
  transmit_message env fuel s bufel tr
  = Some (send_result env tr GNUTLS_CHANGE_CIPHER_SPEC (-1) (epoch bufel) (uhead bufel),
          tr ++ [EvSend GNUTLS_CHANGE_CIPHER_SPEC (-1) (epoch bufel) (uhead bufel)]).
Proof.
  intros Hty. unfold transmit_message. rewrite Hty, Z.eqb_refl. reflexivity.
Qed.

(** C7. For an ordinary message of [L] bytes and an MTU [M > 0],
    [transmit_message] writes fragments [0 .. L/M] in this order;
    fragment [k] starts at offset [k * M] and carries [M] bytes, except
    the final one, which carries the remainder; the payloads glued
    together in offset order are the message. *)
Theorem fragmentation_round_trip (s : gnutls_session) (bufel : mbuffer_st) tr fuel :
  let M := hsk_mtu s in
  let L := Z.of_nat (length (udata bufel)) in
  let payload k := fragment_payload (udata bufel) (Z.of_nat k * M) (frag_len_at L M k) in
  htype bufel <> GNUTLS_HANDSHAKE_CHANGE_CIPHER_SPEC ->
  0 < M < 2 ^ 32 -> L < 2 ^ 31 ->
  malloc_ok env tr (wrap32 (M + DTLS_HANDSHAKE_HEADER_SIZE)) = true ->
  (forall tr ty ht ep d, 0 <= send_result env tr ty ht ep d) ->
  (Z.to_nat (L / M) + 2 <= fuel)%nat ->
  (exists r, 0 <= r /\
     transmit_message env fuel s bufel tr
     = Some (r, tr ++ [EvMalloc (wrap32 (M + DTLS_HANDSHAKE_HEADER_SIZE))]
                   ++ map (fun k => EvSend GNUTLS_HANDSHAKE (htype bufel) (epoch bufel)
                                      (fragment_header bufel L (Z.of_nat k * M)
                                         (frag_len_at L M k) ++ payload k))
                          (seq 0 (S (Z.to_nat (L / M))))
                   ++ [EvFree]))
  /\ (forall k, (k <= Z.to_nat (L / M))%nat ->
        length (payload k) = Z.to_nat (frag_len_at L M k))
  /\ concat (map payload (seq 0 (S (Z.to_nat (L / M))))) = udata bufel.
Proof.
  intros M L payload Hty HM HL Hmalloc Hsend Hfuel.
  assert (HL0 : 0 <= L) by (unfold L; lia).
  assert (Hq : 0 <= L / M) by (apply Z.div_pos; lia).
  split; [|split].
  - exact (transmit_message_fragments s bufel tr fuel Hty HM HL Hmalloc Hsend Hfuel).
  - intros k Hk. unfold payload.
    destruct (frag_len_at_fits L M k ltac:(lia) HL0 ltac:(lia)) as [H0 H1].
    apply fragment_payload_length; [lia|exact H0|exact H1].
  - apply payloads_all. lia.
Qed.

(** C6. An ordinary message of exactly [k * M] bytes, [k >= 1], goes out
    as [k] fragments of [M] bytes each, followed by one fragment whose
    length field is 0 and which carries no payload. *)
Theorem exact_multiple_gets_empty_fragment (s : gnutls_session) (bufel : mbuffer_st)
    (k : nat) tr fuel :
  let M := hsk_mtu s in
  let L := Z.of_nat (length (udata bufel)) in
  htype bufel <> GNUTLS_HANDSHAKE_CHANGE_CIPHER_SPEC ->
  0 < M < 2 ^ 32 -> L < 2 ^ 31 ->
  (1 <= k)%nat -> L = Z.of_nat k * M ->
  malloc_ok env tr (wrap32 (M + DTLS_HANDSHAKE_HEADER_SIZE)) = true ->
  (forall tr ty ht ep d, 0 <= send_result env tr ty ht ep d) ->
  (k + 2 <= fuel)%nat ->
  (exists r, 0 <= r /\
     transmit_message env fuel s bufel tr
     = Some (r, tr ++ [EvMalloc (wrap32 (M + DTLS_HANDSHAKE_HEADER_SIZE))]
                   ++ map (fun j => EvSend GNUTLS_HANDSHAKE (htype bufel) (epoch bufel)
                                      (fragment_header bufel L (Z.of_nat j * M) M
                                         ++ fragment_payload (udata bufel) (Z.of_nat j * M) M))
                          (seq 0 k)
                   ++ [EvSend GNUTLS_HANDSHAKE (htype bufel) (epoch bufel)
                         (fragment_header bufel L L 0)]
                   ++ [EvFree]))
  /\ (forall j, (j < k)%nat ->
        length (fragment_payload (udata bufel) (Z.of_nat j * M) M) = Z.to_nat M).
Proof.
  intros M L Hty HM HL Hk HLk Hmalloc Hsend Hfuel.
  assert (Hq : L / M = Z.of_nat k) by (rewrite HLk; apply Z.div_mul; lia).
  assert (Hr : L mod M = 0) by (rewrite HLk; apply Z.mod_mul; lia).
  split.
  - destruct (transmit_message_fragments s bufel tr fuel Hty HM HL Hmalloc Hsend)
      as (r & Hr0 & Hrun).
    { change (Z.to_nat (L / M) + 2 <= fuel)%nat. rewrite Hq. lia. }
    exists r. split; [exact Hr0|]. rewrite Hrun. fold M L.
    rewrite Hq, Nat2Z.id, seq_S, map_app. cbn [map Nat.add].
    assert (E1 : map (fragment_event bufel M) (seq 0 k)
                 = map (fun j => EvSend GNUTLS_HANDSHAKE (htype bufel) (epoch bufel)
                                   (fragment_header bufel L (Z.of_nat j * M) M
                                      ++ fragment_payload (udata bufel) (Z.of_nat j * M) M))
                       (seq 0 k)).
    { apply map_ext_in. intros j Hj. apply in_seq in Hj.
      unfold fragment_event. fold L. unfold frag_len_at. rewrite Hq.
      destruct (Z.ltb_spec (Z.of_nat j) (Z.of_nat k)); [reflexivity|lia]. }
    assert (E2 : fragment_event bufel M k
                 = EvSend GNUTLS_HANDSHAKE (htype bufel) (epoch bufel)
                     (fragment_header bufel L L 0)).
    { unfold fragment_event. fold L. unfold frag_len_at. rewrite Hq, Z.ltb_irrefl, Hr.
      rewrite <- HLk. unfold fragment_payload. cbn [Z.to_nat firstn].
      rewrite app_nil_r. reflexivity. }
    rewrite E1, E2, <- !app_assoc. reflexivity.
  - intros j Hj. apply fragment_payload_length; nia.
Qed.

End TransmitMessage.

(** ** Sending a whole flight *)

Lemma final_type_cons m next d :
  final_type (m :: next) d = final_type next (htype m).
Proof.
  unfold final_type. rewrite last_cons. destruct (last next); reflexivity.
Qed.

Lemma final_type_idem buf d : final_type buf (final_type buf d) = final_type buf d.
Proof. unfold final_type. destruct (last buf); reflexivity. Qed.

Lemma flushes_app a b : flushes (a ++ b) = (flushes a + flushes b)%nat.
Proof. unfold flushes. rewrite List.filter_app, length_app. reflexivity. Qed.

Lemma message_io_no_flush evs : forallb is_message_io evs = true -> flushes evs = 0%nat.
Proof.
  induction evs as [|e evs IH]; [reflexivity|].
  cbn [forallb]. intros H. apply andb_prop in H. destruct H as [He Hevs].
  unfold flushes in *. cbn [List.filter].
  destruct e; cbn in He |- *; try discriminate; auto.
Qed.

Lemma message_io_app a b :
  forallb is_message_io a = true -> forallb is_message_io b = true ->
  forallb is_message_io (a ++ b) = true.
Proof. intros Ha Hb. rewrite forallb_app, Ha, Hb. reflexivity. Qed.

Section SendFlight.

Context {K : gnutls_h} (env : collaborators).

Lemma fragment_loop_terminates bufel M L :
  0 < M -> 0 <= L -> (L / M + 1) * M < 2 ^ 32 ->
  forall (n j fuel : nat) r0 tr,
    Z.of_nat j + Z.of_nat n = L / M -> (n + 2 <= fuel)%nat ->
    exists r evs,
      fragment_loop env fuel bufel M L (Z.of_nat j * M) r0 tr = Some (r, tr ++ evs)
      /\ forallb is_message_io evs = true.
Proof.
  intros HM HL Hw. induction n as [|n IH]; intros j fuel r0 tr Hj Hfuel.
  - destruct fuel as [|[|fuel]]; [lia|lia|].
    rewrite fragment_loop_unfold.
    pose proof (div_mul_le L M HM HL).
    destruct (Z.leb_spec (Z.of_nat j * M) L) as [_|Hbad]; [|nia].
    cbv zeta.
    set (ev := EvSend _ _ _ _). set (r := send_result _ _ _ _ _ _).
    destruct (r <? 0).
    + exists r, [ev]. split; reflexivity.
    + rewrite fragment_loop_unfold.
      pose proof (succ_div_mul_gt L M HM HL).
      rewrite (wrap32_small (Z.of_nat j * M + M)) by nia.
      destruct (Z.leb_spec (Z.of_nat j * M + M) L) as [Hbad|_]; [nia|].
      exists r, [ev]. split; reflexivity.
  - destruct fuel as [|fuel]; [lia|].
    rewrite fragment_loop_unfold.
    pose proof (below_div_mul_le L M (Z.of_nat j) HM HL ltac:(lia)).
    destruct (Z.leb_spec (Z.of_nat j * M) L) as [_|Hbad]; [|nia].
    cbv zeta.
    set (ev := EvSend _ _ _ _). set (r := send_result _ _ _ _ _ _).
    destruct (r <? 0).
    + exists r, [ev]. split; reflexivity.
    + rewrite (wrap32_small (Z.of_nat j * M + M)) by nia.
      replace (Z.of_nat j * M + M) with (Z.of_nat (S j) * M) by lia.
      destruct (IH (S j) fuel r (tr ++ [ev]) ltac:(lia) ltac:(lia))
        as (r' & evs & Hrun & Hevs).
      exists r', (ev :: evs). split.
      * rewrite Hrun, <- app_assoc. reflexivity.
      * cbn [forallb]. rewrite Hevs. reflexivity.
Qed.

Lemma transmit_message_terminates s m tr fuel :
  sendable s m -> (length (udata m) + 2 <= fuel)%nat ->
  exists r evs,
    transmit_message env fuel s m tr = Some (r, tr ++ evs)
    /\ forallb is_message_io evs = true.
Proof.
  intros Hs Hfuel. unfold transmit_message.
  destruct (Z.eqb_spec (htype m) GNUTLS_HANDSHAKE_CHANGE_CIPHER_SPEC) as [Hccs|Hord].
  - eexists _, [_]. split; reflexivity.
  - destruct Hs as [Hccs|[HM HL]]; [contradiction|].
    set (L := Z.of_nat (length (udata m))) in *.
    set (M := hsk_mtu s) in *.
    assert (HL0 : 0 <= L) by (unfold L; lia).
    unfold io_bind at 1. unfold gnutls_malloc.
    destruct (malloc_ok env tr _).
    + cbn [negb]. unfold io_bind at 1. rewrite (wrap32_small L) by lia.
      assert (Hq : 0 <= L / M <= L).
      { split; [apply Z.div_pos; lia|]. apply Z.div_le_upper_bound; nia. }
      destruct (fragment_loop_terminates m M L ltac:(lia) HL0
                  (no_wrap_below_2G L M ltac:(lia) HM)
                  (Z.to_nat (L / M)) 0%nat fuel 0
                  (tr ++ [EvMalloc (wrap32 (M + DTLS_HANDSHAKE_HEADER_SIZE))])
                  ltac:(lia) ltac:(unfold L in *; lia))
        as (r & evs & Hrun & Hevs).
      change (Z.of_nat 0 * M) with 0 in Hrun. rewrite Hrun.
      exists r, ([EvMalloc (wrap32 (M + DTLS_HANDSHAKE_HEADER_SIZE))] ++ evs ++ [EvFree]).
      split.
      * unfold io_bind, gnutls_free, io_ret. rewrite <- !app_assoc. reflexivity.
      * cbn [app forallb is_message_io andb]. rewrite forallb_app, Hevs. reflexivity.
    + cbn [negb]. eexists _, [_]. split; reflexivity.
Qed.

Lemma send_flight_terminates s buf :
  Forall (sendable s) buf ->
  forall fuel last_type tr, (flight_fuel buf <= fuel)%nat ->
  exists evs,
    send_flight env fuel s buf last_type tr = Some (final_type buf last_type, tr ++ evs)
    /\ forallb is_message_io evs = true.
Proof.
  induction 1 as [|m next Hm Hnext IH]; intros fuel last_type tr Hfuel.
  - exists []. rewrite app_nil_r. split; reflexivity.
  - cbn [flight_fuel fold_right] in Hfuel. fold (flight_fuel next) in Hfuel.
    destruct (transmit_message_terminates s m tr fuel Hm ltac:(lia))
      as (r & evs1 & Hrun1 & Hevs1).
    destruct (IH fuel (htype m) (tr ++ evs1) ltac:(lia)) as (evs2 & Hrun2 & Hevs2).
    exists (evs1 ++ evs2). split.
    + cbn [send_flight]. unfold io_bind. rewrite Hrun1, Hrun2.
      rewrite final_type_cons, <- app_assoc. reflexivity.
    + apply message_io_app; assumption.
Qed.

(** Whatever the collaborators answer, [last_type] ends up as the type
    of the last buffered message. *)
Lemma send_flight_last_type s buf :
  forall fuel last_type tr last_type' tr1,
    send_flight env fuel s buf last_type tr = Some (last_type', tr1) ->
    last_type' = final_type buf last_type.
Proof.
  induction buf as [|m next IH]; intros fuel last_type tr last_type' tr1 Hrun.
  - inversion Hrun. reflexivity.
  - cbn [send_flight] in Hrun. unfold io_bind in Hrun.
    destruct (transmit_message env fuel s m tr) as [[r tr0]|]; [|discriminate].
    rewrite final_type_cons. exact (IH _ _ _ _ _ Hrun).
Qed.

End SendFlight.

(** ** The retransmission loop *)

Lemma ceil_div_bounds T R :
  0 < R -> (ceil_div T R - 1) * R < T <= ceil_div T R * R.
Proof.
  intros HR. unfold ceil_div.
  pose proof (Z.div_mod (T + R - 1) R ltac:(lia)).
  pose proof (Z.mod_pos_bound (T + R - 1) R HR).
  nia.
Qed.

Lemma ceil_div_pos T R : 0 < R -> 0 < T -> 1 <= ceil_div T R.
Proof. intros HR HT. pose proof (ceil_div_bounds T R HR). nia. Qed.

Section Rounds.

Context {K : gnutls_h} (env : collaborators).

Lemma cleanup_result s ret total : result (cleanup s ret total) = ret.
Proof. unfold cleanup. destruct (drop_usage_count s). reflexivity. Qed.

Lemma cleanup_waited s ret total : waited (cleanup s ret total) = total.
Proof. unfold cleanup. destruct (drop_usage_count s). reflexivity. Qed.

Lemma cleanup_after s ret total :
  after (cleanup s ret total) = _mbuffer_clear (snd (drop_usage_count s)).
Proof. unfold cleanup. destruct (drop_usage_count s). reflexivity. Qed.

(** The wait after the last flight of a handshake. *)
Lemma wait_for_peer_last_flight s last_type total tr :
  last_flight_of_handshake s last_type = true ->
  wait_for_peer env s last_type total tr
  = Some ((let '(ret, c) := recv_result env tr 1 (retrans_timeout s) in
           if ret =? GNUTLS_E_TIMEDOUT then 0
           else if (ret >=? 0) && (Z_of_byte c =? GNUTLS_HANDSHAKE)
                then GNUTLS_E_TIMEDOUT else ret,
           wrap32 (total + retrans_timeout s)),
          tr ++ [EvCheckRecv 1 (retrans_timeout s)]).
Proof.
  intros Hsp. unfold wait_for_peer. rewrite Hsp.
  unfold io_bind, _gnutls_io_check_recv, io_ret.
  destruct (recv_result env tr 1 (retrans_timeout s)). reflexivity.
Qed.

(** The wait for an implicit acknowledgment. *)
Lemma wait_for_peer_implicit_ack s last_type total tr :
  last_flight_of_handshake s last_type = false ->
  wait_for_peer env s last_type total tr
  = Some ((fst (recv_result env tr 0 (retrans_timeout s)),
           wrap32 (total + retrans_timeout s)),
          tr ++ [EvCheckRecv 0 (retrans_timeout s)]).
Proof.
  intros Hsp. unfold wait_for_peer. rewrite Hsp.
  unfold io_bind, _gnutls_io_check_recv, io_ret.
  destruct (recv_result env tr 0 (retrans_timeout s)). reflexivity.
Qed.

Lemma last_flight_of_handshake_iff s last_type :
  last_flight_of_handshake s last_type = true <->
  last_type = GNUTLS_HANDSHAKE_FINISHED
  /\ ((entity s = GNUTLS_SERVER /\ resumed s = RESUME_FALSE)
      \/ (entity s = GNUTLS_CLIENT /\ resumed s = RESUME_TRUE)).
Proof.
  unfold last_flight_of_handshake.
  rewrite andb_true_iff, orb_true_iff, !andb_true_iff, Z.eqb_eq.
  destruct (entity s), (resumed s); cbn; intuition congruence.
Qed.

(** One pass through the loop body, once the flight has been sent. *)
Lemma flight_round_after_send fuel s total last_type tr last_type' tr1 :
  send_flight env fuel s (handshake_send_buffer s) last_type tr = Some (last_type', tr1) ->
  flight_round env fuel s total last_type tr =
  if flush_result env tr1 <? 0 then
    Some (Return {| result := flush_result env tr1; waited := total; after := s |},
          tr1 ++ [EvFlush])
  else
    match wait_for_peer env s last_type' total (tr1 ++ [EvFlush]) with
    | Some ((ret, total'), tr3) =>
        Some (if total' >=? dtls_total_timeout s
              then Return (cleanup s GNUTLS_E_TIMEDOUT total')
              else if ret =? GNUTLS_E_TIMEDOUT then Again total' last_type'
              else if ret <? 0 then Return (cleanup s ret total')
              else Return (cleanup s 0 total'),
              tr3)
    | None => None
    end.
Proof.
  intros Hsend. unfold flight_round. unfold io_bind at 1. rewrite Hsend.
  unfold io_bind at 1. unfold _gnutls_io_write_flush.
  destruct (flush_result env tr1 <? 0); [reflexivity|].
  unfold io_bind.
  destruct (wait_for_peer env s last_type' total (tr1 ++ [EvFlush]))
    as [[[ret total'] tr3]|]; [|reflexivity].
  destruct (total' >=? dtls_total_timeout s); [reflexivity|].
  destruct (ret =? GNUTLS_E_TIMEDOUT); [reflexivity|].
  destruct (ret <? 0); reflexivity.
Qed.

Lemma flight_loop_unfold fuel s total last_type tr :
  flight_loop env (S fuel) s total last_type tr =
  match flight_round env fuel s total last_type tr with
  | Some (Return o, tr') => Some (o, tr')
  | Some (Again total' last_type', tr') => flight_loop env fuel s total' last_type' tr'
  | None => None
  end.
Proof.
  cbn [flight_loop]. unfold io_bind.
  destruct (flight_round env fuel s total last_type tr) as [[[o|t l] tr']|]; reflexivity.
Qed.

End Rounds.

(** ** An empty flight buffer *)

Section EmptyFlight.

Context {K : gnutls_h} (env : collaborators).

Lemma drop_usage_count_empty s :
  handshake_send_buffer s = [] -> drop_usage_count s = (0, s).
Proof. intros H. unfold drop_usage_count. rewrite H. reflexivity. Qed.

Lemma _mbuffer_clear_empty s : handshake_send_buffer s = [] -> _mbuffer_clear s = s.
Proof.
  intros H. destruct s. cbn in H. subst. reflexivity.
Qed.

Lemma cleanup_empty s ret total :
  handshake_send_buffer s = [] ->
  cleanup s ret total = {| result := ret; waited := total; after := s |}.
Proof.
  intros H. unfold cleanup. rewrite (drop_usage_count_empty s H).
  rewrite (_mbuffer_clear_empty s H). reflexivity.
Qed.

Lemma not_last_flight_initially s :
  GNUTLS_HANDSHAKE_FINISHED <> 0 -> last_flight_of_handshake s 0 = false.
Proof.
  intros Hfin. unfold last_flight_of_handshake.
  destruct (Z.eqb_spec 0 GNUTLS_HANDSHAKE_FINISHED) as [E|_]; [congruence|reflexivity].
Qed.

(** Every call the loop makes over an empty buffer is a flush or a wait
    with no data required, beginning with a flush. *)
Lemma empty_flight_loop s :
  let R := retrans_timeout s in
  handshake_send_buffer s = [] -> GNUTLS_HANDSHAKE_FINISHED <> 0 ->
  forall fuel total tr o tr',
    flight_loop env fuel s total 0 tr = Some (o, tr') ->
    exists evs,
      tr' = tr ++ EvFlush :: evs
      /\ Forall (fun e => e = EvFlush \/ e = EvCheckRecv 0 R) evs
      /\ (0 <= flush_result env tr -> exists rest, evs = EvCheckRecv 0 R :: rest).
Proof.
  intros R Hbuf Hfin.
  pose proof (not_last_flight_initially s Hfin) as Hsp.
  induction fuel as [|fuel IH]; intros total tr o tr' Hrun; [discriminate|].
  rewrite flight_loop_unfold in Hrun.
  assert (Hsend : send_flight env fuel s (handshake_send_buffer s) 0 tr = Some (0, tr))
    by (rewrite Hbuf; reflexivity).
  rewrite (flight_round_after_send env fuel s total 0 tr _ _ Hsend) in Hrun.
  destruct (Z.ltb_spec (flush_result env tr) 0) as [Hneg|Hpos].
  - inversion Hrun; subst. exists []. split; [reflexivity|]. split; [constructor|].
    intros Hge. exfalso. lia.
  - rewrite (wait_for_peer_implicit_ack env s 0 total _ Hsp) in Hrun. fold R in Hrun.
    destruct (wrap32 (total + R) >=? dtls_total_timeout s).
    { inversion Hrun; subst. exists [EvCheckRecv 0 R].
      rewrite <- app_assoc. split; [reflexivity|].
      split; [flushes_and_waits|]. eauto. }
    destruct (fst (recv_result env (tr ++ [EvFlush]) 0 R) =? GNUTLS_E_TIMEDOUT).
    { apply IH in Hrun. destruct Hrun as (evs & -> & Hall & _).
      exists (EvCheckRecv 0 R :: EvFlush :: evs).
      rewrite <- !app_assoc. split; [reflexivity|].
      split; [flushes_and_waits|]. eauto. }
    destruct (fst (recv_result env (tr ++ [EvFlush]) 0 R) <? 0);
      inversion Hrun; subst; exists [EvCheckRecv 0 R];
      rewrite <- app_assoc; (split; [reflexivity|]);
      (split; [flushes_and_waits|]); eauto.
Qed.

(** C10.  With an empty flight buffer the inner loop writes nothing and
    leaves [last_type] at 0, which is not the Finished type, so the wait
    is the one for an implicit acknowledgment; whatever run comes to an
    end has made only flushes and such waits, beginning with a flush
    (and, when that flush succeeds, a wait); and when that wait brings
    an answer before the deadline the call returns 0 although no message
    went out. *)
Theorem empty_flight (s : gnutls_session) :
  let R := retrans_timeout s in
  handshake_send_buffer s = [] -> GNUTLS_HANDSHAKE_FINISHED <> 0 ->
  (forall fuel tr, send_flight env fuel s (handshake_send_buffer s) 0 tr = Some (0, tr))
  /\ last_flight_of_handshake s 0 = false
  /\ (forall fuel tr o tr',
        _gnutls_dtls_transmit env fuel s tr = Some (o, tr') ->
        exists evs,
          tr' = tr ++ EvFlush :: evs
          /\ Forall (fun e => e = EvFlush \/ e = EvCheckRecv 0 R) evs
          /\ (0 <= flush_result env tr -> exists rest, evs = EvCheckRecv 0 R :: rest)
          /\ sends tr' = sends tr)
  /\ (forall fuel tr,
        0 <= flush_result env tr ->
        0 <= fst (recv_result env (tr ++ [EvFlush]) 0 R) ->
        fst (recv_result env (tr ++ [EvFlush]) 0 R) <> GNUTLS_E_TIMEDOUT ->
        wrap32 R < dtls_total_timeout s ->
        _gnutls_dtls_transmit env (S fuel) s tr
        = Some ({| result := 0; waited := wrap32 R; after := s |},
                tr ++ [EvFlush; EvCheckRecv 0 R])).
Proof.
  intros R Hbuf Hfin.
  pose proof (not_last_flight_initially s Hfin) as Hsp.
  split; [|split; [|split]].
  - intros fuel tr. rewrite Hbuf. reflexivity.
  - exact Hsp.
  - intros fuel tr o tr' Hrun.
    destruct (empty_flight_loop s Hbuf Hfin fuel 0 tr o tr' Hrun) as (evs & -> & Hall & Hwait).
    exists evs. split; [reflexivity|]. split; [exact Hall|]. split; [exact Hwait|].
    unfold sends. rewrite List.filter_app. cbn [List.filter is_send].
    assert (Hnone : List.filter is_send evs = []).
    { clear -Hall. induction Hall as [|e evs [-> | ->] _ IH]; [reflexivity| |]; exact IH. }
    rewrite Hnone. apply app_nil_r.
  - intros fuel tr Hflush Hr Hnto Hdead.
    assert (Hsend : send_flight env fuel s (handshake_send_buffer s) 0 tr = Some (0, tr))
      by (rewrite Hbuf; reflexivity).
    unfold _gnutls_dtls_transmit.
    rewrite flight_loop_unfold, (flight_round_after_send env fuel s 0 0 tr _ _ Hsend).
    destruct (Z.ltb_spec (flush_result env tr) 0) as [Hneg|_]; [lia|].
    rewrite (wait_for_peer_implicit_ack env s 0 0 _ Hsp). fold R.
    change (0 + R) with R.
    destruct (Z.geb_spec (wrap32 R) (dtls_total_timeout s)) as [Hge|_]; [lia|].
    destruct (Z.eqb_spec (fst (recv_result env (tr ++ [EvFlush]) 0 R)) GNUTLS_E_TIMEDOUT)
      as [E|_]; [contradiction|].
    destruct (Z.ltb_spec (fst (recv_result env (tr ++ [EvFlush]) 0 R)) 0) as [E|_]; [lia|].
    rewrite (cleanup_empty s 0 (wrap32 R) Hbuf), <- app_assoc. reflexivity.
Qed.

End EmptyFlight.

(** ** Releasing the flight *)

Lemma multiplicity_cons e m next :
  multiplicity e (m :: next) = (if epoch m =? e then 1 else 0) + multiplicity e next.
Proof.
  unfold multiplicity. cbn [List.filter].
  destruct (epoch m =? e); cbn [length]; lia.
Qed.

Lemma multiplicity_nonneg e buf : 0 <= multiplicity e buf.
Proof. unfold multiplicity. lia. Qed.

Section Release.

Context {K : gnutls_h}.

(** When every referenced epoch is present and its counter is at least
    the number of buffered messages that reference it, the release loop
    runs to its end, returns 0, and takes from each counter exactly that
    number. *)
Lemma usage_count_conservation (cur : list mbuffer_st) :
  forall s,
    (forall m, In m cur ->
       exists c, epochs s !! epoch m = Some {| usage_cnt := c |}
                 /\ multiplicity (epoch m) cur <= c) ->
    exists s',
      drop_usage_count_from cur s = (0, s')
      /\ handshake_send_buffer s' = handshake_send_buffer s
      /\ forall e,
           epochs s' !! e
           = (fun p => {| usage_cnt := usage_cnt p - multiplicity e cur |})
               <$> epochs s !! e.
Proof.
  induction cur as [|m next IH]; intros s Hs.
  - exists s. split; [reflexivity|]. split; [reflexivity|].
    intros e. destruct (epochs s !! e) as [[c]|]; cbn; [|reflexivity].
    unfold multiplicity. cbn. rewrite Z.sub_0_r. reflexivity.
  - destruct (Hs m (or_introl eq_refl)) as (c & Hc & Hle).
    rewrite multiplicity_cons, Z.eqb_refl in Hle.
    pose proof (multiplicity_nonneg (epoch m) next) as Hnn.
    cbn [drop_usage_count_from]. unfold _gnutls_epoch_get. rewrite Hc. cbn [usage_cnt].
    destruct (Z.ltb_spec (c - 1) 0) as [Hbad|_]; [lia|].
    set (s1 := set_epochs s (<[epoch m := {| usage_cnt := c - 1 |}]> (epochs s))).
    destruct (IH s1) as (s' & Hrun & Hbuf & Hcnt).
    { intros m' Hm'. destruct (Hs m' (or_intror Hm')) as (c' & Hc' & Hle').
      rewrite multiplicity_cons in Hle'. cbn [s1 set_epochs epochs].
      destruct (Z.eqb_spec (epoch m) (epoch m')) as [E|E].
      - rewrite <- E, lookup_insert_eq. rewrite <- E, Hc in Hc'.
        injection Hc' as <-. exists (c - 1). split; [reflexivity|]. lia.
      - rewrite lookup_insert_ne by exact E. exists c'. split; [exact Hc'|]. lia. }
    exists s'. split; [exact Hrun|]. split; [rewrite Hbuf; reflexivity|].
    intros e. rewrite Hcnt, multiplicity_cons. cbn [s1 set_epochs epochs].
    destruct (Z.eqb_spec (epoch m) e) as [E|E].
    + rewrite <- E, lookup_insert_eq, Hc. cbn. do 2 f_equal. lia.
    + rewrite lookup_insert_ne by exact E.
      destruct (epochs s !! e) as [[c']|]; cbn; [|reflexivity]. do 2 f_equal.
Qed.

End Release.

(** ** Exits of the engine *)

Section Exits.

Context {K : gnutls_h} (env : collaborators).

(** A failed flush ends the call on the spot, with the session as it
    was. *)
Lemma flush_error_returns_at_once fuel s total last_type tr last_type' tr1 :
  send_flight env fuel s (handshake_send_buffer s) last_type tr = Some (last_type', tr1) ->
  flush_result env tr1 < 0 ->
  flight_round env fuel s total last_type tr
  = Some (Return {| result := flush_result env tr1; waited := total; after := s |},
          tr1 ++ [EvFlush]).
Proof.
  intros Hsend Hneg. rewrite (flight_round_after_send env fuel s total last_type tr _ _ Hsend).
  destruct (Z.ltb_spec (flush_result env tr1) 0); [reflexivity|lia].
Qed.

(** Every other way out of the loop body goes through the release. *)
Lemma other_exits_release fuel s total last_type tr last_type' tr1 o tr' :
  send_flight env fuel s (handshake_send_buffer s) last_type tr = Some (last_type', tr1) ->
  0 <= flush_result env tr1 ->
  flight_round env fuel s total last_type tr = Some (Return o, tr') ->
  after o = _mbuffer_clear (snd (drop_usage_count s)).
Proof.
  intros Hsend Hpos Hround.
  rewrite (flight_round_after_send env fuel s total last_type tr _ _ Hsend) in Hround.
  destruct (Z.ltb_spec (flush_result env tr1) 0); [lia|].
  destruct (wait_for_peer env s last_type' total (tr1 ++ [EvFlush]))
    as [[[ret total'] tr3]|]; [|discriminate].
  destruct (total' >=? dtls_total_timeout s);
    [inversion Hround; apply cleanup_after|].
  destruct (ret =? GNUTLS_E_TIMEDOUT); [discriminate|].
  destruct (ret <? 0); inversion Hround; apply cleanup_after.
Qed.

(** A write that fails ends the fragmentation of its message: the loop
    returns the code and makes no further call. *)
Lemma write_error_ends_fragmentation fuel bufel mtu data_size offset ret tr :
  offset <= data_size ->
  let frag_len := if wrap32 (offset + mtu) >? data_size
                  then wrap32 (data_size - offset) else mtu in
  let d := fragment_header bufel data_size offset frag_len
             ++ fragment_payload (udata bufel) offset frag_len in
  send_result env tr GNUTLS_HANDSHAKE (htype bufel) (epoch bufel) d < 0 ->
  fragment_loop env (S fuel) bufel mtu data_size offset ret tr
  = Some (send_result env tr GNUTLS_HANDSHAKE (htype bufel) (epoch bufel) d,
          tr ++ [EvSend GNUTLS_HANDSHAKE (htype bufel) (epoch bufel) d]).
Proof.
  intros Hle frag_len d Hneg. rewrite fragment_loop_unfold.
  destruct (Z.leb_spec offset data_size); [|lia]. cbv zeta. fold frag_len. fold d.
  destruct (Z.ltb_spec (send_result env tr GNUTLS_HANDSHAKE (htype bufel) (epoch bufel) d) 0);
    [reflexivity|lia].
Qed.

(** The flight loop goes on to the next message whatever
    [transmit_message] returned. *)
Lemma send_flight_ignores_result fuel s m next last_type tr :
  send_flight env fuel s (m :: next) last_type tr
  = match transmit_message env fuel s m tr with
    | Some (_, tr1) => send_flight env fuel s next (htype m) tr1
    | None => None
    end.
Proof.
  cbn [send_flight]. unfold io_bind.
  destruct (transmit_message env fuel s m tr) as [[r tr1]|]; reflexivity.
Qed.

End Exits.

(** C1, at a flight of one message whose flush fails.  The call returns
    the flush error with the message still buffered and the usage count
    of its epoch still 1: this exit does not pass through the release
    that the timeout and wait-error exits share. *)
Theorem flush_error_skips_release :
  exists o tr',
    _gnutls_dtls_transmit (K := gnutls_values) broken_flush 8 hello_session []
    = Some (o, tr')
    /\ result o = -53
    /\ handshake_send_buffer (after o) = [client_hello]
    /\ epochs (after o) !! 0 = Some {| usage_cnt := 1 |}.
Proof.
  eexists _, _. split; [vm_compute; reflexivity|].
  repeat split; vm_compute; reflexivity.
Qed.

(** C2, at a flight of one message whose every write fails.
    [transmit_message] stops after the first fragment and returns the
    error, but the call as a whole returns 0; and when the first wait
    has timed out, the failed write has been made a second time. *)
Theorem write_error_not_reported :
  transmit_message (K := gnutls_values) broken_write 8 hello_session client_hello []
  = Some (-53, [EvMalloc 14;
                EvSend 22 1 0 (fragment_header client_hello 5 0 2
                                 ++ ["001"; "002"]%byte);
                EvFree])
  /\ exists o tr',
       _gnutls_dtls_transmit (K := gnutls_values) broken_write 8 hello_session []
       = Some (o, tr')
       /\ result o = 0
       /\ length (sends tr') = 2%nat
       /\ flushes tr' = 2%nat.
Proof.
  split; [vm_compute; reflexivity|].
  eexists _, _. split; [vm_compute; reflexivity|].
  repeat split; vm_compute; reflexivity.
Qed.

(** C4, at two flights of one message each.  In the first the epoch's
    usage count is already 0: the release returns the internal error
    and leaves the count at -1.  In the second the epoch is not in the
    table: the release returns the lookup's error.  Both calls return 0
    all the same. *)
Theorem release_errors_swallowed :
  (fst (drop_usage_count (K := gnutls_values) stale_count_session)
   = GNUTLS_E_INTERNAL_ERROR (gnutls_h := gnutls_values)
   /\ exists o tr',
        _gnutls_dtls_transmit (K := gnutls_values) responsive_peer 8
          stale_count_session [] = Some (o, tr')
        /\ result o = 0
        /\ epochs (after o) !! 0 = Some {| usage_cnt := -1 |})
  /\ (epochs missing_epoch_session !! epoch finished = None
      /\ fst (drop_usage_count (K := gnutls_values) missing_epoch_session)
         = GNUTLS_E_INVALID_REQUEST (gnutls_h := gnutls_values)
      /\ exists o tr',
           _gnutls_dtls_transmit (K := gnutls_values) responsive_peer 8
             missing_epoch_session [] = Some (o, tr')
           /\ result o = 0).
Proof.
  split.
  - split; [vm_compute; reflexivity|].
    eexists _, _. split; [vm_compute; reflexivity|].
    split; vm_compute; reflexivity.
  - split; [vm_compute; reflexivity|]. split; [vm_compute; reflexivity|].
    eexists _, _. split; [vm_compute; reflexivity|]. vm_compute; reflexivity.
Qed.

(** C3 fails as stated: with an interval of 3 and a total timeout of 10,
    an unanswered flight is sent [ceil (10 / 3) = 4] times and the call
    returns the timeout code, but the accumulated wait is 12, above the
    total timeout. *)
Lemma deadline_overshoot :
  exists o tr',
    _gnutls_dtls_transmit (K := gnutls_values) silent_peer 8 short_deadline_session []
    = Some (o, tr')
    /\ flushes tr' = Z.to_nat (ceil_div 10 3)
    /\ result o = GNUTLS_E_TIMEDOUT (gnutls_h := gnutls_values)
    /\ waited o = 12
    /\ ~ waited o <= dtls_total_timeout short_deadline_session.
Proof.
  eexists _, _. split; [vm_compute; reflexivity|].
  split; [vm_compute; reflexivity|]. split; [vm_compute; reflexivity|].
  split; [vm_compute; reflexivity|]. vm_compute. intros H. apply H. reflexivity.
Qed.

(** C8 fails as stated: when the retransmission interval equals the
    total timeout, a flight that is answered at the first wait is sent
    once and the call returns the timeout code, not success. *)
Lemma answered_at_the_deadline :
  exists o tr',
    _gnutls_dtls_transmit (K := gnutls_values) responsive_peer 8 equal_timeouts_session []
    = Some (o, tr')
    /\ flushes tr' = 1%nat
    /\ (forall tr, fst (recv_result responsive_peer tr 0 1000) = 0)
    /\ result o = GNUTLS_E_TIMEDOUT (gnutls_h := gnutls_values)
    /\ result o <> 0.
Proof.
  eexists _, _. split; [vm_compute; reflexivity|].
  split; [vm_compute; reflexivity|]. split; [intros tr; reflexivity|].
  split; [vm_compute; reflexivity|]. vm_compute. discriminate.
Qed.

(** C5 fails as stated: when the retransmission interval has reached the
    total timeout, a timed-out single-byte wait after the Finished
    flight does not end in success, the call returns the timeout code;
    and a received handshake byte does not bring a retransmission, the
    flight has been sent once when the call returns. *)
Lemma silent_at_the_deadline :
  (exists o,
     _gnutls_dtls_transmit (K := gnutls_values) silent_peer 5
       server_finished_deadline_session []
     = Some (o, finished_sent ++ [EvFlush; EvCheckRecv 1 1000])
     /\ fst (recv_result silent_peer (finished_sent ++ [EvFlush]) 1 1000)
        = GNUTLS_E_TIMEDOUT (gnutls_h := gnutls_values)
     /\ result o = GNUTLS_E_TIMEDOUT (gnutls_h := gnutls_values)
     /\ result o <> 0)
  /\ (exists o,
        _gnutls_dtls_transmit (K := gnutls_values) resending_peer 5
          server_finished_deadline_session []
        = Some (o, finished_sent ++ [EvFlush; EvCheckRecv 1 1000])
        /\ Z_of_byte (snd (recv_result resending_peer (finished_sent ++ [EvFlush]) 1 1000))
           = GNUTLS_HANDSHAKE (gnutls_h := gnutls_values)
        /\ sends (finished_sent ++ [EvFlush; EvCheckRecv 1 1000]) = sends finished_sent).
Proof.
  split.
  - eexists. split; [vm_compute; reflexivity|]. split; [reflexivity|].
    split; [vm_compute; reflexivity|]. vm_compute. discriminate.
  - eexists. split; [vm_compute; reflexivity|]. split; [reflexivity|]. reflexivity.
Qed.

(** ** The theorems at concrete inputs *)

Lemma change_cipher_spec_passthrough_witness :
  htype change_cipher_spec = GNUTLS_HANDSHAKE_CHANGE_CIPHER_SPEC (gnutls_h := gnutls_values)
  /\ transmit_message (K := gnutls_values) responsive_peer 0
       change_cipher_spec_session change_cipher_spec []
     = Some (1, [EvSend 20 (-1) 0 ["001"%byte]]).
Proof.
  split; [reflexivity|].
  exact (change_cipher_spec_passthrough (K := gnutls_values) responsive_peer
           change_cipher_spec_session change_cipher_spec [] 0 eq_refl).
Defined.

Lemma fragmentation_round_trip_witness :
  (exists r, 0 <= r /\
     transmit_message (K := gnutls_values) responsive_peer 4 hello_session client_hello []
     = Some (r, [EvMalloc 14;
                 EvSend 22 1 0 (fragment_header client_hello 5 0 2 ++ ["001"; "002"]%byte);
                 EvSend 22 1 0 (fragment_header client_hello 5 2 2 ++ ["003"; "004"]%byte);
                 EvSend 22 1 0 (fragment_header client_hello 5 4 1 ++ ["005"]%byte);
                 EvFree]))
  /\ ["001"; "002"]%byte ++ ["003"; "004"]%byte ++ ["005"]%byte = udata client_hello.
Proof.
  destruct (fragmentation_round_trip (K := gnutls_values) responsive_peer
              hello_session client_hello [] 4)
    as (Hrun & _ & Hcat).
  - cbn. discriminate.
  - cbn. lia.
  - cbn. lia.
  - reflexivity.
  - intros. cbn. lia.
  - vm_compute. lia.
  - split; [exact Hrun | exact Hcat].
Defined.

Lemma exact_multiple_gets_empty_fragment_witness :
  exists r, 0 <= r /\
    transmit_message (K := gnutls_values) responsive_peer 4 key_exchange_session
      key_exchange []
    = Some (r, [EvMalloc 14;
                EvSend 22 16 0 (fragment_header key_exchange 4 0 2 ++ ["010"; "011"]%byte);
                EvSend 22 16 0 (fragment_header key_exchange 4 2 2 ++ ["012"; "013"]%byte);
                EvSend 22 16 0 (fragment_header key_exchange 4 4 0);
                EvFree]).
Proof.
  destruct (exact_multiple_gets_empty_fragment (K := gnutls_values) responsive_peer
              key_exchange_session key_exchange 2 [] 4)
    as (Hrun & _).
  - cbn. discriminate.
  - cbn. lia.
  - cbn. lia.
  - lia.
  - reflexivity.
  - reflexivity.
  - intros. cbn. lia.
  - lia.
  - exact Hrun.
Defined.

Lemma empty_flight_witness :
  _gnutls_dtls_transmit (K := gnutls_values) responsive_peer 1 idle_session []
  = Some ({| result := 0; waited := 1000; after := idle_session |},
          [EvFlush; EvCheckRecv 0 1000]).
Proof.
  destruct (empty_flight (K := gnutls_values) responsive_peer idle_session)
    as (_ & _ & _ & Hsuccess).
  - reflexivity.
  - cbn. discriminate.
  - apply (Hsuccess 0%nat []).
    + cbn. lia.
    + cbn. lia.
    + cbn. discriminate.
    + vm_compute. reflexivity.
Defined.

(** * The release, the fragments and the passes of the loop *)

(** ** The release loop *)

Lemma multiplicity_pos_of_In m buf : In m buf -> 0 < multiplicity (epoch m) buf.
Proof.
  induction buf as [|m' next IH]; intros Hin; [contradiction|].
  rewrite multiplicity_cons. pose proof (multiplicity_nonneg (epoch m) next).
  destruct Hin as [-> | Hin].
  - rewrite Z.eqb_refl. lia.
  - specialize (IH Hin). destruct (epoch m' =? epoch m); lia.
Qed.

Section ReleaseLoop.

Context {K : gnutls_h}.

Lemma counts_cover_messages s buf :
  counts_cover s buf ->
  forall m, In m buf ->
    exists c, epochs s !! epoch m = Some {| usage_cnt := c |}
              /\ multiplicity (epoch m) buf <= c.
Proof. intros Hc m Hin. apply Hc. now apply multiplicity_pos_of_In. Qed.

(** What the loop does in every case: it reports one of three codes,
    leaves everything but the epoch table alone, neither adds nor
    removes an epoch, and lowers each counter by at most the number of
    messages that reference the epoch. *)
Lemma drop_usage_count_from_frame cur :
  forall s,
    let r := fst (drop_usage_count_from cur s) in
    let s' := snd (drop_usage_count_from cur s) in
    (r = 0 \/ r = GNUTLS_E_INVALID_REQUEST \/ r = GNUTLS_E_INTERNAL_ERROR)
    /\ same_but_epochs s s'
    /\ forall e,
         match epochs s !! e with
         | None => epochs s' !! e = None
         | Some p =>
             exists d, 0 <= d <= multiplicity e cur
                       /\ epochs s' !! e = Some {| usage_cnt := usage_cnt p - d |}
         end.
Proof.
  induction cur as [|m next IH]; intros s.
  - cbn. split; [auto|]. split; [repeat split|].
    intros e. destruct (epochs s !! e) as [[c]|]; [|reflexivity].
    exists 0. unfold multiplicity. cbn. rewrite Z.sub_0_r. split; [lia|reflexivity].
  - cbn [drop_usage_count_from]. unfold _gnutls_epoch_get.
    destruct (epochs s !! epoch m) as [[c]|] eqn:Hc.
    + cbn [usage_cnt].
      set (s1 := set_epochs s (<[epoch m := {| usage_cnt := c - 1 |}]> (epochs s))).
      assert (Hstep : forall e,
                 match epochs s !! e with
                 | None => epochs s1 !! e = None
                 | Some p =>
                     epochs s1 !! e
                     = Some {| usage_cnt := usage_cnt p - (if epoch m =? e then 1 else 0) |}
                 end).
      { intros e. cbn [s1 set_epochs epochs].
        destruct (Z.eqb_spec (epoch m) e) as [E|E].
        - rewrite <- E, Hc, lookup_insert_eq. reflexivity.
        - rewrite lookup_insert_ne by exact E.
          destruct (epochs s !! e) as [[c']|]; [|reflexivity].
          cbn. rewrite Z.sub_0_r. reflexivity. }
      destruct (Z.ltb_spec (c - 1) 0) as [Hneg|Hpos].
      * cbn [fst snd]. split; [auto|]. split; [repeat split|].
        intros e. specialize (Hstep e). rewrite multiplicity_cons.
        pose proof (multiplicity_nonneg e next).
        destruct (epochs s !! e) as [p|]; [|exact Hstep].
        exists (if epoch m =? e then 1 else 0).
        split; [destruct (epoch m =? e); lia|exact Hstep].
      * destruct (IH s1) as (Hr & Hsame & Hcnt).
        split; [exact Hr|]. split.
        { destruct Hsame as (H1 & H2 & H3 & H4 & H5 & H6). repeat split; assumption. }
        intros e. specialize (Hstep e). specialize (Hcnt e).
        rewrite multiplicity_cons.
        destruct (epochs s !! e) as [p|].
        -- rewrite Hstep in Hcnt. destruct Hcnt as (d & Hd & Hlook). cbn [usage_cnt] in Hlook.
           exists ((if epoch m =? e then 1 else 0) + d).
           split; [destruct (epoch m =? e); lia|].
           rewrite Hlook. do 2 f_equal. lia.
        -- rewrite Hstep in Hcnt. exact Hcnt.
    + cbn [fst snd]. split; [auto|]. split; [repeat split|].
      intros e. destruct (epochs s !! e) as [[c]|]; [|reflexivity].
      exists 0. pose proof (multiplicity_nonneg e (m :: next)).
      rewrite Z.sub_0_r. split; [lia|reflexivity].
Qed.

(** The loop returns 0 only when the counts cover the messages. *)
Lemma drop_usage_count_from_zero cur :
  GNUTLS_E_INVALID_REQUEST <> 0 -> GNUTLS_E_INTERNAL_ERROR <> 0 ->
  forall s, fst (drop_usage_count_from cur s) = 0 -> counts_cover s cur.
Proof.
  intros Hinv Hint. induction cur as [|m next IH]; intros s Hzero e He.
  - unfold multiplicity in He. cbn in He. lia.
  - cbn [drop_usage_count_from] in Hzero. unfold _gnutls_epoch_get in Hzero.
    destruct (epochs s !! epoch m) as [[c]|] eqn:Hc; [|cbn in Hzero; congruence].
    cbn [usage_cnt] in Hzero.
    destruct (Z.ltb_spec (c - 1) 0) as [Hneg|Hpos]; [cbn in Hzero; congruence|].
    specialize (IH _ Hzero e). cbn [set_epochs epochs] in IH.
    rewrite multiplicity_cons in He |- *.
    pose proof (multiplicity_nonneg e next) as Hnn.
    destruct (Z.eqb_spec (epoch m) e) as [E|E].
    + subst e. rewrite lookup_insert_eq in IH. exists c. split; [exact Hc|].
      destruct (Z.lt_ge_cases 0 (multiplicity (epoch m) next)) as [Hmore|Hnone]; [|lia].
      destruct (IH Hmore) as (c' & Hc' & Hle). injection Hc' as <-. lia.
    + rewrite lookup_insert_ne in IH by exact E.
      destruct (IH ltac:(lia)) as (c' & Hc' & Hle). exists c'. split; [exact Hc'|lia].
Qed.

(** From counters above the least [int], no decrement of the loop
    leaves the range of an [int]. *)
Lemma drop_usage_count_from_in_range cur :
  forall s,
    (forall e c, 0 < multiplicity e cur ->
       epochs s !! e = Some {| usage_cnt := c |} -> - 2 ^ 31 < c) ->
    forall e c', 0 < multiplicity e cur ->
      epochs (snd (drop_usage_count_from cur s)) !! e = Some {| usage_cnt := c' |} ->
      - 2 ^ 31 <= c'.
Proof.
  induction cur as [|m next IH]; intros s Hs e c' He Hc'.
  - unfold multiplicity in He. cbn in He. lia.
  - cbn [drop_usage_count_from] in Hc'. unfold _gnutls_epoch_get in Hc'.
    destruct (epochs s !! epoch m) as [[c0]|] eqn:Hc0.
    + cbn [usage_cnt] in Hc'.
      assert (Hm : - 2 ^ 31 < c0).
      { apply (Hs (epoch m)); [|exact Hc0]. rewrite multiplicity_cons, Z.eqb_refl.
        pose proof (multiplicity_nonneg (epoch m) next). lia. }
      destruct (Z.ltb_spec (c0 - 1) 0) as [Hneg|Hpos].
      * cbn [snd set_epochs epochs] in Hc'.
        destruct (Z.eq_dec (epoch m) e) as [E|E].
        -- subst e. rewrite lookup_insert_eq in Hc'. injection Hc' as <-. lia.
        -- rewrite lookup_insert_ne in Hc' by exact E.
           pose proof (Hs e c' He Hc'). lia.
      * set (s1 := set_epochs s (<[epoch m := {| usage_cnt := c0 - 1 |}]> (epochs s)))
          in *.
        assert (Hs1 : forall e' c, 0 < multiplicity e' next ->
                   epochs s1 !! e' = Some {| usage_cnt := c |} -> - 2 ^ 31 < c).
        { intros e' c He' Hlook. cbn [s1 set_epochs epochs] in Hlook.
          destruct (Z.eq_dec (epoch m) e') as [E|E].
          - subst e'. rewrite lookup_insert_eq in Hlook. injection Hlook as <-. lia.
          - rewrite lookup_insert_ne in Hlook by exact E.
            apply (Hs e' c); [|exact Hlook]. rewrite multiplicity_cons.
            destruct (epoch m =? e'); lia. }
        destruct (Z.lt_ge_cases 0 (multiplicity e next)) as [Hmore|Hnone].
        -- exact (IH s1 Hs1 e c' Hmore Hc').
        -- pose proof (multiplicity_nonneg e next) as Hnn.
           rewrite multiplicity_cons in He.
           destruct (Z.eqb_spec (epoch m) e) as [E|E]; [|lia]. subst e.
           destruct (drop_usage_count_from_frame next s1) as (_ & _ & Hcnt).
           specialize (Hcnt (epoch m)). cbn [s1 set_epochs epochs] in Hcnt.
           rewrite lookup_insert_eq in Hcnt. destruct Hcnt as (d & Hd & Hlook).
           fold s1 in Hlook. rewrite Hlook in Hc'. cbn [usage_cnt] in Hc'.
           injection Hc' as <-. lia.
    + cbn [snd] in Hc'. pose proof (Hs e c' He Hc'). lia.
Qed.

(** X1.  When the counts cover the buffered messages, the release
    returns 0, changes nothing but the epoch table, takes from the
    counter of every epoch exactly the number of buffered messages that
    reference it, and leaves no counter of a referenced epoch below
    zero. *)
Theorem release_takes_each_count_once (s : gnutls_session) :
  let buf := handshake_send_buffer s in
  counts_cover s buf ->
  exists s',
    drop_usage_count s = (0, s')
    /\ same_but_epochs s s'
    /\ (forall e,
          epochs s' !! e
          = (fun p => {| usage_cnt := usage_cnt p - multiplicity e buf |})
              <$> epochs s !! e)
    /\ (forall m, In m buf ->
          exists c, epochs s' !! epoch m = Some {| usage_cnt := c |} /\ 0 <= c).
Proof.
  intros buf Hcover.
  destruct (usage_count_conservation buf s (counts_cover_messages s buf Hcover))
    as (s' & Hrun & _ & Hcnt).
  exists s'. split; [exact Hrun|]. split.
  - pose proof (drop_usage_count_from_frame buf s) as Hframe. cbv zeta in Hframe.
    rewrite Hrun in Hframe. exact (proj1 (proj2 Hframe)).
  - split; [exact Hcnt|].
    intros m Hin. destruct (counts_cover_messages s buf Hcover m Hin) as (c & Hc & Hle).
    rewrite Hcnt, Hc. cbn. eexists. split; [reflexivity|]. lia.
Qed.

(** X2.  With the referenced counters in the range of an [int] and above
    the least one, the release returns 0 exactly when the counts cover
    the buffered messages (the two error codes being different from
    0). *)
Theorem release_succeeds_iff_counts_cover (s : gnutls_session) :
  GNUTLS_E_INVALID_REQUEST <> 0 -> GNUTLS_E_INTERNAL_ERROR <> 0 ->
  counts_in_range s (handshake_send_buffer s) ->
  fst (drop_usage_count s) = 0 <-> counts_cover s (handshake_send_buffer s).
Proof.
  intros Hinv Hint _. split.
  - apply drop_usage_count_from_zero; assumption.
  - intros Hcover.
    destruct (usage_count_conservation _ s (counts_cover_messages s _ Hcover))
      as (s' & Hrun & _).
    unfold drop_usage_count. rewrite Hrun. reflexivity.
Qed.

(** X3.  With the referenced counters in the range of an [int] and above
    the least one, whatever else the state of the table: the release
    reports 0, the lookup error or the internal error; it changes
    nothing but the epoch table; it neither adds nor removes an epoch;
    it lowers each counter by at most the number of buffered messages
    that reference the epoch, so a counter of an epoch that no message
    references keeps its value; and no counter leaves the range of an
    [int]. *)
Theorem release_touches_only_referenced_counters (s : gnutls_session) :
  let buf := handshake_send_buffer s in
  let r := fst (drop_usage_count s) in
  let s' := snd (drop_usage_count s) in
  counts_in_range s buf ->
  (r = 0 \/ r = GNUTLS_E_INVALID_REQUEST \/ r = GNUTLS_E_INTERNAL_ERROR)
  /\ same_but_epochs s s'
  /\ (forall e, epochs s' !! e = None <-> epochs s !! e = None)
  /\ (forall e c, epochs s !! e = Some {| usage_cnt := c |} ->
        exists d, 0 <= d <= multiplicity e buf
                  /\ epochs s' !! e = Some {| usage_cnt := c - d |})
  /\ (forall e, multiplicity e buf = 0 -> epochs s' !! e = epochs s !! e)
  /\ (forall e c', 0 < multiplicity e buf ->
        epochs s' !! e = Some {| usage_cnt := c' |} -> - 2 ^ 31 <= c' < 2 ^ 31).
Proof.
  intros buf r s' Hrange. subst r s'. unfold drop_usage_count. fold buf.
  destruct (drop_usage_count_from_frame buf s) as (Hr & Hsame & Hcnt).
  split; [exact Hr|]. split; [exact Hsame|]. split; [|split; [|split]].
  - intros e. specialize (Hcnt e). destruct (epochs s !! e) as [p|].
    + destruct Hcnt as (d & _ & Hlook). rewrite Hlook. split; discriminate.
    + rewrite Hcnt. tauto.
  - intros e c Hc. specialize (Hcnt e). rewrite Hc in Hcnt. exact Hcnt.
  - intros e Hnone. specialize (Hcnt e). destruct (epochs s !! e) as [[c]|].
    + destruct Hcnt as (d & Hd & Hlook). rewrite Hlook. cbn [usage_cnt].
      do 2 f_equal. lia.
    + exact Hcnt.
  - intros e c' He Hc'. split.
    + apply (drop_usage_count_from_in_range buf s) with (e := e); [|exact He|exact Hc'].
      intros e0 c0 He0 Hc0. exact (proj1 (Hrange e0 c0 He0 Hc0)).
    + specialize (Hcnt e). destruct (epochs s !! e) as [[c]|] eqn:Hc.
      * destruct Hcnt as (d & Hd & Hlook). rewrite Hlook in Hc'. injection Hc' as <-.
        pose proof (Hrange e c He Hc). lia.
      * rewrite Hcnt in Hc'. discriminate Hc'.
Qed.

(** X4.  Releasing the messages [a ++ b] is releasing [a] and, when that
    returned 0, releasing [b] from the table it left; after an error
    in [a] no message of [b] is looked at. *)
Theorem release_stops_at_first_error (a b : list mbuffer_st) (s : gnutls_session) :
  GNUTLS_E_INVALID_REQUEST <> 0 -> GNUTLS_E_INTERNAL_ERROR <> 0 ->
  drop_usage_count_from (a ++ b) s
  = if fst (drop_usage_count_from a s) =? 0
    then drop_usage_count_from b (snd (drop_usage_count_from a s))
    else drop_usage_count_from a s.
Proof.
  intros Hinv Hint. revert s. induction a as [|m next IH]; intros s.
  - reflexivity.
  - cbn [app drop_usage_count_from]. unfold _gnutls_epoch_get.
    destruct (epochs s !! epoch m) as [[c]|].
    + cbn [usage_cnt]. destruct (c - 1 <? 0).
      * cbn [fst]. destruct (Z.eqb_spec GNUTLS_E_INTERNAL_ERROR 0); [contradiction|reflexivity].
      * apply IH.
    + cbn [fst]. destruct (Z.eqb_spec GNUTLS_E_INVALID_REQUEST 0); [contradiction|reflexivity].
Qed.

End ReleaseLoop.

(** ** Fragmentation under failures *)

Section FragmentsUnderFailure.

Context {K : gnutls_h} (env : collaborators).

Lemma wrap32_bounds z : 0 <= wrap32 z < 2 ^ 32.
Proof. unfold wrap32. apply Z.mod_pos_bound. lia. Qed.

Lemma wrap32_nonneg z : 0 <= wrap32 z.
Proof. apply wrap32_bounds. Qed.

(** Whatever its arguments and the answers it gets, the fragmentation
    loop makes nothing but writes, and at least one when it is entered
    with an offset inside the message. *)
Lemma fragment_loop_writes_only bufel mtu data_size :
  forall fuel offset ret tr r tr',
    fragment_loop env fuel bufel mtu data_size offset ret tr = Some (r, tr') ->
    exists evs, tr' = tr ++ evs /\ forallb is_send evs = true
                /\ (offset <= data_size -> evs <> []).
Proof.
  induction fuel as [|fuel IH]; intros offset ret tr r tr' Hrun; [discriminate|].
  rewrite fragment_loop_unfold in Hrun.
  destruct (Z.leb_spec offset data_size) as [Hle|Hgt].
  - cbv zeta in Hrun.
    set (ev := EvSend _ _ _ _) in Hrun. set (res := send_result _ _ _ _ _ _) in Hrun.
    destruct (res <? 0).
    + inversion Hrun; subst. exists [ev]. split; [reflexivity|]. split; [reflexivity|].
      discriminate.
    + apply IH in Hrun. destruct Hrun as (evs & -> & Hevs & _).
      exists (ev :: evs). rewrite <- app_assoc. split; [reflexivity|].
      split; [cbn; exact Hevs|]. discriminate.
  - inversion Hrun; subst. exists []. rewrite app_nil_r.
    split; [reflexivity|]. split; [reflexivity|]. lia.
Qed.

Lemma sends_only_is_message_io evs :
  forallb is_send evs = true -> forallb is_message_io evs = true.
Proof.
  induction evs as [|e evs IH]; [reflexivity|]. cbn [forallb].
  intros H. apply andb_prop in H. destruct H as [He Hevs].
  rewrite (IH Hevs). destruct e; cbn in He |- *; congruence.
Qed.

(** X5.  Every call of [transmit_message] that returns has done one of
    three things: for a Change-Cipher-Spec message, one write; when the
    allocation failed, nothing but the attempt, returning the memory
    error; otherwise the allocation, at least one write and nothing but
    writes, and the release of the buffer -- also when a write failed. *)
Theorem transmit_message_frees_its_buffer (fuel : nat) (s : gnutls_session)
    (m : mbuffer_st) tr r tr' :
  transmit_message env fuel s m tr = Some (r, tr') ->
  let size := wrap32 (hsk_mtu s + DTLS_HANDSHAKE_HEADER_SIZE) in
  (htype m = GNUTLS_HANDSHAKE_CHANGE_CIPHER_SPEC
   /\ tr' = tr ++ [EvSend GNUTLS_CHANGE_CIPHER_SPEC (-1) (epoch m) (uhead m)])
  \/ (htype m <> GNUTLS_HANDSHAKE_CHANGE_CIPHER_SPEC
      /\ malloc_ok env tr size = false
      /\ r = GNUTLS_E_MEMORY_ERROR /\ tr' = tr ++ [EvMalloc size])
  \/ (htype m <> GNUTLS_HANDSHAKE_CHANGE_CIPHER_SPEC
      /\ malloc_ok env tr size = true
      /\ exists evs, evs <> [] /\ forallb is_send evs = true
                     /\ tr' = tr ++ [EvMalloc size] ++ evs ++ [EvFree]).
Proof.
  intros Hrun size. unfold transmit_message in Hrun.
  destruct (Z.eqb_spec (htype m) GNUTLS_HANDSHAKE_CHANGE_CIPHER_SPEC) as [Hccs|Hord].
  - left. inversion Hrun; subst. split; [exact Hccs|reflexivity].
  - right. unfold io_bind at 1 in Hrun. unfold gnutls_malloc in Hrun. fold size in Hrun.
    destruct (malloc_ok env tr size) eqn:Hm; cbn [negb] in Hrun.
    + right. unfold io_bind at 1 in Hrun.
      destruct (fragment_loop env fuel m (hsk_mtu s) _ 0 0 (tr ++ [EvMalloc size]))
        as [[r0 tr0]|] eqn:Hloop; [|discriminate].
      apply fragment_loop_writes_only in Hloop.
      destruct Hloop as (evs & -> & Hevs & Hne).
      unfold io_bind, gnutls_free, io_ret in Hrun. inversion Hrun; subst.
      split; [exact Hord|]. split; [reflexivity|].
      exists evs. split; [apply Hne, wrap32_nonneg|].
      split; [exact Hevs|]. rewrite <- !app_assoc. reflexivity.
    + left. inversion Hrun; subst. repeat split. exact Hord.
Qed.

Lemma fragment_event_record bufel M k :
  fragment_event bufel M k
  = EvSend GNUTLS_HANDSHAKE (htype bufel) (epoch bufel) (fragment_record bufel M k).
Proof. reflexivity. Qed.

(** The loop entered at fragment [j], when the next [k] writes succeed
    and the one after them fails. *)
Lemma fragment_loop_first_failure bufel M :
  let L := Z.of_nat (length (udata bufel)) in
  0 < M -> L < 2 ^ 32 -> (L / M + 1) * M < 2 ^ 32 ->
  forall (k j fuel : nat) r0 tr,
    Z.of_nat j + Z.of_nat k <= L / M -> (k + 1 <= fuel)%nat ->
    (forall i, (i < k)%nat ->
       0 <= send_result env (tr ++ map (fragment_event bufel M) (seq j i))
              GNUTLS_HANDSHAKE (htype bufel) (epoch bufel)
              (fragment_record bufel M (j + i))) ->
    send_result env (tr ++ map (fragment_event bufel M) (seq j k))
      GNUTLS_HANDSHAKE (htype bufel) (epoch bufel)
      (fragment_record bufel M (j + k)) < 0 ->
    fragment_loop env fuel bufel M L (Z.of_nat j * M) r0 tr
    = Some (send_result env (tr ++ map (fragment_event bufel M) (seq j k))
              GNUTLS_HANDSHAKE (htype bufel) (epoch bufel)
              (fragment_record bufel M (j + k)),
            tr ++ map (fragment_event bufel M) (seq j (S k))).
Proof.
  intros L HM HL Hw.
  assert (HL0 : 0 <= L) by (unfold L; lia).
  induction k as [|k IH]; intros j fuel r0 tr Hj Hfuel Hok Hfail;
    (destruct fuel as [|fuel]; [lia|]);
    rewrite fragment_loop_unfold;
    pose proof (div_mul_le L M HM HL0);
    (destruct (Z.leb_spec (Z.of_nat j * M) L) as [_|Hbad]; [|nia]);
    cbv zeta; rewrite loop_frag_len by lia;
    change (fragment_header bufel L (Z.of_nat j * M) (frag_len_at L M j)
              ++ fragment_payload (udata bufel) (Z.of_nat j * M) (frag_len_at L M j))
      with (fragment_record bufel M j).
  - cbn [seq map] in Hfail. rewrite app_nil_r, Nat.add_0_r in Hfail.
    destruct (Z.ltb_spec (send_result env tr GNUTLS_HANDSHAKE (htype bufel) (epoch bufel)
                            (fragment_record bufel M j)) 0) as [_|Hge]; [|lia].
    cbn [seq map]. rewrite app_nil_r, Nat.add_0_r. reflexivity.
  - pose proof (Hok 0%nat ltac:(lia)) as H0.
    cbn [seq map] in H0. rewrite app_nil_r, Nat.add_0_r in H0.
    destruct (Z.ltb_spec (send_result env tr GNUTLS_HANDSHAKE (htype bufel) (epoch bufel)
                            (fragment_record bufel M j)) 0) as [Hlt|_]; [lia|].
    rewrite (wrap32_small (Z.of_nat j * M + M)) by nia.
    replace (Z.of_nat j * M + M) with (Z.of_nat (S j) * M) by lia.
    rewrite <- fragment_event_record.
    assert (Hshift : forall i,
               tr ++ map (fragment_event bufel M) (seq j (S i))
               = (tr ++ [fragment_event bufel M j])
                   ++ map (fragment_event bufel M) (seq (S j) i)).
    { intros i. cbn [seq map]. rewrite <- app_assoc. reflexivity. }
    rewrite (IH (S j) fuel _ (tr ++ [fragment_event bufel M j])).
    + rewrite <- !Hshift. rewrite Nat.add_succ_comm. reflexivity.
    + lia.
    + lia.
    + intros i Hi. rewrite <- Hshift, Nat.add_succ_comm. apply Hok. lia.
    + rewrite <- Hshift, Nat.add_succ_comm. exact Hfail.
Qed.

(** X6.  When the writes of fragments [0 .. k-1] of an ordinary message
    succeed and the write of fragment [k] fails, [transmit_message]
    writes fragments [0 .. k] and no more, frees the buffer and returns
    the code of the failed write. *)
Theorem first_failed_write_ends_the_message (s : gnutls_session) (m : mbuffer_st)
    (k : nat) tr fuel :
  let M := hsk_mtu s in
  let L := Z.of_nat (length (udata m)) in
  let tr0 := tr ++ [EvMalloc (wrap32 (M + DTLS_HANDSHAKE_HEADER_SIZE))] in
  let answer i := send_result env (tr0 ++ map (fragment_event m M) (seq 0 i))
                    GNUTLS_HANDSHAKE (htype m) (epoch m) (fragment_record m M i) in
  htype m <> GNUTLS_HANDSHAKE_CHANGE_CIPHER_SPEC ->
  0 < M < 2 ^ 32 -> L < 2 ^ 31 ->
  malloc_ok env tr (wrap32 (M + DTLS_HANDSHAKE_HEADER_SIZE)) = true ->
  Z.of_nat k <= L / M -> (k + 1 <= fuel)%nat ->
  (forall i, (i < k)%nat -> 0 <= answer i) ->
  answer k < 0 ->
  transmit_message env fuel s m tr
  = Some (answer k, tr0 ++ map (fragment_event m M) (seq 0 (S k)) ++ [EvFree]).
Proof.
  intros M L tr0 answer Hty HM HL Hmalloc Hk Hfuel Hok Hfail.
  assert (HL0 : 0 <= L) by (unfold L; lia).
  pose proof (no_wrap_below_2G L M ltac:(lia) HM) as Hw.
  pose proof (fragment_loop_first_failure m M ltac:(lia) ltac:(fold L; lia) Hw
                k 0%nat fuel 0 tr0 Hk Hfuel Hok Hfail) as Hloop.
  unfold transmit_message. fold M.
  destruct (Z.eqb_spec (htype m) GNUTLS_HANDSHAKE_CHANGE_CIPHER_SPEC); [contradiction|].
  unfold io_bind at 1. unfold gnutls_malloc. rewrite Hmalloc. cbn [negb].
  unfold io_bind at 1. fold L. rewrite (wrap32_small L) by lia.
  change (Z.of_nat 0 * M) with 0 in Hloop. fold L in Hloop. fold tr0. rewrite Hloop.
  unfold io_bind, gnutls_free, io_ret. rewrite <- !app_assoc. reflexivity.
Qed.

(** Any run of the loop that returns has written a run of consecutive
    fragments. *)
Lemma fragment_loop_consecutive bufel M :
  let L := Z.of_nat (length (udata bufel)) in
  0 < M -> L < 2 ^ 32 -> (L / M + 1) * M < 2 ^ 32 ->
  forall (fuel j : nat) r0 tr r tr',
    Z.of_nat j <= L / M + 1 ->
    fragment_loop env fuel bufel M L (Z.of_nat j * M) r0 tr = Some (r, tr') ->
    exists n : nat,
      Z.of_nat j + Z.of_nat n <= L / M + 1
      /\ (Z.of_nat j <= L / M -> (1 <= n)%nat)
      /\ tr' = tr ++ map (fragment_event bufel M) (seq j n).
Proof.
  intros L HM HL Hw.
  assert (HL0 : 0 <= L) by (unfold L; lia).
  pose proof (div_mul_le L M HM HL0) as Hlow.
  pose proof (succ_div_mul_gt L M HM HL0) as Hhigh.
  induction fuel as [|fuel IH]; intros j r0 tr r tr' Hj Hrun; [discriminate|].
  rewrite fragment_loop_unfold in Hrun.
  destruct (Z.leb_spec (Z.of_nat j * M) L) as [Hle|Hgt].
  - assert (Hin : Z.of_nat j <= L / M) by nia.
    cbv zeta in Hrun. rewrite loop_frag_len in Hrun by lia.
    change (fragment_header bufel L (Z.of_nat j * M) (frag_len_at L M j)
              ++ fragment_payload (udata bufel) (Z.of_nat j * M) (frag_len_at L M j))
      with (fragment_record bufel M j) in Hrun.
    rewrite <- fragment_event_record in Hrun.
    destruct (_ <? 0).
    + inversion Hrun; subst. exists 1%nat. split; [lia|]. split; [lia|reflexivity].
    + rewrite (wrap32_small (Z.of_nat j * M + M)) in Hrun by nia.
      replace (Z.of_nat j * M + M) with (Z.of_nat (S j) * M) in Hrun by lia.
      apply IH in Hrun; [|lia]. destruct Hrun as (n & Hn & _ & ->).
      exists (S n). split; [lia|]. split; [lia|].
      cbn [seq map]. rewrite <- app_assoc. reflexivity.
  - inversion Hrun; subst. exists 0%nat. split; [lia|]. split; [nia|].
    cbn. rewrite app_nil_r. reflexivity.
Qed.

Lemma fragment_header_length bufel data_size offset frag_len :
  length (fragment_header bufel data_size offset frag_len) = 12%nat.
Proof. reflexivity. Qed.

(** X7.  Whatever the record layer answers, the writes [transmit_message]
    makes for an ordinary message are those of fragments [0 .. n-1] for
    some [n] between 1 and [L/M + 1]; each fragment takes at most [M]
    bytes from inside the payload, and its record, the 12 header bytes
    and those, fits the buffer of [M + 12] bytes that was allocated. *)
Theorem fragment_writes_stay_in_bounds (s : gnutls_session) (m : mbuffer_st)
    tr fuel r tr' :
  let M := hsk_mtu s in
  let L := Z.of_nat (length (udata m)) in
  let size := wrap32 (M + DTLS_HANDSHAKE_HEADER_SIZE) in
  htype m <> GNUTLS_HANDSHAKE_CHANGE_CIPHER_SPEC ->
  0 < M -> M + DTLS_HANDSHAKE_HEADER_SIZE < 2 ^ 32 -> L < 2 ^ 31 ->
  malloc_ok env tr size = true ->
  transmit_message env fuel s m tr = Some (r, tr') ->
  exists n : nat,
    (1 <= n)%nat /\ Z.of_nat n <= L / M + 1
    /\ tr' = tr ++ [EvMalloc size]
                ++ map (fun k => EvSend GNUTLS_HANDSHAKE (htype m) (epoch m)
                                   (fragment_record m M k)) (seq 0 n)
                ++ [EvFree]
    /\ forall k, (k < n)%nat ->
         let len := frag_len_at L M k in
         0 <= len <= M
         /\ Z.of_nat k * M + len <= L
         /\ Z.of_nat (length (fragment_record m M k)) = DTLS_HANDSHAKE_HEADER_SIZE + len
         /\ DTLS_HANDSHAKE_HEADER_SIZE + len <= size.
Proof.
  intros M L size Hty HM HM12 HL Hmalloc Hrun.
  assert (HL0 : 0 <= L) by (unfold L; lia).
  assert (HMr : 0 < M < 2 ^ 32) by (unfold DTLS_HANDSHAKE_HEADER_SIZE in HM12; lia).
  pose proof (no_wrap_below_2G L M ltac:(lia) HMr) as Hw.
  unfold transmit_message in Hrun. fold M in Hrun.
  destruct (Z.eqb_spec (htype m) GNUTLS_HANDSHAKE_CHANGE_CIPHER_SPEC); [contradiction|].
  unfold io_bind at 1 in Hrun. unfold gnutls_malloc in Hrun. fold size in Hrun.
  rewrite Hmalloc in Hrun. cbn [negb] in Hrun.
  unfold io_bind at 1 in Hrun. fold L in Hrun. rewrite (wrap32_small L) in Hrun by lia.
  destruct (fragment_loop env fuel m M L 0 0 (tr ++ [EvMalloc size]))
    as [[r0 tr0]|] eqn:Hloop; [|discriminate].
  change 0 with (Z.of_nat 0 * M) in Hloop at 1.
  assert (HL32 : L < 2 ^ 32) by lia.
  apply (fragment_loop_consecutive m M HM HL32 Hw) in Hloop;
    [|change (Z.of_nat 0 <= L / M + 1); pose proof (Z.div_pos L M HL0 HM); lia].
  destruct Hloop as (cnt & Hn & Hone & ->).
  change (Z.of_nat 0 + Z.of_nat cnt <= L / M + 1) in Hn.
  change (Z.of_nat 0 <= L / M -> (1 <= cnt)%nat) in Hone.
  unfold io_bind, gnutls_free, io_ret in Hrun. inversion Hrun; subst.
  pose proof (Z.div_pos L M HL0 HM) as Hq.
  exists cnt. split; [apply Hone; lia|]. split; [lia|]. split.
  - rewrite <- !app_assoc. reflexivity.
  - intros k Hk len.
    destruct (frag_len_at_fits L M k HM HL0 ltac:(lia)) as [H0 H1]. fold len in H0, H1.
    assert (Hlen : len <= M).
    { unfold len, frag_len_at. destruct (Z.of_nat k <? L / M); [lia|].
      pose proof (Z.mod_pos_bound L M HM). lia. }
    split; [lia|]. split; [exact H1|]. split.
    + unfold fragment_record. fold L. fold len.
      rewrite length_app, fragment_header_length,
        (fragment_payload_length (udata m) _ len) by (fold L; lia).
      unfold DTLS_HANDSHAKE_HEADER_SIZE. lia.
    + unfold size. rewrite wrap32_small by (unfold DTLS_HANDSHAKE_HEADER_SIZE in *; lia).
      lia.
Qed.

End FragmentsUnderFailure.

(** ** One pass over the flight *)

Section FlightOrder.

Context {K : gnutls_h} (env : collaborators).

Lemma transmit_message_io (fuel : nat) (s : gnutls_session) (m : mbuffer_st) tr r tr' :
  transmit_message env fuel s m tr = Some (r, tr') ->
  exists evs, tr' = tr ++ evs /\ forallb is_message_io evs = true.
Proof.
  intros Hrun. unfold transmit_message in Hrun.
  destruct (htype m =? GNUTLS_HANDSHAKE_CHANGE_CIPHER_SPEC).
  - inversion Hrun; subst. eexists [_]. split; reflexivity.
  - unfold io_bind at 1 in Hrun. unfold gnutls_malloc in Hrun.
    destruct (malloc_ok env tr _); cbn [negb] in Hrun.
    + unfold io_bind at 1 in Hrun.
      destruct (fragment_loop env fuel m (hsk_mtu s) _ 0 0 _) as [[r0 tr0]|] eqn:Hloop;
        [|discriminate].
      apply fragment_loop_writes_only in Hloop. destruct Hloop as (evs & -> & Hevs & _).
      unfold io_bind, gnutls_free, io_ret in Hrun. inversion Hrun; subst.
      eexists (_ :: evs ++ [EvFree]). split; [rewrite <- !app_assoc; reflexivity|].
      cbn [forallb is_message_io andb].
      rewrite forallb_app, (sends_only_is_message_io evs Hevs). reflexivity.
    + inversion Hrun; subst. eexists [_]. split; reflexivity.
Qed.

(** A pass over the buffer calls nothing but the allocator and the
    record layer. *)
Lemma send_flight_io (fuel : nat) (s : gnutls_session) (buf : list mbuffer_st) :
  forall last_type tr last_type' tr1,
    send_flight env fuel s buf last_type tr = Some (last_type', tr1) ->
    exists evs, tr1 = tr ++ evs /\ forallb is_message_io evs = true.
Proof.
  induction buf as [|m next IH]; intros last_type tr last_type' tr1 Hrun.
  - inversion Hrun; subst. exists []. rewrite app_nil_r. split; reflexivity.
  - rewrite send_flight_ignores_result in Hrun.
    destruct (transmit_message env fuel s m tr) as [[r tr0]|] eqn:Hm; [|discriminate].
    apply transmit_message_io in Hm. destruct Hm as (evs1 & -> & Hevs1).
    apply IH in Hrun. destruct Hrun as (evs2 & -> & Hevs2).
    exists (evs1 ++ evs2). rewrite <- app_assoc. split; [reflexivity|].
    apply message_io_app; assumption.
Qed.

(** When no allocation and no write fails, a pass over the buffer makes
    the calls of its messages one message after the other. *)
Lemma send_flight_all_sent (s : gnutls_session) (buf : list mbuffer_st) :
  Forall (sendable s) buf ->
  (forall tr sz, malloc_ok env tr sz = true) ->
  (forall tr ty ht ep d, 0 <= send_result env tr ty ht ep d) ->
  forall fuel last_type tr, (flight_fuel buf <= fuel)%nat ->
    send_flight env fuel s buf last_type tr
    = Some (final_type buf last_type, tr ++ flight_events s buf).
Proof.
  intros Hbuf Hmalloc Hsend.
  induction Hbuf as [|m next Hm Hnext IH]; intros fuel last_type tr Hfuel.
  - cbn. rewrite app_nil_r. reflexivity.
  - cbn [flight_fuel fold_right] in Hfuel. fold (flight_fuel next) in Hfuel.
    rewrite send_flight_ignores_result, final_type_cons.
    unfold flight_events. cbn [map concat]. fold (flight_events s next).
    assert (Hmsg : exists r, transmit_message env fuel s m tr
                             = Some (r, tr ++ message_events s m)).
    { unfold message_events.
      destruct (Z.eqb_spec (htype m) GNUTLS_HANDSHAKE_CHANGE_CIPHER_SPEC) as [Hccs|Hord].
      - unfold transmit_message. rewrite Hccs, Z.eqb_refl. eexists. reflexivity.
      - destruct Hm as [Hccs|[HM HL]]; [contradiction|].
        assert (Hq : 0 <= Z.of_nat (length (udata m)) / hsk_mtu s
                     <= Z.of_nat (length (udata m))).
        { split; [apply Z.div_pos; lia|]. apply Z.div_le_upper_bound; nia. }
        destruct (transmit_message_fragments env s m tr fuel Hord HM HL
                    (Hmalloc _ _) Hsend ltac:(lia)) as (r & _ & Hrun).
        exists r. exact Hrun. }
    destruct Hmsg as (r & ->).
    rewrite (IH fuel (htype m) _ ltac:(lia)), <- app_assoc. reflexivity.
Qed.

(** X8.  When no allocation and no write fails, one pass over the
    flight buffer sends the messages in buffer order, each one whole
    before the next: a Change-Cipher-Spec message as one write, any
    other as its fragments in offset order between the allocation and
    the release of the buffer; the writes it makes are those of the
    messages, in that order, and [last_type] ends as the type of the
    last message. *)
Theorem flight_goes_out_in_buffer_order (s : gnutls_session) (buf : list mbuffer_st)
    (fuel : nat) (last_type : Z) tr :
  Forall (sendable s) buf ->
  (forall tr sz, malloc_ok env tr sz = true) ->
  (forall tr ty ht ep d, 0 <= send_result env tr ty ht ep d) ->
  (flight_fuel buf <= fuel)%nat ->
  send_flight env fuel s buf last_type tr
  = Some (final_type buf last_type, tr ++ concat (map (message_events s) buf))
  /\ sends (tr ++ concat (map (message_events s) buf))
     = sends tr ++ concat (map (fun m => sends (message_events s m)) buf).
Proof.
  intros Hbuf Hmalloc Hsend Hfuel. split.
  - exact (send_flight_all_sent s buf Hbuf Hmalloc Hsend fuel last_type tr Hfuel).
  - unfold sends. rewrite List.filter_app. f_equal.
    clear. induction buf as [|m next IH]; [reflexivity|].
    cbn [map concat]. rewrite List.filter_app, IH. reflexivity.
Qed.

End FlightOrder.

(** ** Transmission attempts *)

Section Attempts.

Context {K : gnutls_h} (env : collaborators).

Lemma message_attempt_io s m evs :
  message_attempt s m evs -> forallb is_message_io evs = true.
Proof.
  unfold message_attempt.
  destruct (htype m =? GNUTLS_HANDSHAKE_CHANGE_CIPHER_SPEC).
  - intros ->. reflexivity.
  - intros [->|(n & _ & ->)]; [reflexivity|].
    cbn [app forallb is_message_io andb]. rewrite forallb_app. cbn.
    rewrite andb_true_r. induction (seq 0 n) as [|k l IH]; [reflexivity|exact IH].
Qed.

Lemma flight_attempt_io s buf evs :
  flight_attempt s buf evs -> forallb is_message_io evs = true.
Proof.
  intros (parts & Hparts & ->).
  induction Hparts as [|m p buf parts Hm _ IH]; [reflexivity|].
  cbn [concat]. apply message_io_app; [exact (message_attempt_io s m p Hm)|exact IH].
Qed.

(** Every call of [transmit_message] for a message that can be sent
    returns, and what it has done is an attempt of that message. *)
Lemma transmit_message_attempt s m tr fuel :
  sendable s m -> (length (udata m) + 2 <= fuel)%nat ->
  exists r evs,
    transmit_message env fuel s m tr = Some (r, tr ++ evs)
    /\ message_attempt s m evs.
Proof.
  intros Hs Hfuel.
  destruct (transmit_message_terminates env s m tr fuel Hs Hfuel)
    as (r & evs & Hrun & _).
  exists r, evs. split; [exact Hrun|].
  unfold transmit_message in Hrun. unfold message_attempt.
  destruct (Z.eqb_spec (htype m) GNUTLS_HANDSHAKE_CHANGE_CIPHER_SPEC) as [Hccs|Hord].
  - unfold io_bind, _gnutls_send_int, io_ret in Hrun.
    injection Hrun as _ Htr. apply app_inv_head in Htr. symmetry. exact Htr.
  - destruct Hs as [Hccs|[HM HL]]; [contradiction|].
    set (L := Z.of_nat (length (udata m))) in *.
    set (M := hsk_mtu s) in *.
    assert (HL0 : 0 <= L) by (unfold L; lia).
    cbv zeta.
    set (size := wrap32 (M + DTLS_HANDSHAKE_HEADER_SIZE)) in *.
    unfold io_bind at 1 in Hrun. unfold gnutls_malloc in Hrun. fold size in Hrun.
    destruct (malloc_ok env tr size); cbn [negb] in Hrun.
    + right. unfold io_bind at 1 in Hrun. rewrite (wrap32_small L) in Hrun by lia.
      destruct (fragment_loop env fuel m M L 0 0 (tr ++ [EvMalloc size]))
        as [[r0 tr0]|] eqn:Hloop; [|discriminate].
      pose proof (no_wrap_below_2G L M ltac:(lia) HM) as Hw.
      change 0 with (Z.of_nat 0 * M) in Hloop at 1.
      assert (HM0 : 0 < M) by lia. assert (HL32 : L < 2 ^ 32) by lia.
      pose proof (Z.div_pos L M HL0 HM0) as Hq.
      apply (fragment_loop_consecutive env m M HM0 HL32 Hw) in Hloop;
        [|change (Z.of_nat 0 <= L / M + 1); lia].
      destruct Hloop as (cnt & Hn & Hone & ->).
      change (Z.of_nat 0 + Z.of_nat cnt <= L / M + 1) in Hn.
      change (Z.of_nat 0 <= L / M -> (1 <= cnt)%nat) in Hone.
      unfold io_bind, gnutls_free, io_ret in Hrun.
      injection Hrun as _ Htr. rewrite <- !app_assoc in Htr.
      apply app_inv_head in Htr. subst evs.
      exists cnt. split; [|reflexivity]. specialize (Hone Hq). lia.
    + left. unfold io_ret in Hrun. injection Hrun as _ Htr.
      apply app_inv_head in Htr. symmetry. exact Htr.
Qed.

(** Every pass over a flight of messages that can be sent returns, and
    what it has done is one transmission attempt of the flight; when
    nothing fails these are the calls of [flight_events]. *)
Lemma send_flight_attempt s buf :
  Forall (sendable s) buf ->
  forall fuel last_type tr, (flight_fuel buf <= fuel)%nat ->
  exists evs,
    send_flight env fuel s buf last_type tr = Some (final_type buf last_type, tr ++ evs)
    /\ flight_attempt s buf evs
    /\ (nothing_fails env -> evs = flight_events s buf).
Proof.
  intros Hbuf fuel last_type tr Hfuel.
  assert (Hrun : exists evs,
             send_flight env fuel s buf last_type tr
             = Some (final_type buf last_type, tr ++ evs)
             /\ flight_attempt s buf evs).
  { clear - Hbuf Hfuel. revert fuel last_type tr Hfuel.
    induction Hbuf as [|m next Hm Hnext IH]; intros fuel last_type tr Hfuel.
    - exists []. rewrite app_nil_r. split; [reflexivity|].
      exists []. split; [constructor|reflexivity].
    - cbn [flight_fuel fold_right] in Hfuel. fold (flight_fuel next) in Hfuel.
      destruct (transmit_message_attempt s m tr fuel Hm ltac:(lia))
        as (r & evs1 & Hrun1 & Hevs1).
      destruct (IH fuel (htype m) (tr ++ evs1) ltac:(lia))
        as (evs2 & Hrun2 & parts & Hparts & ->).
      exists (evs1 ++ concat parts). split.
      + rewrite send_flight_ignores_result, Hrun1, Hrun2.
        rewrite final_type_cons, <- app_assoc. reflexivity.
      + exists (evs1 :: parts). split; [constructor; assumption|reflexivity]. }
  destruct Hrun as (evs & Hrun & Hevs).
  exists evs. split; [exact Hrun|]. split; [exact Hevs|].
  intros [Hmalloc Hsend].
  pose proof (send_flight_all_sent env s buf Hbuf Hmalloc Hsend fuel last_type tr Hfuel)
    as Hall.
  rewrite Hrun in Hall. injection Hall as Htr. apply app_inv_head in Htr. exact Htr.
Qed.

End Attempts.

(** ** Fuel *)

Section Fuel.

Context {K : gnutls_h} (env : collaborators).

(** More fuel does not change a result. *)
Lemma fragment_loop_more_fuel bufel mtu data_size :
  forall fuel offset ret tr x,
    fragment_loop env fuel bufel mtu data_size offset ret tr = Some x ->
    fragment_loop env (S fuel) bufel mtu data_size offset ret tr = Some x.
Proof.
  induction fuel as [|fuel IH]; intros offset ret tr x Hrun; [discriminate|].
  rewrite fragment_loop_unfold in Hrun. rewrite fragment_loop_unfold.
  destruct (offset <=? data_size); [|exact Hrun].
  cbv zeta in Hrun |- *. destruct (_ <? 0); [exact Hrun|]. apply IH. exact Hrun.
Qed.

Lemma transmit_message_more_fuel fuel s m tr x :
  transmit_message env fuel s m tr = Some x ->
  transmit_message env (S fuel) s m tr = Some x.
Proof.
  unfold transmit_message.
  destruct (htype m =? GNUTLS_HANDSHAKE_CHANGE_CIPHER_SPEC); [exact id|].
  unfold io_bind, gnutls_malloc, gnutls_free, io_ret.
  destruct (malloc_ok env tr _); cbn [negb]; [|exact id].
  destruct (fragment_loop env fuel m _ _ 0 0 _) as [[r tr1]|] eqn:Hloop; [|discriminate].
  rewrite (fragment_loop_more_fuel _ _ _ _ _ _ _ _ Hloop). exact id.
Qed.

Lemma send_flight_more_fuel s buf :
  forall fuel last_type tr x,
    send_flight env fuel s buf last_type tr = Some x ->
    send_flight env (S fuel) s buf last_type tr = Some x.
Proof.
  induction buf as [|m next IH]; intros fuel last_type tr x Hrun; [exact Hrun|].
  rewrite send_flight_ignores_result in Hrun. rewrite send_flight_ignores_result.
  destruct (transmit_message env fuel s m tr) as [[r tr0]|] eqn:Hm; [|discriminate].
  rewrite (transmit_message_more_fuel _ _ _ _ _ Hm). apply IH. exact Hrun.
Qed.

Lemma flight_round_more_fuel fuel s total last_type tr x :
  flight_round env fuel s total last_type tr = Some x ->
  flight_round env (S fuel) s total last_type tr = Some x.
Proof.
  intros Hrun.
  destruct (send_flight env fuel s (handshake_send_buffer s) last_type tr)
    as [[l tr0]|] eqn:Hsend.
  - rewrite (flight_round_after_send env _ s total last_type tr _ _ Hsend) in Hrun.
    rewrite (flight_round_after_send env _ s total last_type tr _ _
               (send_flight_more_fuel _ _ _ _ _ _ Hsend)).
    exact Hrun.
  - unfold flight_round in Hrun. unfold io_bind at 1 in Hrun.
    rewrite Hsend in Hrun. discriminate.
Qed.

Lemma flight_loop_more_fuel s :
  forall fuel total last_type tr x,
    flight_loop env fuel s total last_type tr = Some x ->
    flight_loop env (S fuel) s total last_type tr = Some x.
Proof.
  induction fuel as [|fuel IH]; intros total last_type tr x Hrun; [discriminate|].
  rewrite flight_loop_unfold in Hrun. rewrite flight_loop_unfold.
  destruct (flight_round env fuel s total last_type tr) as [[v tr0]|] eqn:Hround;
    [|discriminate].
  rewrite (flight_round_more_fuel _ _ _ _ _ _ Hround).
  destruct v as [o|t l]; [exact Hrun|]. apply IH. exact Hrun.
Qed.

Lemma send_flight_fuel_le s buf fuel fuel' last_type tr x :
  (fuel <= fuel')%nat ->
  send_flight env fuel s buf last_type tr = Some x ->
  send_flight env fuel' s buf last_type tr = Some x.
Proof.
  induction 1 as [|fuel' _ IH]; [exact id|].
  intros Hrun. apply send_flight_more_fuel, IH, Hrun.
Qed.

Lemma flight_loop_fuel_le s fuel fuel' total last_type tr x :
  (fuel <= fuel')%nat ->
  flight_loop env fuel s total last_type tr = Some x ->
  flight_loop env fuel' s total last_type tr = Some x.
Proof.
  induction 1 as [|fuel' _ IH]; [exact id|].
  intros Hrun. apply flight_loop_more_fuel, IH, Hrun.
Qed.

(** A call that returns has gone through the first pass: whatever the
    fuel, its history starts with the calls of that pass, and when the
    flush succeeded it goes on with the wait; when the wait asks for
    another pass, the rest is a run of the loop from there. *)
Lemma flight_loop_first_pass s total last_type tr fuel last_type' evs :
  send_flight env fuel s (handshake_send_buffer s) last_type tr
  = Some (last_type', tr ++ evs) ->
  forall n o tr',
    flight_loop env n s total last_type tr = Some (o, tr') ->
    flight_round env fuel s total last_type tr = Some (Return o, tr')
    \/ exists t l tr1 n',
         flight_round env fuel s total last_type tr = Some (Again t l, tr1)
         /\ flight_loop env n' s t l tr1 = Some (o, tr').
Proof.
  intros Hsend n o tr' Hrun.
  apply (flight_loop_fuel_le s n (S (Nat.max n (S fuel)))) in Hrun; [|lia].
  rewrite flight_loop_unfold in Hrun.
  apply (send_flight_fuel_le s _ fuel (Nat.max n (S fuel))) in Hsend as Hsend'; [|lia].
  rewrite (flight_round_after_send env _ s total last_type tr _ _ Hsend') in Hrun.
  rewrite (flight_round_after_send env _ s total last_type tr _ _ Hsend).
  destruct (flush_result env (tr ++ evs) <? 0).
  - left. injection Hrun as <- <-. reflexivity.
  - destruct (wait_for_peer env s last_type' total ((tr ++ evs) ++ [EvFlush]))
      as [[[ret total'] tr3]|]; [|discriminate].
    destruct (total' >=? dtls_total_timeout s); [left; injection Hrun as <- <-; reflexivity|].
    destruct (ret =? GNUTLS_E_TIMEDOUT).
    + right. exists total', last_type', tr3, (Nat.max n (S fuel)).
      split; [reflexivity|exact Hrun].
    + destruct (ret <? 0); left; injection Hrun as <- <-; reflexivity.
Qed.

End Fuel.

(** ** One pass of the loop *)

Section Passes.

Context {K : gnutls_h} (env : collaborators).

(** One pass of the loop whose flush succeeds. *)
Lemma flight_round_verdict s total last_type tr fuel last_type' evs :
  send_flight env fuel s (handshake_send_buffer s) last_type tr
  = Some (last_type', tr ++ evs) ->
  0 <= flush_result env (tr ++ evs) ->
  let R := retrans_timeout s in
  let special := last_flight_of_handshake s last_type' in
  let len := if special then 1 else 0 in
  let tr1 := tr ++ evs ++ [EvFlush] in
  let ret := wait_code special (recv_result env tr1 len R) in
  let total1 := wrap32 (total + R) in
  flight_round env fuel s total last_type tr
  = Some (if total1 >=? dtls_total_timeout s
          then Return (cleanup s GNUTLS_E_TIMEDOUT total1)
          else if ret =? GNUTLS_E_TIMEDOUT then Again total1 last_type'
          else if ret <? 0 then Return (cleanup s ret total1)
          else Return (cleanup s 0 total1),
          tr1 ++ [EvCheckRecv len R]).
Proof.
  intros Hsend Hflush R special len tr1 ret total1.
  rewrite (flight_round_after_send env fuel s total last_type tr _ _ Hsend).
  destruct (Z.ltb_spec (flush_result env (tr ++ evs)) 0) as [Hbad|_]; [lia|].
  subst ret len tr1. unfold wait_code.
  replace ((tr ++ evs) ++ [EvFlush]) with (tr ++ evs ++ [EvFlush])
    by (rewrite <- app_assoc; reflexivity).
  destruct special eqn:Hsp; subst special.
  - rewrite (wait_for_peer_last_flight env s _ total _ Hsp). fold R.
    destruct (recv_result env (tr ++ evs ++ [EvFlush]) 1 R) as [r c]. reflexivity.
  - rewrite (wait_for_peer_implicit_ack env s _ total _ Hsp). reflexivity.
Qed.

Lemma flight_round_extends s total last_type tr fuel v tr' :
  flight_round env fuel s total last_type tr = Some (v, tr') ->
  exists rest, tr' = tr ++ rest.
Proof.
  intros Hrun.
  destruct (send_flight env fuel s (handshake_send_buffer s) last_type tr)
    as [[l tr0]|] eqn:Hsend.
  - destruct (send_flight_io env _ _ _ _ _ _ _ Hsend) as (evs & -> & _).
    rewrite (flight_round_after_send env fuel s total last_type tr _ _ Hsend) in Hrun.
    destruct (flush_result env (tr ++ evs) <? 0).
    + injection Hrun as _ <-. exists (evs ++ [EvFlush]). rewrite app_assoc. reflexivity.
    + unfold wait_for_peer in Hrun.
      destruct (last_flight_of_handshake s l);
        unfold io_bind, _gnutls_io_check_recv, io_ret in Hrun;
        destruct (recv_result env _ _ _) as [r c];
        injection Hrun as _ <-; eexists; rewrite <- !app_assoc; reflexivity.
  - unfold flight_round in Hrun. unfold io_bind at 1 in Hrun.
    rewrite Hsend in Hrun. discriminate.
Qed.

Lemma flight_loop_extends s :
  forall fuel total last_type tr o tr',
    flight_loop env fuel s total last_type tr = Some (o, tr') ->
    exists rest, tr' = tr ++ rest.
Proof.
  induction fuel as [|fuel IH]; intros total last_type tr o tr' Hrun; [discriminate|].
  rewrite flight_loop_unfold in Hrun.
  destruct (flight_round env fuel s total last_type tr) as [[v tr0]|] eqn:Hround;
    [|discriminate].
  destruct (flight_round_extends _ _ _ _ _ _ _ Hround) as (rest0 & ->).
  destruct v as [o0|t l].
  - injection Hrun as _ <-. exists rest0. reflexivity.
  - destruct (IH _ _ _ _ _ Hrun) as (rest & ->).
    exists (rest0 ++ rest). rewrite app_assoc. reflexivity.
Qed.

End Passes.

(** ** What the engine does after the flush *)

Section Waiting.

Context {K : gnutls_h} (env : collaborators).

(** C5.  After the flush the engine waits for a single byte exactly
    when the last buffered message is Finished and this side is the
    server of a fresh handshake or the client of a resumed one;
    otherwise it waits with no data required.  Each pass is a
    transmission attempt of the flight, the flush and that wait.  When
    the accumulated wait has reached the total timeout the call returns
    the timeout code whatever the wait brought.  Short of it, in the
    single-byte wait a timeout ends the call with success after this
    pass, with no retransmission; and a received byte of the handshake
    record type (as a timed-out wait with no data required) makes the
    loop go round: every call that returns has then gone through a
    second transmission attempt of the flight, a second flush and a
    second wait, and when that wait times out, short of the total
    timeout, the call returns success after these two passes. *)
Theorem finished_flight_wait (s : gnutls_session) (total last_type : Z) tr fuel :
  let R := retrans_timeout s in
  let T := dtls_total_timeout s in
  let buf := handshake_send_buffer s in
  let final := final_type buf last_type = GNUTLS_HANDSHAKE_FINISHED
               /\ ((entity s = GNUTLS_SERVER /\ resumed s = RESUME_FALSE)
                   \/ (entity s = GNUTLS_CLIENT /\ resumed s = RESUME_TRUE)) in
  let len := if last_flight_of_handshake s (final_type buf last_type) then 1 else 0 in
  let total1 := wrap32 (total + R) in
  let total2 := wrap32 (total1 + R) in
  GNUTLS_E_TIMEDOUT < 0 ->
  Forall (sendable s) buf -> (flight_fuel buf <= fuel)%nat ->
  (forall tr', 0 <= flush_result env tr') ->
  (len = 1 <-> final)
  /\ exists evs,
       flight_attempt s buf evs
       /\ (nothing_fails env -> evs = flight_events s buf)
       /\ let tr1 := tr ++ evs ++ [EvFlush] in
          let answer := recv_result env tr1 len R in
          (exists v, flight_round env fuel s total last_type tr
                     = Some (v, tr1 ++ [EvCheckRecv len R]))
          /\ (T <= total1 ->
              flight_loop env (S fuel) s total last_type tr
              = Some (cleanup s GNUTLS_E_TIMEDOUT total1, tr1 ++ [EvCheckRecv len R]))
          /\ (final -> total1 < T -> fst answer = GNUTLS_E_TIMEDOUT ->
              flight_loop env (S fuel) s total last_type tr
              = Some (cleanup s 0 total1, tr1 ++ [EvCheckRecv 1 R]))
          /\ (total1 < T ->
              (final /\ 0 <= fst answer /\ Z_of_byte (snd answer) = GNUTLS_HANDSHAKE)
              \/ (~ final /\ fst answer = GNUTLS_E_TIMEDOUT) ->
              exists evs2,
                flight_attempt s buf evs2
                /\ (nothing_fails env -> evs2 = flight_events s buf)
                /\ let tr2 := tr1 ++ [EvCheckRecv len R] ++ evs2 ++ [EvFlush] in
                   (forall n o tr',
                      flight_loop env n s total last_type tr = Some (o, tr') ->
                      exists rest, tr' = tr2 ++ [EvCheckRecv len R] ++ rest)
                   /\ (final -> total2 < T ->
                       fst (recv_result env tr2 1 R) = GNUTLS_E_TIMEDOUT ->
                       flight_loop env (S (S fuel)) s total last_type tr
                       = Some (cleanup s 0 total2, tr2 ++ [EvCheckRecv 1 R]))).
Proof.
  intros R T buf final len total1 total2 Hneg Hbuf Hfuel Hflush.
  pose proof (last_flight_of_handshake_iff s (final_type buf last_type)) as Hiff.
  fold final in Hiff.
  assert (Hlen : len = 1 <-> final).
  { rewrite <- Hiff. subst len.
    destruct (last_flight_of_handshake s (final_type buf last_type));
      split; intros H; first [reflexivity | discriminate H]. }
  split; [exact Hlen|].
  destruct (send_flight_attempt env s buf Hbuf fuel last_type tr Hfuel)
    as (evs & Hsend & Hatt & Hall).
  exists evs. split; [exact Hatt|]. split; [exact Hall|].
  intros tr1 answer.
  pose proof (flight_round_verdict env s total last_type tr fuel _ evs Hsend (Hflush _))
    as Hround.
  cbv zeta in Hround. fold buf R in Hround. fold len tr1 in Hround.
  fold answer total1 in Hround. fold T in Hround.
  set (special := last_flight_of_handshake s (final_type buf last_type)) in *.
  split; [eexists; exact Hround|]. split; [|split].
  - intros Hdead. rewrite flight_loop_unfold, Hround.
    destruct (Z.geb_spec total1 T) as [_|Hlt]; [reflexivity|lia].
  - intros Hfin Hshort Hto. apply Hlen in Hfin as Hone.
    assert (Hsp : special = true) by (apply Hiff; exact Hfin).
    rewrite flight_loop_unfold, Hround. rewrite Hone.
    destruct (Z.geb_spec total1 T) as [Hge|_]; [lia|].
    unfold wait_code. rewrite Hsp, Hto, Z.eqb_refl.
    destruct (Z.eqb_spec 0 GNUTLS_E_TIMEDOUT) as [E|_]; [lia|]. reflexivity.
  - intros Hshort Hcase.
    assert (Hagain : flight_round env fuel s total last_type tr
                     = Some (Again total1 (final_type buf last_type),
                             tr1 ++ [EvCheckRecv len R])).
    { rewrite Hround.
      destruct (Z.geb_spec total1 T) as [Hge|_]; [lia|].
      unfold wait_code.
      destruct Hcase as [(Hfin & Hr & Hc)|(Hnfin & Hto)].
      - assert (Hsp : special = true) by (apply Hiff; exact Hfin). rewrite Hsp.
        destruct (Z.eqb_spec (fst answer) GNUTLS_E_TIMEDOUT) as [E|_]; [lia|].
        rewrite Hc, Z.eqb_refl. destruct (Z.geb_spec (fst answer) 0); [|lia].
        cbn [andb]. rewrite Z.eqb_refl. reflexivity.
      - assert (Hsp : special = false).
        { destruct special eqn:E; [|reflexivity]. exfalso. apply Hnfin, Hiff. reflexivity. }
        rewrite Hsp, Hto, Z.eqb_refl. reflexivity. }
    destruct (send_flight_attempt env s buf Hbuf fuel (final_type buf last_type)
                (tr1 ++ [EvCheckRecv len R]) Hfuel)
      as (evs2 & Hsend2 & Hatt2 & Hall2).
    rewrite final_type_idem in Hsend2.
    exists evs2. split; [exact Hatt2|]. split; [exact Hall2|].
    intros tr2.
    pose proof (flight_round_verdict env s total1 (final_type buf last_type)
                  (tr1 ++ [EvCheckRecv len R]) fuel _ evs2 Hsend2 (Hflush _)) as Hround2.
    cbv zeta in Hround2. fold buf R in Hround2. fold special len in Hround2.
    fold total2 T in Hround2.
    assert (Htr2 : (tr1 ++ [EvCheckRecv len R]) ++ evs2 ++ [EvFlush] = tr2).
    { subst tr2. rewrite <- !app_assoc. reflexivity. }
    rewrite Htr2 in Hround2.
    split.
    + intros n o tr' Hrun.
      destruct (flight_loop_first_pass env s total last_type tr fuel _ evs Hsend n o tr' Hrun)
        as [Hret|(t & l & tr3 & n' & Hag & Hrun')].
      { rewrite Hagain in Hret. discriminate Hret. }
      rewrite Hagain in Hag. injection Hag as <- <- <-.
      destruct (flight_loop_first_pass env s total1 (final_type buf last_type)
                  (tr1 ++ [EvCheckRecv len R]) fuel _ evs2 Hsend2 n' o tr' Hrun')
        as [Hret|(t & l & tr3 & n'' & Hag & Hrun'')].
      * rewrite Hround2 in Hret. injection Hret as _ <-.
        exists []. rewrite app_nil_r. reflexivity.
      * rewrite Hround2 in Hag. injection Hag as _ <-.
        destruct (flight_loop_extends env s _ _ _ _ _ _ Hrun'') as (rest & ->).
        exists rest. rewrite <- !app_assoc. reflexivity.
    + intros Hfin Hshort2 Hto2. apply Hlen in Hfin as Hone.
      assert (Hsp : special = true) by (apply Hiff; exact Hfin).
      rewrite flight_loop_unfold.
      rewrite (flight_round_more_fuel env _ _ _ _ _ _ Hagain).
      rewrite flight_loop_unfold, Hround2. rewrite Hone.
      destruct (Z.geb_spec total2 T) as [Hge|_]; [lia|].
      unfold wait_code. rewrite Hsp, Hto2, Z.eqb_refl.
      destruct (Z.eqb_spec 0 GNUTLS_E_TIMEDOUT) as [E|_]; [lia|]. reflexivity.
Qed.

(** C8, as the code has it.  When the retransmission interval is below
    the total timeout and the first wait of the call brings a response
    (under the single-byte wait: one that is not a handshake record),
    the whole history of the call is one transmission attempt of the
    flight (the calls of every buffered message, in order; all their
    fragments when nothing fails), the flush and the wait; the call
    returns 0, the accumulated wait is the retransmission interval, and
    the flight is released. *)
Theorem immediate_success (s : gnutls_session) tr fuel :
  let R := retrans_timeout s in
  let T := dtls_total_timeout s in
  let buf := handshake_send_buffer s in
  let len := if last_flight_of_handshake s (final_type buf 0) then 1 else 0 in
  GNUTLS_E_TIMEDOUT < 0 ->
  Forall (sendable s) buf -> (flight_fuel buf <= fuel)%nat ->
  0 <= R < 2 ^ 32 -> R < T ->
  (forall tr', flushes tr' = flushes tr -> 0 <= flush_result env tr') ->
  (forall tr', flushes tr' = S (flushes tr) ->
     0 <= fst (recv_result env tr' len R)
     /\ (len = 1 -> Z_of_byte (snd (recv_result env tr' len R)) <> GNUTLS_HANDSHAKE)) ->
  exists evs o,
    flight_attempt s buf evs
    /\ (nothing_fails env -> evs = flight_events s buf)
    /\ forallb is_message_io evs = true
    /\ _gnutls_dtls_transmit env (S fuel) s tr
       = Some (o, tr ++ evs ++ [EvFlush; EvCheckRecv len R])
    /\ flushes (tr ++ evs ++ [EvFlush; EvCheckRecv len R]) = S (flushes tr)
    /\ result o = 0 /\ waited o = R /\ waited o <= R
    /\ after o = _mbuffer_clear (snd (drop_usage_count s)).
Proof.
  intros R T buf len Hneg Hbuf Hfuel HR HRT Hflush Hrecv.
  destruct (send_flight_attempt env s buf Hbuf fuel 0 tr Hfuel)
    as (evs & Hsend & Hatt & Hall).
  pose proof (flight_attempt_io s buf evs Hatt) as Hevs.
  assert (Hfl1 : flushes (tr ++ evs) = flushes tr).
  { rewrite flushes_app, (message_io_no_flush evs Hevs). lia. }
  assert (Hfl2 : flushes (tr ++ evs ++ [EvFlush]) = S (flushes tr)).
  { rewrite app_assoc, flushes_app, Hfl1. cbn. lia. }
  pose proof (flight_round_verdict env s 0 0 tr fuel _ evs Hsend (Hflush _ Hfl1)) as Hround.
  cbv zeta in Hround. fold buf R in Hround. fold len in Hround.
  destruct (Hrecv _ Hfl2) as [Hr Hc].
  assert (Hw : wrap32 (0 + R) = R) by (apply wrap32_small; lia).
  rewrite Hw in Hround.
  destruct (Z.geb_spec R (dtls_total_timeout s)) as [Hge|_]; [fold T in Hge; lia|].
  set (answer := recv_result env (tr ++ evs ++ [EvFlush]) len R) in *.
  assert (Hcode : wait_code (last_flight_of_handshake s (final_type buf 0)) answer
                  = fst answer).
  { unfold wait_code. subst len.
    destruct (last_flight_of_handshake s (final_type buf 0)); [|reflexivity].
    destruct (Z.eqb_spec (fst answer) GNUTLS_E_TIMEDOUT) as [E|_]; [lia|].
    destruct (Z.eqb_spec (Z_of_byte (snd answer)) GNUTLS_HANDSHAKE) as [E|_];
      [exfalso; apply Hc; [reflexivity|exact E]|].
    rewrite andb_false_r. reflexivity. }
  rewrite Hcode in Hround.
  destruct (Z.eqb_spec (fst answer) GNUTLS_E_TIMEDOUT) as [E|_]; [lia|].
  destruct (Z.ltb_spec (fst answer) 0) as [E|_]; [lia|].
  exists evs, (cleanup s 0 R).
  split; [exact Hatt|]. split; [exact Hall|]. split; [exact Hevs|]. split; [|split].
  - unfold _gnutls_dtls_transmit. rewrite flight_loop_unfold, Hround.
    rewrite <- !app_assoc. reflexivity.
  - rewrite !flushes_app, (message_io_no_flush evs Hevs).
    unfold flushes at 2. destruct len; cbn; lia.
  - rewrite cleanup_result, cleanup_waited, cleanup_after.
    repeat split; lia.
Qed.

End Waiting.

(** ** A peer that never answers *)

Section Deadline.

Context {K : gnutls_h} (env : collaborators).

Lemma unanswered_passes_flushes s passes :
  Forall (unanswered_pass env s) passes -> flushes (concat passes) = length passes.
Proof.
  induction 1 as [|p passes (evs & Hatt & _ & ->) _ IH]; [reflexivity|].
  cbn [concat length]. rewrite !flushes_app, IH.
  rewrite (message_io_no_flush evs (flight_attempt_io s _ evs Hatt)). reflexivity.
Qed.

Lemma unanswered_passes_verbatim s passes :
  nothing_fails env -> Forall (unanswered_pass env s) passes ->
  passes = repeat (flight_events s (handshake_send_buffer s)
                     ++ [EvFlush; EvCheckRecv 0 (retrans_timeout s)]) (length passes).
Proof.
  intros Hnf. induction 1 as [|p passes (evs & _ & Hall & ->) _ IH]; [reflexivity|].
  cbn [length repeat]. rewrite <- IH, (Hall Hnf). reflexivity.
Qed.

(** With [k] passes still to go, an unanswered flight goes through [k]
    more passes and the call ends with the timeout code. *)
Lemma timeout_rounds (s : gnutls_session) :
  let R := retrans_timeout s in
  let T := dtls_total_timeout s in
  let buf := handshake_send_buffer s in
  let N := ceil_div T R in
  0 < R -> 0 < T -> N * R < 2 ^ 32 ->
  Forall (sendable s) buf ->
  last_flight_of_handshake s (final_type buf 0) = false ->
  (forall tr', 0 <= flush_result env tr') ->
  (forall tr' len ms, fst (recv_result env tr' len ms) = GNUTLS_E_TIMEDOUT) ->
  forall (k : nat) (j : Z) fuel last_type tr,
    (1 <= k)%nat -> 0 <= j -> j + Z.of_nat k = N ->
    final_type buf last_type = final_type buf 0 ->
    (k + flight_fuel buf <= fuel)%nat ->
    exists passes,
      flight_loop env fuel s (j * R) last_type tr
      = Some (cleanup s GNUTLS_E_TIMEDOUT (N * R), tr ++ concat passes)
      /\ length passes = k
      /\ Forall (unanswered_pass env s) passes.
Proof.
  intros R T buf N HR HT Hw Hbuf Hsp Hflush Hrecv.
  pose proof (ceil_div_bounds T R HR) as HN. fold N in HN.
  induction k as [|k IH]; intros j fuel last_type tr Hk Hj HjN Hlast Hfuel; [lia|].
  destruct fuel as [|fuel]; [lia|].
  destruct (send_flight_attempt env s buf Hbuf fuel last_type tr ltac:(lia))
    as (evs & Hsend & Hatt & Hall).
  rewrite flight_loop_unfold.
  rewrite (flight_round_verdict env s (j * R) last_type tr fuel _ evs Hsend (Hflush _)).
  fold buf R. rewrite Hlast, Hsp. unfold wait_code. rewrite Hrecv, Z.eqb_refl.
  assert (Hsum : wrap32 (j * R + R) = (j + 1) * R) by (rewrite wrap32_small; nia).
  rewrite Hsum.
  assert (Hpass : unanswered_pass env s (evs ++ [EvFlush; EvCheckRecv 0 R])).
  { exists evs. split; [exact Hatt|]. split; [exact Hall|reflexivity]. }
  assert (Htr : (tr ++ evs ++ [EvFlush]) ++ [EvCheckRecv 0 R]
                = tr ++ evs ++ [EvFlush; EvCheckRecv 0 R]).
  { rewrite <- !app_assoc. reflexivity. }
  rewrite Htr.
  destruct k as [|k].
  - assert (HjN' : j + 1 = N) by lia. rewrite HjN'.
    destruct (Z.geb_spec (N * R) (dtls_total_timeout s)) as [_|Hlt]; [|fold T in Hlt; lia].
    exists [evs ++ [EvFlush; EvCheckRecv 0 R]]. cbn [concat]. rewrite app_nil_r.
    split; [reflexivity|]. split; [reflexivity|]. constructor; [exact Hpass|constructor].
  - destruct (Z.geb_spec ((j + 1) * R) (dtls_total_timeout s)) as [Hge|_];
      [fold T in Hge; nia|].
    destruct (IH (j + 1) fuel (final_type buf 0)
                (tr ++ evs ++ [EvFlush; EvCheckRecv 0 R])
                ltac:(lia) ltac:(lia) ltac:(lia) (final_type_idem buf 0) ltac:(lia))
      as (passes & Hrun & Hlen & Hpasses).
    exists ((evs ++ [EvFlush; EvCheckRecv 0 R]) :: passes).
    rewrite Hrun. cbn [concat length]. rewrite <- !app_assoc.
    split; [reflexivity|]. split; [lia|]. constructor; assumption.
Qed.

(** C3, as the code has it.  For a retransmission interval [R > 0] and
    a total timeout [T > 0] whose multiples stay within 32 bits, a
    flight that is not the last of the handshake and is never answered
    goes through exactly [ceil (T / R)] passes, each of them a
    transmission attempt of the flight (the calls of every buffered
    message, in order), the flush and the wait; when nothing fails
    every pass is the same, with all the fragments of every message.
    The call then returns the timeout code.  The accumulated wait is
    [ceil (T / R) * R]: at least [T] and less than [T + R]. *)
Theorem deadline_termination (s : gnutls_session) tr fuel :
  let R := retrans_timeout s in
  let T := dtls_total_timeout s in
  let buf := handshake_send_buffer s in
  let N := ceil_div T R in
  0 < R -> 0 < T -> N * R < 2 ^ 32 ->
  Forall (sendable s) buf ->
  last_flight_of_handshake s (final_type buf 0) = false ->
  (forall tr', 0 <= flush_result env tr') ->
  (forall tr' len ms, fst (recv_result env tr' len ms) = GNUTLS_E_TIMEDOUT) ->
  (Z.to_nat N + flight_fuel buf <= fuel)%nat ->
  exists o passes,
    _gnutls_dtls_transmit env fuel s tr = Some (o, tr ++ concat passes)
    /\ length passes = Z.to_nat N
    /\ Forall (fun p => exists evs, flight_attempt s buf evs
                                    /\ p = evs ++ [EvFlush; EvCheckRecv 0 R]) passes
    /\ (nothing_fails env ->
        passes = repeat (flight_events s buf ++ [EvFlush; EvCheckRecv 0 R]) (Z.to_nat N))
    /\ flushes (tr ++ concat passes) = (flushes tr + Z.to_nat N)%nat
    /\ result o = GNUTLS_E_TIMEDOUT
    /\ waited o = N * R
    /\ T <= waited o < T + R
    /\ after o = _mbuffer_clear (snd (drop_usage_count s)).
Proof.
  intros R T buf N HR HT Hw Hbuf Hsp Hflush Hrecv Hfuel.
  pose proof (ceil_div_bounds T R HR) as HN. fold N in HN.
  pose proof (ceil_div_pos T R HR HT) as HN1. fold N in HN1.
  assert (HNeq : 0 + Z.of_nat (Z.to_nat N) = N) by lia.
  assert (HN2 : (1 <= Z.to_nat N)%nat) by lia.
  destruct (timeout_rounds s HR HT Hw Hbuf Hsp Hflush Hrecv
              (Z.to_nat N) 0 fuel 0 tr HN2 (Z.le_refl 0) HNeq eq_refl Hfuel)
    as (passes & Hrun & Hlen & Hpasses).
  exists (cleanup s GNUTLS_E_TIMEDOUT (N * R)), passes.
  split; [exact Hrun|]. split; [exact Hlen|]. split; [|split; [|split]].
  - eapply Forall_impl; [exact Hpasses|].
    intros p (evs & Hatt & _ & ->). exists evs. split; [exact Hatt|reflexivity].
  - intros Hnf. rewrite <- Hlen. exact (unanswered_passes_verbatim s passes Hnf Hpasses).
  - rewrite flushes_app, (unanswered_passes_flushes s passes Hpasses), Hlen. reflexivity.
  - rewrite cleanup_result, cleanup_waited, cleanup_after.
    repeat split; lia.
Qed.

End Deadline.

(** ** Runs of the retransmission loop *)

Lemma waits_app a b : waits (a ++ b) = (waits a + waits b)%nat.
Proof. unfold waits. rewrite List.filter_app, length_app. reflexivity. Qed.

Lemma message_io_no_wait evs : forallb is_message_io evs = true -> waits evs = 0%nat.
Proof.
  induction evs as [|e evs IH]; [reflexivity|].
  cbn [forallb]. intros H. apply andb_prop in H. destruct H as [He Hevs].
  unfold waits in *. cbn [List.filter].
  destruct e; cbn in He |- *; try discriminate; auto.
Qed.

Lemma wrap32_add_l a b : wrap32 (wrap32 a + b) = wrap32 (a + b).
Proof. unfold wrap32. apply Zplus_mod_idemp_l. Qed.

Section Runs.

Context {K : gnutls_h} (env : collaborators).

(** With [k] passes still to go and nothing failing, an unanswered
    flight goes out [k] more times, each time by the same calls. *)
Lemma timeout_rounds_history (s : gnutls_session) :
  let R := retrans_timeout s in
  let T := dtls_total_timeout s in
  let buf := handshake_send_buffer s in
  let N := ceil_div T R in
  let pass := flight_events s buf ++ [EvFlush; EvCheckRecv 0 R] in
  0 < R -> 0 < T -> N * R < 2 ^ 32 ->
  Forall (sendable s) buf ->
  last_flight_of_handshake s (final_type buf 0) = false ->
  (forall tr sz, malloc_ok env tr sz = true) ->
  (forall tr ty ht ep d, 0 <= send_result env tr ty ht ep d) ->
  (forall tr', 0 <= flush_result env tr') ->
  (forall tr' len ms, fst (recv_result env tr' len ms) = GNUTLS_E_TIMEDOUT) ->
  forall (k : nat) (j : Z) fuel last_type tr,
    (1 <= k)%nat -> 0 <= j -> j + Z.of_nat k = N ->
    final_type buf last_type = final_type buf 0 ->
    (k + flight_fuel buf <= fuel)%nat ->
    flight_loop env fuel s (j * R) last_type tr
    = Some (cleanup s GNUTLS_E_TIMEDOUT (N * R), tr ++ concat (repeat pass k)).
Proof.
  intros R T buf N pass HR HT Hw Hbuf Hsp Hmalloc Hsend Hflush Hrecv.
  pose proof (ceil_div_bounds T R HR) as HN. fold N in HN.
  induction k as [|k IH]; intros j fuel last_type tr Hk Hj HjN Hlast Hfuel; [lia|].
  destruct fuel as [|fuel]; [lia|].
  pose proof (send_flight_all_sent env s buf Hbuf Hmalloc Hsend fuel last_type tr
                ltac:(lia)) as Hflight.
  rewrite flight_loop_unfold.
  rewrite (flight_round_after_send env fuel s (j * R) last_type tr _ _ Hflight).
  destruct (Z.ltb_spec (flush_result env (tr ++ flight_events s buf)) 0) as [Hbad|_];
    [specialize (Hflush (tr ++ flight_events s buf)); lia|].
  rewrite Hlast.
  rewrite (wait_for_peer_implicit_ack env s _ (j * R) _ Hsp). fold R.
  rewrite Hrecv, Z.eqb_refl.
  assert (Hsum : wrap32 (j * R + R) = (j + 1) * R) by (rewrite wrap32_small; nia).
  rewrite Hsum.
  assert (Htr : ((tr ++ flight_events s buf) ++ [EvFlush]) ++ [EvCheckRecv 0 R]
                = tr ++ pass).
  { unfold pass. rewrite <- !app_assoc. reflexivity. }
  rewrite Htr. cbn [repeat concat].
  destruct k as [|k].
  - assert (HjN' : j + 1 = N) by lia. rewrite HjN'.
    destruct (Z.geb_spec (N * R) (dtls_total_timeout s)) as [_|Hlt]; [|fold T in Hlt; lia].
    cbn [repeat concat]. rewrite app_nil_r. reflexivity.
  - destruct (Z.geb_spec ((j + 1) * R) (dtls_total_timeout s)) as [Hge|_];
      [fold T in Hge; nia|].
    rewrite (IH (j + 1) fuel (final_type buf 0) (tr ++ pass)
               ltac:(lia) ltac:(lia) ltac:(lia) (final_type_idem buf 0) ltac:(lia)).
    rewrite <- app_assoc. reflexivity.
Qed.

(** X9.  When nothing fails and the peer never answers a flight that is
    not the last of the handshake, the whole history of the call is
    [ceil (T / R)] repetitions of one and the same pass: the calls of the
    buffered messages in order, a flush, and a wait of [R] with no data
    required.  Every retransmission repeats the first transmission
    record for record. *)
Theorem unanswered_flight_is_repeated_verbatim (s : gnutls_session) tr fuel :
  let R := retrans_timeout s in
  let T := dtls_total_timeout s in
  let buf := handshake_send_buffer s in
  let N := ceil_div T R in
  0 < R -> 0 < T -> N * R < 2 ^ 32 ->
  Forall (sendable s) buf ->
  last_flight_of_handshake s (final_type buf 0) = false ->
  (forall tr sz, malloc_ok env tr sz = true) ->
  (forall tr ty ht ep d, 0 <= send_result env tr ty ht ep d) ->
  (forall tr', 0 <= flush_result env tr') ->
  (forall tr' len ms, fst (recv_result env tr' len ms) = GNUTLS_E_TIMEDOUT) ->
  (Z.to_nat N + flight_fuel buf <= fuel)%nat ->
  _gnutls_dtls_transmit env fuel s tr
  = Some (cleanup s GNUTLS_E_TIMEDOUT (N * R),
          tr ++ concat (repeat (flight_events s buf ++ [EvFlush; EvCheckRecv 0 R])
                          (Z.to_nat N))).
Proof.
  intros R T buf N HR HT Hw Hbuf Hsp Hmalloc Hsend Hflush Hrecv Hfuel.
  pose proof (ceil_div_pos T R HR HT) as HN1. fold N in HN1.
  assert (HNeq : 0 + Z.of_nat (Z.to_nat N) = N) by lia.
  assert (HN2 : (1 <= Z.to_nat N)%nat) by lia.
  exact (timeout_rounds_history s HR HT Hw Hbuf Hsp Hmalloc Hsend Hflush Hrecv
           (Z.to_nat N) 0 fuel 0 tr HN2 (Z.le_refl 0) HNeq eq_refl Hfuel).
Qed.

(** The loop cannot end while no multiple of the interval, as the
    32-bit counter holds it, reaches the total timeout. *)
Lemma flight_loop_without_end (s : gnutls_session) :
  let R := retrans_timeout s in
  let T := dtls_total_timeout s in
  let buf := handshake_send_buffer s in
  (forall j, 1 <= j -> wrap32 (j * R) < T) ->
  last_flight_of_handshake s (final_type buf 0) = false ->
  (forall tr', 0 <= flush_result env tr') ->
  (forall tr' len ms, fst (recv_result env tr' len ms) = GNUTLS_E_TIMEDOUT) ->
  forall fuel (j : Z) last_type tr,
    0 <= j -> final_type buf last_type = final_type buf 0 ->
    flight_loop env fuel s (wrap32 (j * R)) last_type tr = None.
Proof.
  intros R T buf Hnever Hsp Hflush Hrecv.
  induction fuel as [|fuel IH]; intros j last_type tr Hj Hlast; [reflexivity|].
  rewrite flight_loop_unfold.
  destruct (send_flight env fuel s (handshake_send_buffer s) last_type tr)
    as [[last_type' tr1]|] eqn:Hsend.
  - pose proof (send_flight_last_type env s _ _ _ _ _ _ Hsend) as Hl.
    fold buf in Hl. rewrite Hlast in Hl. subst last_type'.
    rewrite (flight_round_after_send env fuel s _ last_type tr _ _ Hsend).
    destruct (Z.ltb_spec (flush_result env tr1) 0) as [Hbad|_];
      [specialize (Hflush tr1); lia|].
    rewrite (wait_for_peer_implicit_ack env s _ _ _ Hsp). fold R.
    rewrite Hrecv, Z.eqb_refl, wrap32_add_l.
    replace (j * R + R) with ((j + 1) * R) by lia.
    destruct (Z.geb_spec (wrap32 ((j + 1) * R)) (dtls_total_timeout s)) as [Hge|_].
    + specialize (Hnever (j + 1) ltac:(lia)). fold T in Hge. lia.
    + apply IH; [lia|apply final_type_idem].
  - unfold flight_round, io_bind. rewrite Hsend. reflexivity.
Qed.

(** X10.  When no multiple of the retransmission interval, reduced to
    32 bits, reaches the total timeout -- as with an interval of 0 and a
    positive total timeout -- and the peer never answers a flight that
    is not the last of the handshake, the call does not return: the loop
    is still running after any number of steps. *)
Theorem unreachable_deadline_never_returns (s : gnutls_session) tr :
  let R := retrans_timeout s in
  let T := dtls_total_timeout s in
  let buf := handshake_send_buffer s in
  (forall j, 1 <= j -> wrap32 (j * R) < T) ->
  last_flight_of_handshake s (final_type buf 0) = false ->
  (forall tr', 0 <= flush_result env tr') ->
  (forall tr' len ms, fst (recv_result env tr' len ms) = GNUTLS_E_TIMEDOUT) ->
  forall fuel, _gnutls_dtls_transmit env fuel s tr = None.
Proof.
  intros R T buf Hnever Hsp Hflush Hrecv fuel.
  exact (flight_loop_without_end s Hnever Hsp Hflush Hrecv fuel 0 0 tr
           (Z.le_refl 0) eq_refl).
Qed.

End Runs.

Section Returns.

Context {K : gnutls_h} (env : collaborators).

(** X11.  When the first wait of the call fails with a code other than
    the timeout code (and the retransmission interval is below the total
    timeout), the whole history of the call is one transmission attempt
    of the flight (all the fragments of every message when nothing
    fails), the flush and the wait; the call returns that code
    unchanged, and the flight is released. *)
Theorem wait_error_ends_the_call (s : gnutls_session) tr fuel :
  let R := retrans_timeout s in
  let T := dtls_total_timeout s in
  let buf := handshake_send_buffer s in
  let len := if last_flight_of_handshake s (final_type buf 0) then 1 else 0 in
  Forall (sendable s) buf -> (flight_fuel buf <= fuel)%nat ->
  0 <= R < 2 ^ 32 -> R < T ->
  (forall tr', flushes tr' = flushes tr -> 0 <= flush_result env tr') ->
  (forall tr', flushes tr' = S (flushes tr) ->
     fst (recv_result env tr' len R) < 0
     /\ fst (recv_result env tr' len R) <> GNUTLS_E_TIMEDOUT) ->
  exists evs o,
    flight_attempt s buf evs
    /\ (nothing_fails env -> evs = flight_events s buf)
    /\ forallb is_message_io evs = true
    /\ _gnutls_dtls_transmit env (S fuel) s tr
       = Some (o, tr ++ evs ++ [EvFlush; EvCheckRecv len R])
    /\ result o = fst (recv_result env (tr ++ evs ++ [EvFlush]) len R)
    /\ result o < 0
    /\ waited o = R
    /\ after o = _mbuffer_clear (snd (drop_usage_count s)).
Proof.
  intros R T buf len Hbuf Hfuel HR HRT Hflush Hrecv.
  destruct (send_flight_attempt env s buf Hbuf fuel 0 tr Hfuel)
    as (evs & Hsend & Hatt & Hall).
  pose proof (flight_attempt_io s buf evs Hatt) as Hevs.
  assert (Hfl1 : flushes (tr ++ evs) = flushes tr).
  { rewrite flushes_app, (message_io_no_flush evs Hevs). lia. }
  assert (Hfl2 : flushes (tr ++ evs ++ [EvFlush]) = S (flushes tr)).
  { rewrite app_assoc, flushes_app, Hfl1. cbn. lia. }
  pose proof (flight_round_verdict env s 0 0 tr fuel _ evs Hsend (Hflush _ Hfl1)) as Hround.
  cbv zeta in Hround. fold buf R in Hround. fold len in Hround.
  destruct (Hrecv _ Hfl2) as [Hr Hnto].
  assert (Hw : wrap32 (0 + R) = R) by (apply wrap32_small; lia).
  rewrite Hw in Hround.
  destruct (Z.geb_spec R (dtls_total_timeout s)) as [Hge|_]; [fold T in Hge; lia|].
  set (answer := recv_result env (tr ++ evs ++ [EvFlush]) len R) in *.
  assert (Hcode : wait_code (last_flight_of_handshake s (final_type buf 0)) answer
                  = fst answer).
  { unfold wait_code.
    destruct (last_flight_of_handshake s (final_type buf 0)); [|reflexivity].
    destruct (Z.eqb_spec (fst answer) GNUTLS_E_TIMEDOUT) as [E|_]; [contradiction|].
    destruct (Z.geb_spec (fst answer) 0) as [E|_]; [lia|]. reflexivity. }
  rewrite Hcode in Hround.
  destruct (Z.eqb_spec (fst answer) GNUTLS_E_TIMEDOUT) as [E|_]; [contradiction|].
  destruct (Z.ltb_spec (fst answer) 0) as [_|E]; [|lia].
  exists evs, (cleanup s (fst answer) R).
  split; [exact Hatt|]. split; [exact Hall|]. split; [exact Hevs|]. split.
  - unfold _gnutls_dtls_transmit. rewrite flight_loop_unfold, Hround.
    rewrite <- !app_assoc. reflexivity.
  - rewrite cleanup_result, cleanup_waited, cleanup_after. repeat split. exact Hr.
Qed.

(** The ways out of the loop, from whatever state it is entered. *)
Lemma flight_loop_exits (s : gnutls_session) :
  GNUTLS_E_TIMEDOUT < 0 ->
  forall fuel total last_type tr o tr',
    flight_loop env fuel s total last_type tr = Some (o, tr') ->
    result o <= 0
    /\ ((exists tr1, tr' = tr1 ++ [EvFlush] /\ result o = flush_result env tr1
                     /\ result o < 0 /\ after o = s)
        \/ (exists tr1 len, tr' = tr1 ++ [EvCheckRecv len (retrans_timeout s)]
                            /\ after o = _mbuffer_clear (snd (drop_usage_count s)))).
Proof.
  intros Hneg. induction fuel as [|fuel IH]; intros total last_type tr o tr' Hrun;
    [discriminate|].
  rewrite flight_loop_unfold in Hrun.
  destruct (send_flight env fuel s (handshake_send_buffer s) last_type tr)
    as [[last_type' tr1]|] eqn:Hsend.
  - rewrite (flight_round_after_send env fuel s total last_type tr _ _ Hsend) in Hrun.
    destruct (Z.ltb_spec (flush_result env tr1) 0) as [Hbad|_].
    + inversion Hrun; subst. cbn [result after]. split; [lia|]. left. eauto.
    + assert (Hwait : exists ret len,
                 wait_for_peer env s last_type' total (tr1 ++ [EvFlush])
                 = Some ((ret, wrap32 (total + retrans_timeout s)),
                         (tr1 ++ [EvFlush]) ++ [EvCheckRecv len (retrans_timeout s)])).
      { destruct (last_flight_of_handshake s last_type') eqn:Hsp.
        - rewrite (wait_for_peer_last_flight env s _ _ _ Hsp). eauto.
        - rewrite (wait_for_peer_implicit_ack env s _ _ _ Hsp). eauto. }
      destruct Hwait as (ret & len & Hwait). rewrite Hwait in Hrun.
      destruct (wrap32 (total + retrans_timeout s) >=? dtls_total_timeout s).
      { inversion Hrun; subst. rewrite cleanup_result, cleanup_after.
        split; [lia|]. right. eauto. }
      destruct (ret =? GNUTLS_E_TIMEDOUT); [exact (IH _ _ _ _ _ Hrun)|].
      destruct (Z.ltb_spec ret 0);
        inversion Hrun; subst; rewrite cleanup_result, cleanup_after;
        (split; [lia|]); right; eauto.
  - unfold flight_round, io_bind in Hrun. rewrite Hsend in Hrun. discriminate.
Qed.

(** X12.  However a call ends, it returns 0 or a negative code, never a
    positive one.  It ends right after a flush, with the negative code
    of that flush and the session untouched; or right after a wait, with
    the flight released: the buffer empty, the epoch table as the
    release left it, and the MTU, the timeouts, the role and the
    resumption flag as they were. *)
Theorem every_return_is_accounted_for (s : gnutls_session) tr fuel o tr' :
  GNUTLS_E_TIMEDOUT < 0 ->
  _gnutls_dtls_transmit env fuel s tr = Some (o, tr') ->
  result o <= 0
  /\ ((exists tr1, tr' = tr1 ++ [EvFlush] /\ result o = flush_result env tr1
                   /\ result o < 0 /\ after o = s)
      \/ (exists tr1 len, tr' = tr1 ++ [EvCheckRecv len (retrans_timeout s)]
                          /\ handshake_send_buffer (after o) = []
                          /\ epochs (after o) = epochs (snd (drop_usage_count s))
                          /\ entity (after o) = entity s
                          /\ resumed (after o) = resumed s
                          /\ hsk_mtu (after o) = hsk_mtu s
                          /\ retrans_timeout (after o) = retrans_timeout s
                          /\ dtls_total_timeout (after o) = dtls_total_timeout s)).
Proof.
  intros Hneg Hrun.
  destruct (flight_loop_exits s Hneg fuel 0 0 tr o tr' Hrun) as [Hres Hexit].
  split; [exact Hres|].
  destruct Hexit as [Hflush | (tr1 & len & Htr & Hafter)]; [left; exact Hflush|].
  right. exists tr1, len. split; [exact Htr|]. rewrite Hafter.
  pose proof (drop_usage_count_from_frame (handshake_send_buffer s) s) as (_ & Hsame & _).
  fold (drop_usage_count s) in Hsame.
  destruct Hsame as (H1 & H2 & H3 & H4 & H5 & _).
  cbn [_mbuffer_clear set_send_buffer handshake_send_buffer epochs entity resumed
        hsk_mtu retrans_timeout dtls_total_timeout].
  repeat split; assumption.
Qed.

(** The counter and the waits, from whatever state the loop is entered. *)
Lemma flight_loop_counts_waits (s : gnutls_session) :
  forall fuel total last_type tr o tr',
    0 <= total < 2 ^ 32 ->
    flight_loop env fuel s total last_type tr = Some (o, tr') ->
    exists evs,
      tr' = tr ++ evs
      /\ waited o = wrap32 (total + Z.of_nat (waits evs) * retrans_timeout s)
      /\ (flushes evs = waits evs \/ flushes evs = S (waits evs))
      /\ (1 <= flushes evs)%nat.
Proof.
  induction fuel as [|fuel IH]; intros total last_type tr o tr' Htotal Hrun;
    [discriminate|].
  rewrite flight_loop_unfold in Hrun.
  destruct (send_flight env fuel s (handshake_send_buffer s) last_type tr)
    as [[last_type' tr1]|] eqn:Hsend.
  - rewrite (flight_round_after_send env fuel s total last_type tr _ _ Hsend) in Hrun.
    apply send_flight_io in Hsend. destruct Hsend as (evs & -> & Hevs).
    pose proof (message_io_no_flush evs Hevs) as Hnf.
    pose proof (message_io_no_wait evs Hevs) as Hnw.
    destruct (flush_result env (tr ++ evs) <? 0).
    + inversion Hrun; subst. cbn [waited]. exists (evs ++ [EvFlush]).
      rewrite <- app_assoc, flushes_app, waits_app, Hnf, Hnw. cbn.
      split; [reflexivity|]. rewrite Z.add_0_r, wrap32_small by lia.
      split; [reflexivity|]. split; [right; reflexivity|lia].
    + assert (Hwait : exists ret len,
                 wait_for_peer env s last_type' total ((tr ++ evs) ++ [EvFlush])
                 = Some ((ret, wrap32 (total + retrans_timeout s)),
                         ((tr ++ evs) ++ [EvFlush])
                           ++ [EvCheckRecv len (retrans_timeout s)])).
      { destruct (last_flight_of_handshake s last_type') eqn:Hsp.
        - rewrite (wait_for_peer_last_flight env s _ _ _ Hsp). eauto.
        - rewrite (wait_for_peer_implicit_ack env s _ _ _ Hsp). eauto. }
      destruct Hwait as (ret & len & Hwait). rewrite Hwait in Hrun.
      set (pass := evs ++ [EvFlush; EvCheckRecv len (retrans_timeout s)]).
      assert (Htr : ((tr ++ evs) ++ [EvFlush]) ++ [EvCheckRecv len (retrans_timeout s)]
                    = tr ++ pass) by (unfold pass; rewrite <- !app_assoc; reflexivity).
      assert (Hpf : flushes pass = 1%nat)
        by (unfold pass; rewrite flushes_app, Hnf; reflexivity).
      assert (Hpw : waits pass = 1%nat)
        by (unfold pass; rewrite waits_app, Hnw; reflexivity).
      rewrite Htr in Hrun.
      assert (Hdone : forall ret',
                 exists evs0,
                   tr ++ pass = tr ++ evs0
                   /\ waited (cleanup s ret' (wrap32 (total + retrans_timeout s)))
                      = wrap32 (total + Z.of_nat (waits evs0) * retrans_timeout s)
                   /\ (flushes evs0 = waits evs0 \/ flushes evs0 = S (waits evs0))
                   /\ (1 <= flushes evs0)%nat).
      { intros ret'. exists pass. rewrite cleanup_waited, Hpf, Hpw.
        split; [reflexivity|]. split; [f_equal; lia|]. split; [left; reflexivity|lia]. }
      destruct (wrap32 (total + retrans_timeout s) >=? dtls_total_timeout s);
        [inversion Hrun; subst; apply Hdone|].
      destruct (ret =? GNUTLS_E_TIMEDOUT).
      * apply IH in Hrun; [|apply wrap32_bounds].
        destruct Hrun as (evs0 & -> & Hw & Hfw & Hf1).
        exists (pass ++ evs0). rewrite <- app_assoc, flushes_app, waits_app, Hpf, Hpw.
        split; [reflexivity|]. split.
        { rewrite Hw, wrap32_add_l. f_equal. lia. }
        split; [lia|lia].
      * destruct (ret <? 0); inversion Hrun; subst; apply Hdone.
  - unfold flight_round, io_bind in Hrun. rewrite Hsend in Hrun. discriminate.
Qed.

(** X13.  In every call that returns, the accumulated wait is the
    number of waits made times the retransmission interval, reduced to
    32 bits; every pass has flushed once and waited at most once, so
    there are as many waits as flushes, or one less when the call ended
    on a failed flush; and there is at least one flush. *)
Theorem accumulated_wait_counts_the_waits (s : gnutls_session) tr fuel o tr' :
  _gnutls_dtls_transmit env fuel s tr = Some (o, tr') ->
  exists evs,
    tr' = tr ++ evs
    /\ waited o = wrap32 (Z.of_nat (waits evs) * retrans_timeout s)
    /\ (flushes evs = waits evs \/ flushes evs = S (waits evs))
    /\ (1 <= flushes evs)%nat.
Proof.
  intros Hrun.
  exact (flight_loop_counts_waits s fuel 0 0 tr o tr' ltac:(lia) Hrun).
Qed.

End Returns.

(** ** The further properties at concrete inputs *)

Lemma hello_counts_cover : counts_cover hello_session (handshake_send_buffer hello_session).
Proof.
  intros e He.
  change (handshake_send_buffer hello_session) with [client_hello] in He |- *.
  rewrite multiplicity_cons in He |- *. change (epoch client_hello) with 0 in He |- *.
  change (multiplicity e []) with 0 in He |- *.
  destruct (Z.eqb_spec 0 e) as [E|Hne]; [subst e|lia].
  exists 1. split; [reflexivity|]. lia.
Qed.

Lemma release_takes_each_count_once_witness :
  exists s',
    drop_usage_count (K := gnutls_values) hello_session = (0, s')
    /\ epochs s' !! 0 = Some {| usage_cnt := 0 |}.
Proof.
  destruct (release_takes_each_count_once (K := gnutls_values) hello_session
              hello_counts_cover) as (s' & Hrun & _ & Hcnt & _).
  exists s'. split; [exact Hrun|]. rewrite Hcnt. reflexivity.
Defined.

Lemma hello_counts_in_range :
  counts_in_range hello_session (handshake_send_buffer hello_session).
Proof.
  intros e c He Hc.
  change (handshake_send_buffer hello_session) with [client_hello] in He.
  rewrite multiplicity_cons in He. change (epoch client_hello) with 0 in He.
  change (multiplicity e []) with 0 in He.
  destruct (Z.eqb_spec 0 e) as [E|Hne]; [subst e|lia].
  change (epochs hello_session !! 0) with (Some {| usage_cnt := 1 |}) in Hc.
  injection Hc as <-. lia.
Qed.

Lemma release_succeeds_iff_counts_cover_witness :
  fst (drop_usage_count (K := gnutls_values) hello_session) = 0
  <-> counts_cover hello_session (handshake_send_buffer hello_session).
Proof.
  apply (release_succeeds_iff_counts_cover (K := gnutls_values) hello_session).
  - cbn. discriminate.
  - cbn. discriminate.
  - exact hello_counts_in_range.
Defined.

Lemma release_touches_only_referenced_counters_witness :
  same_but_epochs hello_session
    (snd (drop_usage_count (K := gnutls_values) hello_session))
  /\ exists d, 0 <= d <= 1
       /\ epochs (snd (drop_usage_count (K := gnutls_values) hello_session)) !! 0
          = Some {| usage_cnt := 1 - d |}.
Proof.
  destruct (release_touches_only_referenced_counters (K := gnutls_values) hello_session)
    as (_ & Hsame & _ & Hcnt & _).
  - exact hello_counts_in_range.
  - split; [exact Hsame|]. exact (Hcnt 0 1 eq_refl).
Defined.

Lemma release_stops_at_first_error_witness :
  drop_usage_count_from (K := gnutls_values) ([finished] ++ [client_hello]) hello_session
  = (-50, hello_session).
Proof.
  rewrite (release_stops_at_first_error (K := gnutls_values) [finished] [client_hello]
             hello_session).
  - reflexivity.
  - cbn. discriminate.
  - cbn. discriminate.
Defined.

Lemma transmit_message_frees_its_buffer_witness :
  exists evs,
    evs <> [] /\ forallb is_send evs = true
    /\ [EvMalloc 14;
        EvSend 22 1 0 (fragment_record client_hello 2 0);
        EvSend 22 1 0 (fragment_record client_hello 2 1);
        EvFree]
       = [] ++ [EvMalloc 14] ++ evs ++ [EvFree].
Proof.
  destruct (transmit_message_frees_its_buffer (K := gnutls_values) (fails_after 1) 8
              hello_session client_hello [] (-53)
              [EvMalloc 14;
               EvSend 22 1 0 (fragment_record client_hello 2 0);
               EvSend 22 1 0 (fragment_record client_hello 2 1);
               EvFree])
    as [[Hccs _] | [(_ & Hfail & _) | (_ & _ & Hevs)]].
  - vm_compute. reflexivity.
  - vm_compute in Hccs. discriminate Hccs.
  - vm_compute in Hfail. discriminate Hfail.
  - exact Hevs.
Defined.

Lemma first_failed_write_ends_the_message_witness :
  transmit_message (K := gnutls_values) (fails_after 1) 8 hello_session client_hello []
  = Some (-53,
          [EvMalloc 14;
           EvSend 22 1 0 (fragment_record client_hello 2 0);
           EvSend 22 1 0 (fragment_record client_hello 2 1);
           EvFree]).
Proof.
  apply (first_failed_write_ends_the_message (K := gnutls_values) (fails_after 1)
           hello_session client_hello 1 [] 8).
  - cbn. discriminate.
  - cbn. lia.
  - cbn. lia.
  - reflexivity.
  - vm_compute. discriminate.
  - lia.
  - intros i Hi. assert (i = 0%nat) as -> by lia. vm_compute. discriminate.
  - vm_compute. reflexivity.
Defined.

Lemma fragment_writes_stay_in_bounds_witness :
  exists n : nat,
    (1 <= n)%nat /\ Z.of_nat n <= 5 / 2 + 1
    /\ forall k, (k < n)%nat ->
         Z.of_nat (length (fragment_record client_hello 2 k)) <= 14.
Proof.
  destruct (fragment_writes_stay_in_bounds (K := gnutls_values) (fails_after 1)
              hello_session client_hello [] 8 (-53)
              [EvMalloc 14;
               EvSend 22 1 0 (fragment_record client_hello 2 0);
               EvSend 22 1 0 (fragment_record client_hello 2 1);
               EvFree])
    as (n & Hn1 & Hn2 & _ & Hb).
  - cbn. discriminate.
  - cbn. lia.
  - vm_compute. reflexivity.
  - cbn. lia.
  - reflexivity.
  - vm_compute. reflexivity.
  - exists n. split; [exact Hn1|]. split; [exact Hn2|].
    intros k Hk. destruct (Hb k Hk) as (_ & _ & Hlen & Hfit).
    change (hsk_mtu hello_session) with 2 in Hlen.
    rewrite Hlen. exact Hfit.
Defined.

Lemma client_flight_sendable : Forall (sendable (K := gnutls_values) client_flight_session)
                                 client_flight.
Proof.
  repeat (apply List.Forall_cons; [first [left; reflexivity | right; cbn; lia]|]).
  apply List.Forall_nil.
Qed.

Lemma flight_goes_out_in_buffer_order_witness :
  send_flight (K := gnutls_values) responsive_peer 8 client_flight_session client_flight 0 []
  = Some (20, concat (map (message_events (K := gnutls_values) client_flight_session)
                        client_flight)).
Proof.
  apply (proj1 (flight_goes_out_in_buffer_order (K := gnutls_values) responsive_peer
                  client_flight_session client_flight 8 0 []
                  client_flight_sendable
                  (fun _ _ => eq_refl)
                  (fun _ _ _ _ d => Nat2Z.is_nonneg (length d))
                  ltac:(vm_compute; lia))).
Defined.

Lemma short_deadline_sendable :
  Forall (sendable (K := gnutls_values) short_deadline_session)
    (handshake_send_buffer short_deadline_session).
Proof.
  apply List.Forall_cons; [|apply List.Forall_nil]. right. cbn. lia.
Qed.

Lemma unanswered_flight_is_repeated_verbatim_witness :
  _gnutls_dtls_transmit (K := gnutls_values) silent_peer 11 short_deadline_session []
  = Some (cleanup (K := gnutls_values) short_deadline_session (-319) 12,
          concat (repeat (flight_events (K := gnutls_values) short_deadline_session
                            [client_hello] ++ [EvFlush; EvCheckRecv 0 3]) 4)).
Proof.
  apply (unanswered_flight_is_repeated_verbatim (K := gnutls_values) silent_peer
           short_deadline_session [] 11).
  - cbn. lia.
  - cbn. lia.
  - vm_compute. reflexivity.
  - exact short_deadline_sendable.
  - reflexivity.
  - intros. reflexivity.
  - intros. cbn. lia.
  - intros. cbn. lia.
  - intros. reflexivity.
  - vm_compute. lia.
Defined.

Lemma unreachable_deadline_never_returns_witness :
  _gnutls_dtls_transmit (K := gnutls_values) silent_peer 1000 zero_interval_session [] = None.
Proof.
  apply (unreachable_deadline_never_returns (K := gnutls_values) silent_peer
           zero_interval_session []).
  - intros j Hj. cbn [zero_interval_session a_session retrans_timeout dtls_total_timeout].
    rewrite Z.mul_0_r. reflexivity.
  - reflexivity.
  - intros. cbn. lia.
  - intros. reflexivity.
Defined.

Lemma hello_sendable :
  Forall (sendable (K := gnutls_values) hello_session) (handshake_send_buffer hello_session).
Proof.
  apply List.Forall_cons; [|apply List.Forall_nil]. right. cbn. lia.
Qed.

Lemma nobody_fails_to_receive : nothing_fails failing_receiver.
Proof. split; [reflexivity|]. intros. cbn. lia. Qed.

Lemma wait_error_ends_the_call_witness :
  exists o,
    _gnutls_dtls_transmit (K := gnutls_values) failing_receiver 8 hello_session []
    = Some (o, flight_events (K := gnutls_values) hello_session [client_hello]
                 ++ [EvFlush; EvCheckRecv 0 1000])
    /\ result o = -52
    /\ after o = _mbuffer_clear (snd (drop_usage_count (K := gnutls_values) hello_session)).
Proof.
  destruct (wait_error_ends_the_call (K := gnutls_values) failing_receiver
              hello_session [] 7)
    as (evs & o & _ & Hall & _ & Hrun & Hres & _ & _ & Hafter).
  - exact hello_sendable.
  - vm_compute. lia.
  - cbn. lia.
  - cbn. lia.
  - intros. cbn. lia.
  - intros tr' Hfl. cbn. split; [lia|discriminate].
  - rewrite (Hall nobody_fails_to_receive) in Hrun.
    exists o. split; [exact Hrun|]. split; [exact Hres | exact Hafter].
Defined.

Lemma every_return_is_accounted_for_witness :
  exists o tr',
    _gnutls_dtls_transmit (K := gnutls_values) responsive_peer 8 hello_session []
    = Some (o, tr')
    /\ result o <= 0.
Proof.
  destruct (_gnutls_dtls_transmit (K := gnutls_values) responsive_peer 8 hello_session [])
    as [[o tr']|] eqn:Hrun.
  - exists o, tr'. split; [reflexivity|].
    apply (every_return_is_accounted_for (K := gnutls_values) responsive_peer
             hello_session [] 8 o tr'); [vm_compute; reflexivity | exact Hrun].
  - vm_compute in Hrun. discriminate Hrun.
Defined.

Lemma accumulated_wait_counts_the_waits_witness :
  exists o tr' evs,
    _gnutls_dtls_transmit (K := gnutls_values) silent_peer 8 short_deadline_session []
    = Some (o, tr')
    /\ tr' = [] ++ evs
    /\ waited o = wrap32 (Z.of_nat (waits evs) * 3).
Proof.
  destruct (_gnutls_dtls_transmit (K := gnutls_values) silent_peer 8
              short_deadline_session []) as [[o tr']|] eqn:Hrun.
  - destruct (accumulated_wait_counts_the_waits (K := gnutls_values) silent_peer
                short_deadline_session [] 8 o tr' Hrun) as (evs & Htr & Hw & _).
    exists o, tr', evs. split; [reflexivity|]. split; [exact Htr | exact Hw].
  - vm_compute in Hrun. discriminate Hrun.
Defined.

Lemma nobody_fails_silently : nothing_fails silent_peer.
Proof. split; [reflexivity|]. intros. cbn. lia. Qed.

Lemma nobody_fails_responsively : nothing_fails responsive_peer.
Proof. split; [reflexivity|]. intros. cbn. lia. Qed.

Lemma finished_sendable :
  Forall (sendable (K := gnutls_values) server_finished_session)
    (handshake_send_buffer server_finished_session).
Proof. apply List.Forall_cons; [|apply List.Forall_nil]. right. cbn. lia. Qed.

Lemma finished_flight_wait_witness :
  _gnutls_dtls_transmit (K := gnutls_values) silent_peer 5 server_finished_session []
  = Some (cleanup (K := gnutls_values) server_finished_session 0 1000,
          finished_sent ++ [EvFlush; EvCheckRecv 1 1000]).
Proof.
  destruct (finished_flight_wait (K := gnutls_values) silent_peer
              server_finished_session 0 0 [] 4)
    as (_ & evs & _ & Hall & _ & _ & Hsuccess & _).
  - cbn. lia.
  - exact finished_sendable.
  - vm_compute. lia.
  - intros. cbn. lia.
  - rewrite (Hall nobody_fails_silently) in Hsuccess.
    apply Hsuccess.
    + split; [reflexivity|]. left. split; reflexivity.
    + vm_compute. reflexivity.
    + reflexivity.
Defined.

Lemma immediate_success_witness :
  exists o,
    _gnutls_dtls_transmit (K := gnutls_values) responsive_peer 8 hello_session []
    = Some (o, flight_events (K := gnutls_values) hello_session [client_hello]
                 ++ [EvFlush; EvCheckRecv 0 1000])
    /\ result o = 0 /\ waited o = 1000.
Proof.
  destruct (immediate_success (K := gnutls_values) responsive_peer hello_session [] 7)
    as (evs & o & _ & Hall & _ & Hrun & _ & Hres & Hwait & _).
  - vm_compute. reflexivity.
  - exact hello_sendable.
  - vm_compute. lia.
  - cbn. lia.
  - cbn. lia.
  - intros. cbn. lia.
  - intros tr' Hfl. cbn. split; [lia|]. intros Hlen. discriminate Hlen.
  - rewrite (Hall nobody_fails_responsively) in Hrun.
    exists o. split; [exact Hrun|]. split; [exact Hres | exact Hwait].
Defined.

Lemma deadline_termination_witness :
  exists o,
    _gnutls_dtls_transmit (K := gnutls_values) silent_peer 11 short_deadline_session []
    = Some (o, concat (repeat (flight_events (K := gnutls_values) short_deadline_session
                                 [client_hello] ++ [EvFlush; EvCheckRecv 0 3]) 4))
    /\ result o = GNUTLS_E_TIMEDOUT (gnutls_h := gnutls_values)
    /\ waited o = 12.
Proof.
  destruct (deadline_termination (K := gnutls_values) silent_peer
              short_deadline_session [] 11)
    as (o & passes & Hrun & _ & _ & Hall & _ & Hres & Hwait & _).
  - cbn. lia.
  - cbn. lia.
  - vm_compute. reflexivity.
  - apply List.Forall_cons; [|apply List.Forall_nil]. right. cbn. lia.
  - reflexivity.
  - intros. cbn. lia.
  - intros. reflexivity.
  - vm_compute. lia.
  - rewrite (Hall nobody_fails_silently) in Hrun.
    exists o. split; [exact Hrun|]. split; [exact Hres | exact Hwait].
Defined.

(** * Properties of the TPM functions *)

Module TpmFacts.

Import Tpm.

(** Bring the history of a run into the form [tr ++ new]. *)
Ltac history :=
  repeat rewrite <- app_assoc; cbn [app].

Ltac run_tpm :=
  unfold tpm_bind, ask, tpm_ret; cbn [fst snd].

(** Turn the recorded outcomes of the tests into equations. *)
Ltac tests :=
  repeat match goal with
         | H : negb _ = true |- _ => apply negb_true_iff in H
         | H : negb _ = false |- _ => apply negb_false_iff in H
         | H : (_ =? _) = true |- _ => apply Z.eqb_eq in H
         | H : (_ =? _) = false |- _ => apply Z.eqb_neq in H
         | H : (_ <? _) = true |- _ => apply Z.ltb_lt in H
         | H : (_ <? _) = false |- _ => apply Z.ltb_ge in H
         end.

Lemma bind_ask {A} (tss : oracle) (c : call) (k : answer -> tpm A) tr :
  tpm_bind (ask tss c) k tr = k (tss tr c) (tr ++ [c]).
Proof. reflexivity. Qed.

(** One step along a run: name the answer to the next call, or split on
    the next test. *)
Ltac tpm_step :=
  match goal with
  | |- context [tpm_bind (ask ?tss ?c) ?k ?tr] =>
      rewrite (bind_ask tss c k tr);
      let a := fresh "a" in set (a := tss tr c) in *; cbv beta
  | |- context [if ?c then _ else _] => destruct c eqn:?
  | |- context [match ?x with Some _ => _ | None => _ end] => destruct x eqn:?
  end.

(** All the paths of [gnutls_tpm_privkey_generate]. *)
Ltac tpm_paths :=
  unfold create_and_wrap_key, export_public_key, pubkey_cleanup, privkey_cleanup,
    cleanup, err_sa, err_cc;
  repeat tpm_step;
  unfold tpm_ret; cbn [fst snd code privkey pubkey data size]; history.

(** All the paths of [gnutls_privkey_import_tpm_raw]. *)
Ltac import_paths :=
  unfold gnutls_privkey_import_tpm_raw, try_the_key, set_key_pin, out_key_policy,
    out_key, out_srkpol, out_srk, out_tspi_ctx, out_ctx, out_blob;
  repeat tpm_step;
  unfold tpm_ret; cbn [fst snd data size]; history.

(** Name again the answers that show up in the hypotheses. *)
Ltac refold :=
  repeat match goal with
         | a := _ : answer, H : context [ret (?o ?t ?c)] |- _ =>
             progress change (o t c) with a in H
         end.

(** Find the answer to a call among the calls of a path. *)
Ltac find_reply H :=
  cbn [replies app In] in H;
  repeat (destruct H as [H|H]; [try discriminate H|]);
  try contradiction.

Ltac reply_found :=
  cbn [replies app In]; repeat (first [left; reflexivity | right]).

(** The calls of the destructor at the end of a path, after [pre]. *)
Ltac destructor_calls pre :=
  exists pre; do 8 eexists;
  (split; [reply_found|]); (split; [reply_found|]); (split; [reply_found|]);
  (split; [reply_found|]); (split; [reply_found|]); (split; [reply_found|]);
  (split; [assumption|]);
  first [left; split; [assumption|]; split; [reflexivity|]; reflexivity
        |right; split; [assumption|]; eexists; split; [reply_found|];
         split; [reflexivity|];
         first [left; split; [assumption|reflexivity]
               |right; split; [assumption|reflexivity]]].

Section SignFn.

Context {K : gnutls_h} {T : tss_h} (tss : oracle).

(** X14.  [tpm_sign_fn] closes the hash object it created on every path:
    when the creation fails it makes no further call and returns the
    signing error; when the creation succeeds, the last call it makes is
    the closing of that very object, and it is the only closing. *)
Theorem sign_closes_the_hash_object (s : tpm_ctx_st) (value : list byte) tr :
  let create := Tspi_Context_CreateObject (tpm_context s)
                  TSS_OBJECT_TYPE_HASH TSS_HASH_OTHER in
  let hash := out (tss tr create) in
  exists new,
    snd (tpm_sign_fn tss s value tr) = tr ++ create :: new
    /\ (ret (tss tr create) <> 0 ->
        new = [] /\ fst (tpm_sign_fn tss s value tr) = GNUTLS_E_PK_SIGN_FAILED)
    /\ (ret (tss tr create) = 0 ->
        last new = Some (Tspi_Context_CloseObject (tpm_context s) hash)
        /\ count is_close_object new = 1%nat
        /\ head new = Some (Tspi_Hash_SetHashValue hash value)).
Proof.
  intros create hash. unfold tpm_sign_fn. fold create. run_tpm.
  destruct (Z.eqb_spec (ret (tss tr create)) 0) as [Hc|Hc]; cbn [negb].
  - fold hash.
    destruct (ret (tss (tr ++ [create]) (Tspi_Hash_SetHashValue hash value)) =? 0);
      cbn [negb].
    + destruct (ret (tss ((tr ++ [create]) ++ [Tspi_Hash_SetHashValue hash value])
                       (Tspi_Hash_Sign hash (tpm_key s))) =? 0); cbn [negb];
        [|destruct (_ =? TPM_E_AUTHFAIL)];
        cbn [snd]; history; eexists; (split; [reflexivity|]);
        (split; [intros H; contradiction|]); intros _; repeat split.
    + cbn [snd]. history. eexists. split; [reflexivity|].
      split; [intros H; contradiction|]. intros _. repeat split.
  - cbn [snd fst]. exists []. split; [reflexivity|].
    split; [intros _; split; reflexivity|]. intros H. contradiction.
Qed.

(** X15.  What [tpm_sign_fn] returns: 0 exactly when the creation of the
    hash object, the setting of its value and the signing all returned
    0; the credentials error exactly when the first two returned 0 and
    the signing returned [TPM_E_AUTHFAIL]; the signing error in every
    other case (the two error codes being different from 0 and from
    each other, and [TPM_E_AUTHFAIL] from 0). *)
Theorem sign_result (s : tpm_ctx_st) (value : list byte) tr :
  let create := Tspi_Context_CreateObject (tpm_context s)
                  TSS_OBJECT_TYPE_HASH TSS_HASH_OTHER in
  let hash := out (tss tr create) in
  let set := Tspi_Hash_SetHashValue hash value in
  let sign := Tspi_Hash_Sign hash (tpm_key s) in
  let prepared := ret (tss tr create) = 0 /\ ret (tss (tr ++ [create]) set) = 0 in
  let signed := ret (tss (tr ++ [create; set]) sign) in
  let r := fst (tpm_sign_fn tss s value tr) in
  GNUTLS_E_PK_SIGN_FAILED <> 0 -> GNUTLS_E_INSUFFICIENT_CREDENTIALS <> 0 ->
  GNUTLS_E_INSUFFICIENT_CREDENTIALS <> GNUTLS_E_PK_SIGN_FAILED ->
  TPM_E_AUTHFAIL <> 0 ->
  (r = 0 <-> prepared /\ signed = 0)
  /\ (r = GNUTLS_E_INSUFFICIENT_CREDENTIALS <-> prepared /\ signed = TPM_E_AUTHFAIL)
  /\ (r = 0 \/ r = GNUTLS_E_INSUFFICIENT_CREDENTIALS \/ r = GNUTLS_E_PK_SIGN_FAILED).
Proof.
  intros create hash set sign prepared signed r Hsf Hic Hne Hauth.
  subst r prepared signed. unfold tpm_sign_fn. fold create. run_tpm. fold hash. fold set.
  destruct (Z.eqb_spec (ret (tss tr create)) 0) as [Hc|Hc]; cbn [negb fst].
  - destruct (Z.eqb_spec (ret (tss (tr ++ [create]) set)) 0) as [Hs|Hs]; cbn [negb fst].
    + fold sign. replace ((tr ++ [create]) ++ [set]) with (tr ++ [create; set])
        by (rewrite <- app_assoc; reflexivity).
      destruct (Z.eqb_spec (ret (tss (tr ++ [create; set]) sign)) 0) as [Hg|Hg];
        cbn [negb fst].
      * rewrite Hg. intuition congruence.
      * destruct (Z.eqb_spec (ret (tss (tr ++ [create; set]) sign)) TPM_E_AUTHFAIL)
          as [Ha|Ha]; cbn [fst]; intuition congruence.
    + intuition congruence.
  - intuition congruence.
Qed.

End SignFn.

Section Generate.

Context {K : gnutls_h} {T : tss_h} (tss : oracle).

Lemma key_size_flag_supported bits :
  key_size_flag bits <> None <->
  bits = 512 \/ bits = 1024 \/ bits = 2048 \/ bits = 4096 \/ bits = 8192 \/ bits = 16384.
Proof.
  split.
  - intros H. unfold key_size_flag in H.
    destruct bits as [|p|p]; try congruence.
    do 15 (try (destruct p as [p|p|]; try congruence)); auto 10.
  - intros [->|[->|[->|[->|[->| ->]]]]]; discriminate.
Qed.

(** X16.  A key size other than 512, 1024, 2048, 4096, 8192 and 16384
    is refused before the TPM is touched: the function returns the
    invalid-request error, makes no call and leaves both output
    parameters alone.  For each of the six sizes the first call is the
    creation of a TSS context. *)
Theorem unsupported_key_size_is_refused (pk bits : Z)
    (srk_password key_password : option (list byte)) (format : Z)
    (priv pub_out : gnutls_datum_t) (flags : Z) tr :
  let run := gnutls_tpm_privkey_generate tss pk bits srk_password key_password
               format priv pub_out flags tr in
  let supported := bits = 512 \/ bits = 1024 \/ bits = 2048 \/ bits = 4096
                   \/ bits = 8192 \/ bits = 16384 in
  (~ supported ->
   run = ({| code := GNUTLS_E_INVALID_REQUEST; privkey := priv; pubkey := pub_out |}, tr))
  /\ (supported -> exists new, snd run = tr ++ Tspi_Context_Create :: new).
Proof.
  intros run supported. subst run. split.
  - intros Hno. unfold gnutls_tpm_privkey_generate.
    destruct (key_size_flag bits) eqn:E; [|reflexivity].
    exfalso. apply Hno. apply key_size_flag_supported. congruence.
  - intros Hyes. apply key_size_flag_supported in Hyes.
    unfold gnutls_tpm_privkey_generate.
    destruct (key_size_flag bits) as [size_flag|]; [|congruence].
    tpm_paths; eexists; reflexivity.
Qed.

(** X17.  For a supported key size, [gnutls_tpm_privkey_generate] closes
    what it opened on every path.  If the creation of the context fails
    it makes no further call.  Otherwise the last call is the closing of
    that context and there is no other closing of a context; and the key
    object is closed, by the call just before, exactly when its creation
    succeeded. *)
Theorem generate_closes_context_and_key (pk bits : Z)
    (srk_password key_password : option (list byte)) (format : Z)
    (priv pub_out : gnutls_datum_t) (flags : Z) (size_flag : Z) tr :
  let run := gnutls_tpm_privkey_generate tss pk bits srk_password key_password
               format priv pub_out flags tr in
  let a0 := tss tr Tspi_Context_Create in
  let ctx := out a0 in
  let a1 := tss (tr ++ [Tspi_Context_Create]) (Tspi_Context_Connect ctx) in
  let a2 := tss ((tr ++ [Tspi_Context_Create]) ++ [Tspi_Context_Connect ctx])
              (Tspi_Context_CreateObject ctx TSS_OBJECT_TYPE_RSAKEY
                 (Z.lor (Z.lor TSS_KEY_TYPE_LEGACY TSS_KEY_VOLATILE) size_flag)) in
  key_size_flag bits = Some size_flag ->
  exists new,
    snd run = tr ++ new
    /\ count is_create new = 1%nat
    /\ (ret a0 <> 0 -> new = [Tspi_Context_Create] /\ code (fst run) = GNUTLS_E_TPM_ERROR)
    /\ (ret a0 = 0 ->
        count is_close new = 1%nat /\ last new = Some (Tspi_Context_Close ctx))
    /\ (ret a0 = 0 -> ret a1 = 0 -> ret a2 = 0 ->
        count is_close_object new = 1%nat
        /\ exists rest,
             rev new = Tspi_Context_Close ctx
                         :: Tspi_Context_CloseObject ctx (out a2) :: rest)
    /\ (ret a0 <> 0 \/ ret a1 <> 0 \/ ret a2 <> 0 -> count is_close_object new = 0%nat).
Proof.
  intros run a0 ctx a1 a2 Hsize. subst run.
  unfold gnutls_tpm_privkey_generate. rewrite Hsize.
  tpm_paths; tests;
    (eexists; split; [reflexivity|]);
    (split; [reflexivity|]);
    (split; [intros ?; first [contradiction | split; reflexivity]|]);
    (split; [intros ?; first [contradiction | split; reflexivity]|]);
    (split; [intros ? ? ?; first [contradiction | split; [reflexivity | eexists; reflexivity]]
            |intros [?|[?|?]]; first [contradiction | reflexivity]]).
Qed.

(** X18.  [gnutls_tpm_privkey_generate] returns 0 only after the whole
    chain went through (the error codes it sets being different from
    0).  Then the key was created once; the private key handed back is
    what the base64 encoder produced from the octet string, in PEM
    format, and the octet string itself otherwise; [pubkey->data] is
    the buffer the function allocated, not [NULL], into which the
    public key was exported, and [pubkey->size] the size the export
    reported.  The call ends with that export, the release of the
    public-key object it created, the release of the temporary blob,
    and the closing of the key object and of the context.  The only
    pointer freed is the temporary one: the octet string in PEM format,
    [NULL] otherwise; the private key is not freed. *)
Theorem generate_success (pk bits : Z)
    (srk_password key_password : option (list byte)) (format : Z)
    (priv pub_out : gnutls_datum_t) (flags : Z) (size_flag : Z) tr :
  let run := gnutls_tpm_privkey_generate tss pk bits srk_password key_password
               format priv pub_out flags tr in
  let ctx := out (tss tr Tspi_Context_Create) in
  GNUTLS_E_TPM_ERROR <> 0 -> GNUTLS_E_TPM_SRK_PASSWORD_ERROR <> 0 ->
  GNUTLS_E_MEMORY_ERROR <> 0 ->
  key_size_flag bits = Some size_flag ->
  code (fst run) = 0 ->
  data (pubkey (fst run)) <> 0
  /\ exists new,
       snd run = tr ++ new
       /\ exists k b o p m x n rest tmp,
            In (Tspi_Context_CreateObject ctx TSS_OBJECT_TYPE_RSAKEY
                  (Z.lor (Z.lor TSS_KEY_TYPE_LEGACY TSS_KEY_VOLATILE) size_flag), k)
              (replies tss tr new)
            /\ In (Tspi_GetAttribData (out k) TSS_TSPATTRIB_KEY_BLOB
                     TSS_TSPATTRIB_KEYBLOB_BLOB, b) (replies tss tr new)
            /\ In (_gnutls_x509_encode_octet_string (out b) (out_size b), o)
                 (replies tss tr new)
            /\ (format = GNUTLS_X509_FMT_PEM ->
                tmp = out o
                /\ exists e,
                     In (_gnutls_fbase64_encode (out o) (out_size o), e)
                       (replies tss tr new)
                     /\ privkey (fst run) = {| data := out e; size := out_size e |})
            /\ (format <> GNUTLS_X509_FMT_PEM ->
                tmp = 0
                /\ privkey (fst run) = {| data := out o; size := out_size o |})
            /\ In (gnutls_pubkey_init, p) (replies tss tr new)
            /\ In (gnutls_malloc n, m) (replies tss tr new)
            /\ In (gnutls_pubkey_export (out p) format (out m) n, x) (replies tss tr new)
            /\ pubkey (fst run) = {| data := out m; size := wrap32 (out_size x) |}
            /\ rev new = Tspi_Context_Close ctx
                           :: Tspi_Context_CloseObject ctx (out k)
                           :: gnutls_free tmp
                           :: gnutls_pubkey_deinit (out p)
                           :: gnutls_pubkey_export (out p) format (out m) n
                           :: rest
            /\ count is_key_creation new = 1%nat
            /\ frees new = [tmp]
            /\ deinits new = [out p].
Proof.
  intros run ctx Htpm Hsrk Hmem Hsize. subst run ctx.
  unfold gnutls_tpm_privkey_generate. rewrite Hsize.
  tpm_paths; tests; cbn [data] in *; intros Hcode;
    try (exfalso; first [congruence | lia]);
    (split; [assumption|]);
    eexists; (split; [reflexivity|]);
    do 9 eexists;
    (split; [reply_found|]); (split; [reply_found|]); (split; [reply_found|]);
    (split; [intros Hpem; first [contradiction
                                | split; [reflexivity|]; eexists; split;
                                  [reply_found|reflexivity]]|]);
    (split; [intros Hder; first [contradiction | split; reflexivity]|]);
    (split; [reply_found|]); (split; [reply_found|]); (split; [reply_found|]);
    (split; [reflexivity|]); (split; [reflexivity|]); (split; [reflexivity|]);
    (split; reflexivity).
Qed.

(** X19.  The block of [gnutls_tpm_privkey_generate] that exports the
    public key.  The public-key object is released exactly once when its
    creation succeeded, and not at all otherwise.  On success the
    private key is handed back as it was and only the temporary blob is
    freed.  On failure the private key is freed and [privkey->data] set
    to [NULL], the temporary blob is freed, and nothing else is: a
    buffer already allocated for the public key stays in [pubkey->data]
    and is not freed. *)
Theorem export_block_cleanup (ctx key_ctx tmpkey_data format : Z)
    (priv pub_out : gnutls_datum_t) tr :
  let run := export_public_key tss ctx key_ctx tmpkey_data format priv pub_out tr in
  let a := tss tr gnutls_pubkey_init in
  GNUTLS_E_TPM_ERROR <> 0 -> GNUTLS_E_MEMORY_ERROR <> 0 ->
  exists new,
    snd run = tr ++ gnutls_pubkey_init :: new
    /\ deinits new = (if ret a <? 0 then [] else [out a])
    /\ (code (fst run) = 0 ->
        privkey (fst run) = priv
        /\ frees new = [tmpkey_data]
        /\ data (pubkey (fst run)) <> 0)
    /\ (code (fst run) <> 0 ->
        privkey (fst run) = {| data := 0; size := size priv |}
        /\ frees new = [data priv; tmpkey_data]
        /\ size (pubkey (fst run)) = size pub_out
        /\ match answers_to tss is_malloc (tr ++ [gnutls_pubkey_init]) new with
           | [] => pubkey (fst run) = pub_out
           | p :: _ => data (pubkey (fst run)) = p
           end).
Proof.
  intros run a Htpm Hmem. subst run a.
  tpm_paths; tests; cbn [data] in *;
    (eexists; split; [reflexivity|]);
    (split; [reflexivity|]);
    (split; intros Hcode; [try (exfalso; first [congruence | lia])
                          |try (exfalso; congruence)]);
    repeat split; try reflexivity; try assumption.
Qed.

End Generate.

Section ImportTpmRaw.

Context {K : gnutls_h} {T : tss_h} (tss : oracle).

(** X20.  [gnutls_privkey_import_tpm_raw] frees the decoded blob exactly
    once.  If the PEM decoding fails the function returns that code and
    makes no other call.  Otherwise every return is right after the
    freeing of the blob; beside it the function frees at most the
    structure it allocated, and nothing else. *)
Theorem import_frees_the_blob_once (pkey : Z) (fdata : gnutls_datum_t) (format : Z)
    (srk_password key_password : option (list byte)) tr :
  let run := gnutls_privkey_import_tpm_raw tss pkey fdata format
               srk_password key_password tr in
  let decode := gnutls_pem_base64_decode_alloc (data fdata) (size fdata) in
  let a := tss tr decode in
  exists new,
    snd run = tr ++ decode :: new
    /\ (ret a <> 0 -> new = [] /\ fst run = Some (ret a))
    /\ (ret a = 0 -> fst run <> None ->
        last new = Some (gnutls_free (out a))
        /\ (frees new = [out a]
            \/ exists s_ptr,
                 answers_to tss is_malloc (tr ++ [decode]) new = [s_ptr]
                 /\ frees new = [s_ptr; out a])).
Proof.
  intros run decode a. subst run decode a.
  import_paths; tests;
    (eexists; split; [reflexivity|]);
    (split; [intros ?; first [contradiction | split; reflexivity]|]);
    intros ? Hret; try contradiction; try (exfalso; apply Hret; reflexivity);
    (split; [reflexivity|]);
    first [left; reflexivity | right; eexists; split; reflexivity].
Qed.

(** X21.  [gnutls_privkey_import_tpm_raw] returns 0 only after the
    library took the structure over and the trial signature either
    succeeded or reported missing credentials (the error codes the
    function sets being different from 0).  Then it has closed neither
    the context nor any object, and has freed the blob only: the
    structure and the TPM handles stay with the key. *)
Theorem import_success_keeps_the_context (pkey : Z) (fdata : gnutls_datum_t)
    (format : Z) (srk_password key_password : option (list byte)) tr :
  let run := gnutls_privkey_import_tpm_raw tss pkey fdata format
               srk_password key_password tr in
  GNUTLS_E_TPM_ERROR <> 0 -> GNUTLS_E_MEMORY_ERROR <> 0 ->
  GNUTLS_E_TPM_SRK_PASSWORD_ERROR <> 0 -> GNUTLS_E_TPM_KEY_PASSWORD_ERROR <> 0 ->
  fst run = Some 0 ->
  exists new s_ptr a b,
    snd run = tr ++ new
    /\ In (gnutls_privkey_import_ext2 pkey s_ptr, a) (replies tss tr new)
    /\ 0 <= ret a
    /\ In (gnutls_privkey_sign_data pkey (data fdata) (size fdata), b)
         (replies tss tr new)
    /\ (0 <= ret b \/ ret b = GNUTLS_E_INSUFFICIENT_CREDENTIALS)
    /\ count is_close new = 0%nat
    /\ count is_close_object new = 0%nat
    /\ frees new = [out (tss tr (gnutls_pem_base64_decode_alloc (data fdata) (size fdata)))].
Proof.
  intros run Htpm Hmem Hsrk Hkey. subst run.
  import_paths; tests; intros Hcode;
    try discriminate Hcode;
    try (exfalso; injection Hcode as Hcode; first [congruence | lia]);
    do 4 eexists; (split; [reflexivity|]);
    (split; [cbn [replies app In]; repeat (first [left; reflexivity | right])|]);
    (split; [assumption|]);
    (split; [cbn [replies app In]; repeat (first [left; reflexivity | right])|]);
    (split; [first [left; assumption | right; assumption]|]);
    repeat split.
Qed.

(** X22.  When the trial signature reports missing credentials and the
    function then returns an error, it ends with the very calls of
    [tpm_deinit_fn] on the structure it allocated, filled with the
    handles it got: the context it created, the key it loaded, the SRK
    and its policy, and as key policy what it found in the fresh memory
    or, when that was 0, the object it created.  The first of these
    calls is left out exactly when the key policy object could not be
    created.  The freeing of the blob follows.  All this after the
    library had taken the structure over, with [tpm_deinit_fn] as its
    destructor, without an error. *)
Theorem failed_pin_runs_the_destructor (pkey : Z) (fdata : gnutls_datum_t)
    (format : Z) (srk_password key_password : option (list byte)) tr new b r :
  let run := gnutls_privkey_import_tpm_raw tss pkey fdata format
               srk_password key_password tr in
  let blob := out (tss tr (gnutls_pem_base64_decode_alloc (data fdata) (size fdata))) in
  let R := replies tss tr new in
  snd run = tr ++ new ->
  In (gnutls_privkey_sign_data pkey (data fdata) (size fdata), b) R ->
  ret b = GNUTLS_E_INSUFFICIENT_CREDENTIALS ->
  fst run = Some r -> r <> 0 ->
  exists pre m c u p n k a kp,
    In (gnutls_malloc sizeof_tpm_ctx_st, m) R
    /\ In (Tspi_Context_Create, c) R
    /\ In (Tspi_Context_LoadKeyByUUID (out c) TSS_PS_TYPE_SYSTEM, u) R
    /\ In (Tspi_GetPolicyObject (out u) TSS_POLICY_USAGE, p) R
    /\ In (Tspi_Context_LoadKeyByBlob (out c) (out u) n blob, k) R
    /\ In (gnutls_privkey_import_ext2 pkey (out m), a) R
    /\ 0 <= ret a
    /\ let calls := snd (tpm_deinit_fn tss (out m)
                           {| tpm_context := out c; tpm_key := out k;
                              tpm_key_policy := kp; srk := out u;
                              srk_policy := out p |} []) in
       (out_size m <> 0 /\ kp = out_size m
        /\ new = pre ++ calls ++ [gnutls_free blob])
       \/ (out_size m = 0
           /\ exists q,
                In (Tspi_Context_CreateObject (out c) TSS_OBJECT_TYPE_POLICY
                      TSS_POLICY_USAGE, q) R
                /\ kp = out q
                /\ ((ret q = 0 /\ new = pre ++ calls ++ [gnutls_free blob])
                    \/ (ret q <> 0 /\ new = pre ++ tl calls ++ [gnutls_free blob]))).
Proof.
  intros run blob R. subst run blob R.
  import_paths; tests; intros Hnew Hin Hb Hr Hne;
    apply app_inv_head in Hnew; subst new;
    find_reply Hin; injection Hin as <-; refold;
    try contradiction; try discriminate Hr;
    try (injection Hr as <-; contradiction).
  all: match goal with
       | |- context [replies _ _ ?l] =>
           first [destructor_calls (firstn (length l - 7) l)
                 |destructor_calls (firstn (length l - 6) l)]
       end.
Qed.

(** X23.  [strlen (key_password)] is taken without a test.  The behaviour
    of [gnutls_privkey_import_tpm_raw] is undefined only when there is no
    key password and the trial signature reported missing credentials;
    nothing has been freed by then.  Conversely, without a key password
    and with missing credentials reported, the function does not return
    unless the creation of the key policy object, or its assignment,
    failed: then it returns the TPM error. *)
Theorem missing_key_password_is_undefined (pkey : Z) (fdata : gnutls_datum_t)
    (format : Z) (srk_password key_password : option (list byte)) tr new :
  let run := gnutls_privkey_import_tpm_raw tss pkey fdata format
               srk_password key_password tr in
  let trial := gnutls_privkey_sign_data pkey (data fdata) (size fdata) in
  snd run = tr ++ new ->
  (fst run = None ->
   key_password = None
   /\ frees new = []
   /\ exists b, In (trial, b) (replies tss tr new)
                /\ ret b = GNUTLS_E_INSUFFICIENT_CREDENTIALS)
  /\ (key_password = None ->
      forall b, In (trial, b) (replies tss tr new) ->
                ret b = GNUTLS_E_INSUFFICIENT_CREDENTIALS ->
                fst run = None
                \/ (fst run = Some GNUTLS_E_TPM_ERROR
                    /\ count is_create_object new = 1%nat
                    /\ count is_close new = 1%nat)).
Proof.
  intros run trial. subst run trial.
  import_paths; tests; intros Hnew;
    apply app_inv_head in Hnew; subst new;
    (split;
     [intros Hnone;
      first [discriminate Hnone
            |split; [reflexivity|]; split; [reflexivity|];
             eexists; split;
             [cbn [replies app In]; repeat (first [left; reflexivity | right])
             |assumption]]
     |intros Hpw b Hin Hb;
      first [discriminate Hpw
            |find_reply Hin; injection Hin as <-; refold;
             first [contradiction | left; reflexivity
                   | right; repeat split; reflexivity]]]).
Qed.

(** X24.  When [gnutls_privkey_import_ext2] fails, the function returns
    its code and leaves through [out_srkpol]: after the loading of the
    key, which succeeded, and the refused import it closes the policy it
    got for the SRK, the SRK it loaded and the context it created, and
    frees the structure it allocated and the blob.  These are the only
    two objects it closes: there is no call that closes the key. *)
Theorem refused_import_leaves_the_key_loaded (pkey : Z) (fdata : gnutls_datum_t)
    (format : Z) (srk_password key_password : option (list byte)) tr new s_ptr a :
  let run := gnutls_privkey_import_tpm_raw tss pkey fdata format
               srk_password key_password tr in
  let blob := out (tss tr (gnutls_pem_base64_decode_alloc (data fdata) (size fdata))) in
  let R := replies tss tr new in
  snd run = tr ++ new ->
  In (gnutls_privkey_import_ext2 pkey s_ptr, a) R ->
  ret a < 0 ->
  fst run = Some (ret a)
  /\ count is_close_object new = 2%nat
  /\ exists pre m c u p n k,
       In (gnutls_malloc sizeof_tpm_ctx_st, m) R /\ s_ptr = out m
       /\ In (Tspi_Context_Create, c) R
       /\ In (Tspi_Context_LoadKeyByUUID (out c) TSS_PS_TYPE_SYSTEM, u) R
       /\ In (Tspi_GetPolicyObject (out u) TSS_POLICY_USAGE, p) R
       /\ In (Tspi_Context_LoadKeyByBlob (out c) (out u) n blob, k) R
       /\ ret k = 0
       /\ new = pre ++ [Tspi_Context_LoadKeyByBlob (out c) (out u) n blob;
                        gnutls_privkey_import_ext2 pkey s_ptr;
                        Tspi_Context_CloseObject (out c) (out p);
                        Tspi_Context_CloseObject (out c) (out u);
                        Tspi_Context_Close (out c);
                        gnutls_free s_ptr;
                        gnutls_free blob].
Proof.
  intros run blob R. subst run blob R.
  import_paths; tests; intros Hnew Hin Ha;
    apply app_inv_head in Hnew; subst new;
    find_reply Hin; injection Hin as <- <-;
    first [match goal with
           | H : 0 <= _ |- _ => exfalso; exact (proj1 (Z.lt_nge _ _) Ha H)
           end
          |(split; [reflexivity|]); (split; [reflexivity|]);
           match goal with
           | |- context [replies _ _ ?l] => exists (firstn (length l - 7) l)
           end;
           do 6 eexists;
           (split; [reply_found|]); (split; [reflexivity|]);
           (split; [reply_found|]); (split; [reply_found|]); (split; [reply_found|]);
           (split; [reply_found|]); (split; [assumption|]); reflexivity].
Qed.

(** X25.  When the trial signature answers anything but missing
    credentials, the function returns that answer if it is negative and
    0 otherwise, and in both cases it has closed nothing and freed the
    blob only: after a failed trial signature the key stays imported,
    with the context open. *)
Theorem other_trial_failure_leaves_the_key_imported (pkey : Z)
    (fdata : gnutls_datum_t) (format : Z)
    (srk_password key_password : option (list byte)) tr new b :
  let run := gnutls_privkey_import_tpm_raw tss pkey fdata format
               srk_password key_password tr in
  let blob := out (tss tr (gnutls_pem_base64_decode_alloc (data fdata) (size fdata))) in
  snd run = tr ++ new ->
  In (gnutls_privkey_sign_data pkey (data fdata) (size fdata), b) (replies tss tr new) ->
  ret b <> GNUTLS_E_INSUFFICIENT_CREDENTIALS ->
  (ret b < 0 -> fst run = Some (ret b))
  /\ (0 <= ret b -> fst run = Some 0)
  /\ count is_close new = 0%nat
  /\ count is_close_object new = 0%nat
  /\ frees new = [blob].
Proof.
  intros run blob. subst run blob.
  import_paths; tests; intros Hnew Hin Hb;
    apply app_inv_head in Hnew; subst new;
    find_reply Hin; injection Hin as <-; refold;
    first [contradiction
          |(split; [intros ?; refold; first [reflexivity | lia]|]);
           (split; [intros ?; refold; first [reflexivity | lia]|]);
           repeat split].
Qed.

End ImportTpmRaw.

(** ** The theorems at concrete inputs *)

Lemma sign_result_witness :
  fst (tpm_sign_fn (T := sample_values) unauthorised a_key [] [])
  = GNUTLS_E_INSUFFICIENT_CREDENTIALS (tss_h := sample_values).
Proof.
  destruct (sign_result (T := sample_values) unauthorised a_key [] [])
    as (_ & Hcred & _).
  - cbn. lia.
  - cbn. lia.
  - cbn. lia.
  - cbn. lia.
  - apply Hcred. cbn. repeat split; reflexivity.
Defined.

Lemma generate_closes_context_and_key_witness :
  exists new,
    snd (gnutls_tpm_privkey_generate (K := gnutls_values) (T := sample_values)
           failing_export 1 2048 None None 1 no_datum no_datum 0 []) = new
    /\ last new = Some (Tspi_Context_Close 1)
    /\ count is_close_object new = 1%nat.
Proof.
  destruct (generate_closes_context_and_key (K := gnutls_values) (T := sample_values)
              failing_export 1 2048 None None 1 no_datum no_datum 0 768 [])
    as (new & Hnew & _ & _ & Hclose & Hobject & _).
  - reflexivity.
  - exists new. split; [exact Hnew|]. split.
    + apply Hclose. reflexivity.
    + apply Hobject; reflexivity.
Defined.

Lemma generate_success_witness :
  data (pubkey (fst (gnutls_tpm_privkey_generate (K := gnutls_values)
                       (T := sample_values) willing 1 2048 None None 0
                       no_datum no_datum 0 []))) <> 0.
Proof.
  destruct (generate_success (K := gnutls_values) (T := sample_values)
              willing 1 2048 None None 0 no_datum no_datum 0 768 []) as (Hdata & _).
  - cbn. lia.
  - cbn. lia.
  - cbn. lia.
  - reflexivity.
  - reflexivity.
  - exact Hdata.
Defined.

Lemma export_block_cleanup_witness :
  exists new,
    snd (export_public_key (K := gnutls_values) (T := sample_values)
           failing_export 1 2 3 1 {| data := 4; size := 5 |} no_datum []) 
    = gnutls_pubkey_init :: new
    /\ frees new = [4; 3].
Proof.
  destruct (export_block_cleanup (K := gnutls_values) (T := sample_values)
              failing_export 1 2 3 1 {| data := 4; size := 5 |} no_datum [])
    as (new & Hnew & _ & _ & Hfail).
  - cbn. lia.
  - cbn. lia.
  - exists new. split; [exact Hnew|].
    apply Hfail. vm_compute. discriminate.
Defined.

Lemma import_success_keeps_the_context_witness :
  exists new,
    snd (import_from willing None) = new
    /\ count is_close new = 0%nat /\ count is_close_object new = 0%nat
    /\ frees new = [1].
Proof.
  destruct (import_success_keeps_the_context (K := gnutls_values) (T := sample_values)
              willing 7 a_blob 1 None None [])
    as (new & s_ptr & a & b & Hnew & _ & _ & _ & _ & Hclose & Hobject & Hfrees).
  - cbn. lia.
  - cbn. lia.
  - cbn. lia.
  - cbn. lia.
  - reflexivity.
  - exists new. split; [exact Hnew|]. split; [exact Hclose|].
    split; [exact Hobject|exact Hfrees].
Defined.

Lemma failed_pin_runs_the_destructor_witness :
  exists s_ptr st pre,
    snd (import_from locked_key (Some a_pin))
    = pre ++ snd (tpm_deinit_fn locked_key s_ptr st []) ++ [gnutls_free 1]
      \/ snd (import_from locked_key (Some a_pin))
         = pre ++ tl (snd (tpm_deinit_fn locked_key s_ptr st [])) ++ [gnutls_free 1].
Proof.
  destruct (failed_pin_runs_the_destructor (K := gnutls_values) (T := sample_values)
              locked_key 7 a_blob 1 None (Some a_pin) []
              (snd (import_from locked_key (Some a_pin)))
              {| ret := -32; out := 0; out_size := 0 |} (-330))
    as (pre & m & c & u & p & n & k & a & kp & _ & _ & _ & _ & _ & _ & _ & Hcalls).
  - reflexivity.
  - vm_compute. repeat (first [left; reflexivity | right]).
  - reflexivity.
  - reflexivity.
  - discriminate.
  - exists (out m),
      {| tpm_context := out c; tpm_key := out k; tpm_key_policy := kp;
         srk := out u; srk_policy := out p |}, pre.
    destruct Hcalls as [(_ & _ & Hfull)|(_ & q & _ & _ & [(_ & Hfull)|(_ & Htail)])].
    + left. exact Hfull.
    + left. exact Hfull.
    + right. exact Htail.
Defined.

Lemma missing_key_password_is_undefined_witness :
  fst (import_from locked_key None) = None.
Proof.
  destruct (missing_key_password_is_undefined (K := gnutls_values) (T := sample_values)
              locked_key 7 a_blob 1 None None []
              (snd (import_from locked_key None))) as (_ & Hundefined).
  - reflexivity.
  - destruct (Hundefined eq_refl {| ret := -32; out := 0; out_size := 0 |})
      as [Hnone|(Hcode & _)].
    + vm_compute. repeat (first [left; reflexivity | right]).
    + reflexivity.
    + exact Hnone.
    + vm_compute in Hcode. discriminate Hcode.
Defined.

Lemma refused_import_leaves_the_key_loaded_witness :
  fst (import_from refused_import None) = Some (-50)
  /\ count is_close_object (snd (import_from refused_import None)) = 2%nat.
Proof.
  destruct (refused_import_leaves_the_key_loaded (K := gnutls_values)
              (T := sample_values) refused_import 7 a_blob 1 None None []
              (snd (import_from refused_import None)) 3
              {| ret := -50; out := 0; out_size := 0 |})
    as (Hcode & Hobjects & _).
  - reflexivity.
  - vm_compute. repeat (first [left; reflexivity | right]).
  - cbn. lia.
  - split; [exact Hcode|exact Hobjects].
Defined.

Lemma other_trial_failure_leaves_the_key_imported_witness :
  fst (import_from failing_trial None) = Some (-46)
  /\ count is_close (snd (import_from failing_trial None)) = 0%nat
  /\ frees (snd (import_from failing_trial None)) = [1].
Proof.
  destruct (other_trial_failure_leaves_the_key_imported (K := gnutls_values)
              (T := sample_values) failing_trial 7 a_blob 1 None None []
              (snd (import_from failing_trial None))
              {| ret := -46; out := 0; out_size := 0 |})
    as (Hcode & _ & Hclose & _ & Hfrees).
  - reflexivity.
  - vm_compute. repeat (first [left; reflexivity | right]).
  - cbn. lia.
  - split; [apply Hcode; cbn; lia|]. split; [exact Hclose|exact Hfrees].
Defined.

End TpmFacts.
